(** * metro-jsapi: a transit scheme overlaid on a slippy map

    A shallow embedding of the JavaScript sources (Scheme, SchemeView,
    SchemeLayer, Station, StationCollection, TransportMap) and the
    properties of the coordinate transform and of the station selection
    state machine.

    Conventions of the embedding:
    - a JavaScript number is a real number, so that [Math.min], [Math.pow],
      [Math.log] and the four operations are exact; what the properties
      below say about numbers, they say of this exact arithmetic. The
      code computes in binary64: the module [Binary64] repeats the
      numeric part of the [SchemeView] constructor with the floating-point
      numbers of the kernel, to tell where rounding shows. Station and
      label codes are integers, as the jsdoc types them
      ([Array<Number>|Number]);
    - an object used as a dictionary is a [gmap]; a property key made of
      an integer code never names a member inherited from
      [Object.prototype], so a missing key reads as [undefined] ([None]);
    - a method that mutates [this], the scheme document or the event
      manager is a state transformer that either returns or throws, and
      keeps the mutations done before the throw. *)

From Stdlib Require Import Reals Lra Lia ZArith.
From Stdlib Require PrimFloat Uint63.
From stdpp Require Import gmap strings list fin_maps pretty.

(** ** Part I. Definitions *)

(** *** Numbers *)

(** The functions of [Math] over the reals: no rounding, no overflow. *)
Definition Math_min (x y : R) : R := Rmin x y.
Definition Math_floor (x : R) : R := IZR (Zfloor x).
Definition Math_pow (x y : R) : R := Rpower x y.
Definition Math_log (x : R) : R := ln x.
Definition Math_LOG2E : R := (1 / ln 2)%R.

(** *** Errors *)

(** [TypeError prop]: a property or method [prop] was read from, or called
    on, [null] or [undefined], or a DOM method was handed [null]. *)
Inductive Error := TypeError (prop : string).

(** *** The scheme document *)

Record Style := { stroke : string; opacity : string }.

(** An element of the scheme image that carries an [id] attribute: the ids
    of its child elements in document order, its inline style, and the
    inline style of its first [<rect>] descendant when it has one. *)
Record Element := {
  childNodes : list string;
  style : Style;
  rect : option Style
}.

Inductive Attr :=
| AttrText (s : string)
| AttrViewBox (x y w h : R).

(** The root [<svg>] node: its attributes and the elements reachable by
    [getElementById]. *)
Record Svg := {
  attributes : gmap string Attr;
  elements : gmap string Element
}.

Record StationMeta := { labelId : Z; name : string }.
Record LabelMeta := { stationIds : list Z }.

(** The JSON record of the [<metadata>] element; [stations] lists the
    entries in the order [for (code in metadata)] enumerates them. *)
Record MetaData := {
  width : R;
  height : R;
  stations : list (Z * StationMeta);
  labels : gmap Z LabelMeta
}.

Module Scheme.

(** A scheme after [_load] resolved. *)
Record t := {
  _node : Svg;
  _metaData : MetaData
}.

Definition createDom (this : t) : Svg := _node this.

Definition getSize (this : t) : R * R :=
  (width (_metaData this), height (_metaData this)).

Definition getStations (this : t) : list (Z * StationMeta) :=
  stations (_metaData this).

Definition getLabel (this : t) (code : Z) : option LabelMeta :=
  labels (_metaData this) !! code.

End Scheme.

(** *** Mutation and exceptions *)

(** A computation over a mutable state [S]: it returns a value or throws,
    and in both cases leaves the state it reached. *)
Inductive result (S A : Type) :=
| Ok (a : A) (s : S)
| Throw (e : Error) (s : S).

Arguments Ok {S A} a s.
Arguments Throw {S A} e s.

Definition M (S A : Type) : Type := S -> result S A.

#[global] Instance M_ret (S : Type) : MRet (M S) :=
  fun A a s => Ok a s.

#[global] Instance M_bind (S : Type) : MBind (M S) :=
  fun A B f m s =>
    match m s with
    | Ok a s' => f a s'
    | Throw e s' => Throw e s'
    end.

Definition throw {S A} (e : Error) : M S A := fun s => Throw e s.
Definition gets {S A} (f : S -> A) : M S A := fun s => Ok (f s) s.
Definition modify {S} (f : S -> S) : M S unit := fun s => Ok tt (f s).

(** Runs a computation on a part of the state. *)
Definition within {S T A} (get : S -> T) (set : T -> S -> S) (m : M T A) : M S A :=
  fun s =>
    match m (get s) with
    | Ok a t => Ok a (set t s)
    | Throw e t => Throw e (set t s)
    end.

Definition state_of {S A} (r : result S A) : S :=
  match r with Ok _ s => s | Throw _ s => s end.

Definition throws {S A} (r : result S A) : bool :=
  match r with Ok _ _ => false | Throw _ _ => true end.

(** [Array.prototype.forEach] and [Array.prototype.map] with an effectful
    callback. *)
Fixpoint forEach {S A} (l : list A) (f : A -> M S unit) : M S unit :=
  match l with
  | [] => mret tt
  | x :: l' => f x ;; forEach l' f
  end.

Fixpoint map_array {S A B} (l : list A) (f : A -> M S B) : M S (list B) :=
  match l with
  | [] => mret []
  | x :: l' => y ← f x; ys ← map_array l' f; mret (y :: ys)
  end.

(** *** DOM operations on the scheme node *)

Module Dom.

(** A reference to the first [<rect>] under the element [owner]. *)
Record RectRef := { owner : string }.

Definition set_stroke (v : string) (st : Style) : Style :=
  {| stroke := v; opacity := opacity st |}.

Definition set_opacity (v : string) (st : Style) : Style :=
  {| stroke := stroke st; opacity := v |}.

Definition with_elements (f : gmap string Element -> gmap string Element) (n : Svg) : Svg :=
  {| attributes := attributes n; elements := f (elements n) |}.

(** [node.getElementById(id)]: the element, or [null]. *)
Definition getElementById (id : string) : M Svg (option string) :=
  gets (fun n => match elements n !! id with Some _ => Some id | None => None end).

(** [node.getElementsByTagName('rect')[0]]: throws on a [null] node, is
    [undefined] when the element has no [<rect>]. *)
Definition getElementsByTagName_rect_0 (node : option string) : M Svg (option RectRef) :=
  match node with
  | None => throw (TypeError "getElementsByTagName")
  | Some id =>
      gets (fun n =>
        match elements n !! id with
        | Some e => match rect e with Some _ => Some {| owner := id |} | None => None end
        | None => None
        end)
  end.

(** [node.style.<property> = value] on an element with an id. *)
Definition setStyle (node : option string) (f : Style -> Style) : M Svg unit :=
  match node with
  | None => throw (TypeError "style")
  | Some id =>
      modify (with_elements (alter (fun e =>
        {| childNodes := childNodes e; style := f (style e); rect := rect e |}) id))
  end.

(** [rectNode.style.<property> = value]. *)
Definition setRectStyle (rectNode : option RectRef) (f : Style -> Style) : M Svg unit :=
  match rectNode with
  | None => throw (TypeError "style")
  | Some r =>
      modify (with_elements (alter (fun e =>
        {| childNodes := childNodes e; style := style e; rect := f <$> rect e |}) (owner r)))
  end.

Definition detach (child : string) (e : Element) : Element :=
  {| childNodes := filter (fun c => c <> child) (childNodes e);
     style := style e; rect := rect e |}.

Definition attach (child : string) (e : Element) : Element :=
  {| childNodes := childNodes e ++ [child]; style := style e; rect := rect e |}.

(** [parentNode.appendChild(element)]: the element leaves its former
    parent and becomes the last child of [parentNode]. Layer groups of a
    scheme image are not nested inside glyphs, so the case of a parent
    that lies inside the element it is given does not arise. *)
Definition appendChild (parentNode element : option string) : M Svg unit :=
  match parentNode, element with
  | Some p, Some c =>
      modify (with_elements (fun els => alter (attach c) p (detach c <$> els)))
  | _, _ => throw (TypeError "appendChild")
  end.

End Dom.

(** *** SchemeView *)

Inductive CssValue :=
| CssText (s : string)
| CssPx (x : R)
| CssTranslate (x y : R).

Definition extend {V} (target : gmap string V) (source : list (string * V)) : gmap string V :=
  fold_left (fun acc kv => <[fst kv := snd kv]> acc) source target.

Definition setAttribute (k : string) (v : Attr) (n : Svg) : Svg :=
  {| attributes := <[k := v]> (attributes n); elements := elements n |}.

Module SchemeView.

Record t := {
  _scheme : Scheme.t;
  _selfSize : R * R;
  _zeroZoomScale : R;
  _offset : R * R;
  _node : gmap string CssValue;
  _schemeNode : Svg
}.

(** [new SchemeView(scheme)], in exact arithmetic; [Binary64.SchemeView]
    has the scale and the offset as binary64 computes them. *)
Definition constructor (scheme : Scheme.t) : t :=
  let selfSize := Scheme.getSize scheme in
  let zeroZoomScale := Math_min (256 / fst selfSize) (256 / snd selfSize) in
  let offset :=
    (Math_floor ((256 - fst selfSize * zeroZoomScale) / 2),
     Math_floor ((256 - snd selfSize * zeroZoomScale) / 2))%R in
  let node :=
    extend ∅ [("position", CssText "absolute");
              ("width", CssPx (fst selfSize));
              ("height", CssPx (snd selfSize))] in
  let schemeNode :=
    setAttribute "viewBox" (AttrViewBox 0 0 (fst selfSize) (snd selfSize))
      (setAttribute "height" (AttrText "100%")
        (setAttribute "width" (AttrText "100%") (Scheme.createDom scheme))) in
  {| _scheme := scheme;
     _selfSize := selfSize;
     _zeroZoomScale := zeroZoomScale;
     _offset := offset;
     _node := node;
     _schemeNode := schemeNode |}.

Definition updatePosition (this : t) (clientCenter : R * R) (mapScale : R) : t :=
  let scale := (_zeroZoomScale this * mapScale)%R in
  let offset :=
    (fst (_offset this) + fst clientCenter,
     snd (_offset this) + snd clientCenter)%R in
  let value := CssTranslate (fst offset) (snd offset) in
  let node1 :=
    fold_left
      (fun st prefix =>
         <[prefix +:+ "transform" := value]>
           (<[prefix +:+ "transform-origin" := CssText "0px 0px"]> st))
      ["-webkit-"; "-moz-"; "-ms-"; "-o-"; ""] (_node this) in
  let node2 :=
    extend node1 [("width", CssPx (fst (_selfSize this) * scale));
                  ("height", CssPx (snd (_selfSize this) * scale))] in
  {| _scheme := _scheme this;
     _selfSize := _selfSize this;
     _zeroZoomScale := _zeroZoomScale this;
     _offset := _offset this;
     _node := node2;
     _schemeNode := _schemeNode this |}.

Definition getNode (this : t) := _node this.
Definition getScheme (this : t) : Scheme.t := _scheme this.
Definition getSchemeNode (this : t) : Svg := _schemeNode this.

Definition toClientPixels (this : t) (globalPixels : R * R) (zoom : R) : R * R :=
  let mapScale := Math_pow 2 zoom in
  let zeroZoomPixels :=
    (fst globalPixels / mapScale, snd globalPixels / mapScale)%R in
  (fst zeroZoomPixels / _zeroZoomScale this - fst (_offset this),
   snd zeroZoomPixels / _zeroZoomScale this - snd (_offset this))%R.

Definition fromClientPixels (this : t) (clientPixels : R * R) (zoom : R) : R * R :=
  let zeroZoomPixels :=
    ((fst clientPixels + fst (_offset this)) * _zeroZoomScale this,
     (snd clientPixels + snd (_offset this)) * _zeroZoomScale this)%R in
  let mapScale := Math_pow 2 zoom in
  (fst zeroZoomPixels * mapScale, snd zeroZoomPixels * mapScale)%R.

Definition set_schemeNode (n : Svg) (this : t) : t :=
  {| _scheme := _scheme this;
     _selfSize := _selfSize this;
     _zeroZoomScale := _zeroZoomScale this;
     _offset := _offset this;
     _node := _node this;
     _schemeNode := n |}.

(** Runs a DOM computation on [this._schemeNode]. *)
Definition onSchemeNode {A} (m : M Svg A) : M t A :=
  within _schemeNode set_schemeNode m.

Definition fadeOut : M t unit :=
  layer ← onSchemeNode (Dom.getElementById "scheme-layer");
  onSchemeNode (Dom.setStyle layer (Dom.set_opacity "")).

Definition fadeIn : M t unit :=
  layer ← onSchemeNode (Dom.getElementById "scheme-layer");
  onSchemeNode (Dom.setStyle layer (Dom.set_opacity "0.5")).

(** The live transform after a series of viewport notifications. *)
Definition updatePositions (this : t) (calls : list ((R * R) * R)) : t :=
  fold_left (fun v c => updatePosition v (fst c) (snd c)) calls this.

End SchemeView.

(** *** The constructor of SchemeView in binary64 *)

Module Binary64.

Import PrimFloat.

(** [Math.min] of two numbers: [NaN] when one of them is, and [-0] below
    [+0]. *)
Definition Math_min (x y : float) : float :=
  if is_nan x || is_nan y then nan
  else if (x <? y)%float then x
  else if (y <? x)%float then y
  else if get_sign x then x else y.

(** [Math.floor]. A number that is not finite, a zero and a number of
    magnitude 2^52 or more are whole already. Otherwise
    [abs x + 2^52 - 2^52] is [abs x] rounded to a whole number; it is
    stepped down when it went above [abs x], and for a negative [x] the
    result is stepped away from zero when [x] is not whole. *)
Definition Math_floor (x : float) : float :=
  if is_nan x || is_infinity x || (x =? 0)%float || (0x1p+52 <=? abs x)%float then x
  else
    let nearest := (abs x + 0x1p+52 - 0x1p+52)%float in
    let truncated := if (abs x <? nearest)%float then (nearest - 1)%float else nearest in
    if (x <? 0)%float
    then (if (truncated <? abs x)%float then (- (truncated + 1))%float else (- truncated)%float)
    else truncated.

Module SchemeView.

(** The numeric fields of a scheme view. *)
Record t := {
  _selfSize : float * float;
  _zeroZoomScale : float;
  _offset : float * float
}.

(** The numeric part of [new SchemeView(scheme)], [selfSize] being what
    [scheme.getSize()] returns. *)
Definition constructor (selfSize : float * float) : t :=
  let zeroZoomScale := Math_min (256 / fst selfSize) (256 / snd selfSize) in
  let offset :=
    (Math_floor ((256 - fst selfSize * zeroZoomScale) / 2),
     Math_floor ((256 - snd selfSize * zeroZoomScale) / 2))%float in
  {| _selfSize := selfSize;
     _zeroZoomScale := zeroZoomScale;
     _offset := offset |}.

End SchemeView.

(** The binary64 number of a whole number below 2^63. *)
Definition of_Z (z : Z) : float := of_uint63 (Uint63.of_Z z).

(** The largest binary64 number below 256: 256 - 2^-45. *)
Definition below_256 : float := 0x1.fffffffffffffp+7%float.

(** Whether the scaled sides of an image of the size [w] by [h] are both
    at most 256, one of them being 256 or the number just below. *)
Definition fits_square (w h : float) : bool :=
  let s := SchemeView._zeroZoomScale (SchemeView.constructor (w, h)) in
  (w * s <=? 256)%float && (h * s <=? 256)%float &&
  ((w * s =? 256)%float || (w * s =? below_256)%float ||
   (h * s =? 256)%float || (h * s =? below_256)%float).

(** [p z && p (z + 1) && ... && p (z + n - 1)]. *)
Fixpoint all_from (n : nat) (z : Z) (p : Z -> bool) : bool :=
  match n with
  | O => true
  | S n' => p z && all_from n' (z + 1)%Z p
  end.

End Binary64.

(** *** SchemeLayer (static helpers) *)

Record HtmlElement := { clientWidth : R; clientHeight : R }.

(** The ground pane of the host map, as far as the layer reads it. *)
Record Pane := {
  pane_toClientPixels : R * R -> R * R;
  pane_getZoom : R
}.

Module SchemeLayer.

Definition SQUARE_SIZE : R := 256.

Definition getScaleFromZoom (zoom : R) : R := Math_pow 2 zoom.

(** In exact arithmetic: the logarithm of [scale] to the base 2. *)
Definition getZoomFromScale (scale : R) : R := (Math_log scale * Math_LOG2E)%R.

(** Reading [clientWidth] of a missing container throws. *)
Definition getFitZoom (containerNode : option HtmlElement) : Error + R :=
  match containerNode with
  | None => inl (TypeError "clientWidth")
  | Some node =>
      inr (getZoomFromScale (Math_min (clientWidth node / SQUARE_SIZE)
                                      (clientHeight node / SQUARE_SIZE)))
  end.

(** [_updateSchemePosition], the listener of the pane's [viewportchange],
    [zoomchange] and [clientpixelschange] events, [pane] being the state of
    [this._pane] when it runs. *)
Definition _updateSchemePosition (schemeView : SchemeView.t) (pane : Pane) : SchemeView.t :=
  SchemeView.updatePosition schemeView
    (pane_toClientPixels pane (0, 0)%R)
    (Math_pow 2 (pane_getZoom pane)).

(** The scheme view after [onAddToMap] and the notifications that
    followed: one call of the listener for each state of the pane. *)
Definition notified (schemeView : SchemeView.t) (panes : list Pane) : SchemeView.t :=
  fold_left _updateSchemePosition panes schemeView.

End SchemeLayer.

(** *** Station *)

(** [events.fire(name, {type: type, target: target})]; the target is a
    reference to a station object. *)
Record Event := { event_name : string; event_type : string; target : nat }.

Record Annotation := { position : R * R }.

(** What [svgNode.getBBox()] returns. *)
Record SVGRect := { rect_x : R; rect_y : R; rect_width : R; rect_height : R }.

(** The host map a station is on, as far as the station reads it: the
    bounding boxes the browser computes for the elements of the scheme
    image, the projection of the map and its zoom. *)
Record HostMap := {
  getBBox : string -> SVGRect;
  projection_fromGlobalPixels : R * R -> R -> R * R;
  map_getZoom : R
}.

Module Station.

Record t := {
  code : Z;
  title : string;
  selected : bool;
  _annotations : list Annotation
}.

(** What the station methods read and write: the scheme view shared by all
    stations, the station objects (a reference is an index) and the events
    fired so far, oldest first. *)
Record World := {
  view : SchemeView.t;
  objects : list t;
  events : list Event
}.

Definition set_view (v : SchemeView.t) (w : World) : World :=
  {| view := v; objects := objects w; events := events w |}.

(** Runs a DOM computation on [this._schemeView.getSchemeNode()]. *)
Definition onSchemeNode {A} (m : M Svg A) : M World A :=
  within view set_view (SchemeView.onSchemeNode m).

(** Reads the fields of the object behind a reference. References come
    from [constructor] and objects are never freed, so the failing branch
    is there only to make the function total. *)
Definition deref (this : nat) : M World t :=
  fun w =>
    match objects w !! this with
    | Some s => Ok s w
    | None => Throw (TypeError "this") w
    end.

(** [this.selected = b]. *)
Definition with_selected (b : bool) (s : t) : t :=
  {| code := code s; title := title s; selected := b;
     _annotations := _annotations s |}.

Definition set_selected (this : nat) (b : bool) : M World unit :=
  modify (fun w =>
    {| view := view w;
       objects := alter (with_selected b) this (objects w);
       events := events w |}).

Definition fire (name type : string) (this : nat) : M World unit :=
  modify (fun w =>
    {| view := view w;
       objects := objects w;
       events := events w ++ [{| event_name := name; event_type := type; target := this |}] |}).

(** What the constructor assigns to the fields of [this]; [_schemeView]
    is the view of the world. *)
Definition fields (metadata : StationMeta) : t :=
  {| code := labelId metadata;
     title := name metadata;
     selected := false;
     _annotations := [] |}.

(** [new Station(metadata, schemeView)]: allocates the object, assigns its
    fields and returns the reference to it. *)
Definition constructor (metadata : StationMeta) : M World nat :=
  fun w =>
    Ok (length (objects w))
       {| view := view w;
          objects := objects w ++ [fields metadata];
          events := events w |}.

Definition getLabelNode (this : nat) : M World (option string) :=
  s ← deref this;
  onSchemeNode (Dom.getElementById ("label-" +:+ pretty (code s))).

Definition getNode (this : nat) : M World (option string) :=
  s ← deref this;
  onSchemeNode (Dom.getElementById ("station-" +:+ pretty (code s))).

Definition _getStationNodes (this : nat) : M World (list (option string)) :=
  s ← deref this;
  schemeView ← gets view;
  match Scheme.getLabel (SchemeView.getScheme schemeView) (code s) with
  | None => throw (TypeError "stationIds")
  | Some labelMeta =>
      map_array (stationIds labelMeta) (fun id =>
        onSchemeNode (Dom.getElementById ("station-" +:+ pretty id)))
  end.

Definition _appendTo (id : string) (elements : list (option string)) : M World unit :=
  parentNode ← onSchemeNode (Dom.getElementById id);
  forEach elements (fun element =>
    onSchemeNode (Dom.appendChild parentNode element)).

Definition select (this : nat) : M World unit :=
  s ← deref this;
  if negb (selected s) then
    labelNode ← getLabelNode this;
    rectNode ← onSchemeNode (Dom.getElementsByTagName_rect_0 labelNode);
    set_selected this true;;
    onSchemeNode (Dom.setRectStyle rectNode (Dom.set_stroke "#bbb"));;
    onSchemeNode (Dom.setRectStyle rectNode (Dom.set_opacity "1"));;
    stationNodes ← _getStationNodes this;
    _appendTo "highlight-layer-stations" stationNodes;;
    labelNode' ← getLabelNode this;
    _appendTo "highlight-layer-labels" [labelNode'];;
    fire "selectionchange" "select" this
  else mret tt.

Definition deselect (this : nat) : M World unit :=
  s ← deref this;
  if selected s then
    labelNode ← getLabelNode this;
    rectNode ← onSchemeNode (Dom.getElementsByTagName_rect_0 labelNode);
    set_selected this false;;
    onSchemeNode (Dom.setRectStyle rectNode (Dom.set_stroke ""));;
    onSchemeNode (Dom.setRectStyle rectNode (Dom.set_opacity ""));;
    stationNodes ← _getStationNodes this;
    _appendTo "scheme-layer-stations" stationNodes;;
    labelNode' ← getLabelNode this;
    _appendTo "scheme-layer-labels" [labelNode'];;
    fire "selectionchange" "deselect" this
  else mret tt.

(** The click listener installed by the constructor. *)
Definition onClick (this : nat) : M World unit :=
  s ← deref this;
  if selected s then deselect this else select this.

(** [_getGeoBBox(svgNode)]; [map] is what [this.getMap()] returns, [null]
    while the station is on no map. *)
Definition _getGeoBBox (map : option HostMap) (svgNode : option string)
    : M World ((R * R) * (R * R)) :=
  schemeView ← gets view;
  match map with
  | None => throw (TypeError "options")
  | Some host =>
      let projection := projection_fromGlobalPixels host in
      let zoom := map_getZoom host in
      match svgNode with
      | None => throw (TypeError "getBBox")
      | Some id =>
          let bbox := getBBox host id in
          mret
            (projection
               (SchemeView.fromClientPixels schemeView (rect_x bbox, rect_y bbox) zoom)
               zoom,
             projection
               (SchemeView.fromClientPixels schemeView
                  (rect_x bbox + rect_width bbox, rect_y bbox + rect_height bbox)%R zoom)
               zoom)
      end
  end.

Definition getPosition (map : option HostMap) (this : nat) : M World (R * R) :=
  node ← getNode this;
  bbox ← _getGeoBBox map node;
  mret ((fst (fst bbox) + fst (snd bbox)) / 2,
        (snd (fst bbox) + snd (snd bbox)) / 2)%R.

End Station.

(** *** Strings and promises *)

(** [s.split(sep)] for a one-character separator: every occurrence of the
    separator ends a token, so two adjacent separators, or one at either
    end, give an empty token, and the empty string gives one empty token. *)
Fixpoint String_split (sep : Ascii.ascii) (s : string) : list string :=
  match s with
  | EmptyString => [EmptyString]
  | String c s' =>
      if Ascii.eqb c sep then EmptyString :: String_split sep s'
      else
        match String_split sep s' with
        | token :: tokens => String c token :: tokens
        | [] => [String c EmptyString]
        end
  end.

(** [s.substr(start, length)]. *)
Definition String_substr (s : string) (start len : nat) : string :=
  String.substring start len s.

(** A settled [vow] promise. *)
Inductive Promise (A : Type) :=
| Fulfilled (value : A)
| Rejected (reason : Error).

Arguments Fulfilled {A} value.
Arguments Rejected {A} reason.

(** *** StationCollection *)

(** The argument of [select] and [deselect]: one code or an array. *)
Inductive Codes :=
| Code (code : Z)
| CodeArray (codes : list Z).

(** [[].concat(codes)]. *)
Definition Array_concat (codes : Codes) : list Z :=
  match codes with
  | Code code => [code]
  | CodeArray codes => codes
  end.

Module StationCollection.

(** [_stationsMap] maps a metadata key to a station reference; [_items]
    are the references handed to [Collection.add], in that order. *)
Record t := {
  _stationsMap : gmap Z nat;
  _items : list nat
}.

Fixpoint constructor_loop (metadata : list (Z * StationMeta)) (this : t) : M Station.World t :=
  match metadata with
  | [] => mret this
  | (code, record) :: rest =>
      station ← Station.constructor record;
      constructor_loop rest
        {| _stationsMap := <[code := station]> (_stationsMap this);
           _items := _items this ++ [station] |}
  end.

(** [new StationCollection(schemeView)], the scheme view being the one of
    the world. *)
Definition constructor : M Station.World t :=
  schemeView ← gets Station.view;
  let metadata := Scheme.getStations (SchemeView.getScheme schemeView) in
  constructor_loop metadata {| _stationsMap := ∅; _items := [] |}.

Definition getByCode (this : t) (code : Z) : option nat :=
  _stationsMap this !! code.

Definition select (this : t) (codes : Codes) : M Station.World unit :=
  forEach (Array_concat codes) (fun code =>
    match getByCode this code with
    | None => throw (TypeError "select")
    | Some station => Station.select station
    end).

Definition deselect (this : t) (codes : Codes) : M Station.World unit :=
  forEach (Array_concat codes) (fun code =>
    match getByCode this code with
    | None => throw (TypeError "deselect")
    | Some station => Station.deselect station
    end).

Fixpoint getSelection_each (items : list nat) (codes : list Z) : M Station.World (list Z) :=
  match items with
  | [] => mret codes
  | station :: rest =>
      s ← Station.deref station;
      if Station.selected s
      then getSelection_each rest (codes ++ [Station.code s])
      else getSelection_each rest codes
  end.

Definition getSelection (this : t) : M Station.World (list Z) :=
  getSelection_each (_items this) [].

Definition search_matches (request : string) (s : Station.t) : bool :=
  existsb (fun token =>
             String.eqb (String_substr token 0 (String.length request)) request)
          (String_split Ascii.Space (Station.title s)).

Fixpoint search_filter (request : string) (items : list nat) : M Station.World (list nat) :=
  match items with
  | [] => mret []
  | station :: rest =>
      s ← Station.deref station;
      found ← search_filter request rest;
      mret (if search_matches request s then station :: found else found)
  end.

Definition search (this : t) (request : string) : M Station.World (Promise (list nat)) :=
  found ← search_filter request (_items this);
  mret (Fulfilled found).

End StationCollection.

(** *** TransportMap *)

(** What a property read on an object literal gives: an own numeric
    property, a member inherited from [Object.prototype], or [undefined]. *)
Inductive JsValue :=
| JsNumber (z : Z)
| JsInherited (member : string)
| JsUndefined.

Definition Object_prototype : list string :=
  ["constructor"; "hasOwnProperty"; "isPrototypeOf"; "propertyIsEnumerable";
   "toLocaleString"; "toString"; "valueOf"; "__proto__";
   "__defineGetter__"; "__defineSetter__"; "__lookupGetter__"; "__lookupSetter__"].

(** The name of the native function a member of [Object.prototype] holds:
    the name of the member, but [Object] for [constructor]. *)
Definition native_name (member : string) : string :=
  if String.eqb member "constructor" then "Object" else member.

(** The text [Array.prototype.join] puts for an element: nothing for
    [undefined], the decimal numeral for an integer, and for an inherited
    member the text of the native function it holds (of an object for
    [__proto__]). The text of a native function is up to the engine; this
    is the one V8 gives, and no property below depends on it. *)
Definition join_text (v : JsValue) : string :=
  match v with
  | JsNumber z => pretty z
  | JsUndefined => ""
  | JsInherited member =>
      if String.eqb member "__proto__" then "[object Object]"
      else "function " +:+ native_name member +:+ "() { [native code] }"
  end.

Record Options := {
  path : option string;
  minZoom : option R;
  maxZoom : option R;
  lang : option string
}.

Record State := {
  shaded : option bool;
  center : option (R * R);
  selection : option Codes;
  zoom : option R
}.

(** The [container] argument: an element id to look up in the page, or
    the value itself (an element, or [null]). *)
Inductive Container :=
| ContainerId (id : string)
| ContainerNode (node : option HtmlElement).

Module TransportMap.

Definition _schemeIdByCity_own : list (string * Z) :=
  [("moscow", 1%Z); ("spb", 2%Z); ("kiev", 8%Z); ("kharkov", 9%Z); ("minsk", 13%Z)].

Definition listed (city : string) : bool :=
  existsb (fun kv => String.eqb (fst kv) city) _schemeIdByCity_own.

(** [this._schemeIdByCity[city]]. *)
Definition _schemeIdByCity (city : string) : JsValue :=
  match find (fun kv => String.eqb (fst kv) city) _schemeIdByCity_own with
  | Some kv => JsNumber (snd kv)
  | None =>
      if existsb (String.eqb city) Object_prototype
      then JsInherited city
      else JsUndefined
  end.

Record t := {
  _schemeId : JsValue;
  _options_path : string;
  _options_minZoom : R;
  _options_maxZoom : R;
  _options_lang : option string;
  _state_shaded : bool;
  _state_center : R * R;
  _state_selection : Codes;
  _state_zoom : R;
  _container : option HtmlElement
}.

(** [Scheme.create(url)] issues the request for [url]; how it settles is
    up to the network. *)
Definition _loadScheme (schemeId : JsValue) (path : string) (lang : option string) : string :=
  path +:+ join_text schemeId +:+ "." +:+ default "" lang +:+ ".svg".

(** The outcome of [new TransportMap(...)]: an exception, or the object
    under construction and the URL its scheme is being loaded from. *)
Inductive Outcome :=
| Thrown (e : Error)
| Loading (this : t) (url : string).

Definition constructor (document : gmap string HtmlElement)
    (city : string) (container : Container) (state : State) (options : Options) : Outcome :=
  let schemeId := _schemeIdByCity city in
  let options_path := default "node_modules/metro-data/" (path options) in
  let options_minZoom := default 0%R (minZoom options) in
  let options_maxZoom := default 3%R (maxZoom options) in
  let state_shaded := default false (shaded state) in
  let state_center := default (0%R, 0%R) (center state) in
  let state_selection := default (CodeArray []) (selection state) in
  let containerNode :=
    match container with
    | ContainerId id => document !! id
    | ContainerNode node => node
    end in
  let state_zoom :=
    match zoom state with
    | Some z => inr z
    | None => SchemeLayer.getFitZoom containerNode
    end in
  match state_zoom with
  | inl e => Thrown e
  | inr z =>
      Loading
        {| _schemeId := schemeId;
           _options_path := options_path;
           _options_minZoom := options_minZoom;
           _options_maxZoom := options_maxZoom;
           _options_lang := lang options;
           _state_shaded := state_shaded;
           _state_center := state_center;
           _state_selection := state_selection;
           _state_zoom := z;
           _container := containerNode |}
        (_loadScheme schemeId options_path (lang options))
  end.

Definition getSchemeId (this : t) : JsValue := _schemeId this.

(** The map once its scheme is loaded: the scheme view and the events
    fired on its event manager, oldest first, each with its name and its
    type. *)
Record Loaded := {
  _schemeView : SchemeView.t;
  events : list (string * string)
}.

Definition set_schemeView (v : SchemeView.t) (this : Loaded) : Loaded :=
  {| _schemeView := v; events := events this |}.

Definition fire (name type : string) : M Loaded unit :=
  modify (fun this =>
    {| _schemeView := _schemeView this; events := events this ++ [(name, type)] |}).

Definition shade : M Loaded unit :=
  within _schemeView set_schemeView SchemeView.fadeIn;;
  fire "shadechange" "shade".

Definition unshade : M Loaded unit :=
  within _schemeView set_schemeView SchemeView.fadeOut;;
  fire "shadechange" "unshade".

End TransportMap.

(** *** Notions used in the statements *)

Definition value_of {S A} (r : result S A) : option A :=
  match r with Ok a _ => Some a | Throw _ _ => None end.

(** [elements.join(sep)]. *)
Fixpoint Array_join (sep : string) (l : list string) : string :=
  match l with
  | [] => ""
  | [t] => t
  | t :: l' => t +:+ sep +:+ Array_join sep l'
  end.

Fixpoint String_contains (c : Ascii.ascii) (s : string) : bool :=
  match s with
  | EmptyString => false
  | String c' s' => Ascii.eqb c' c || String_contains c s'
  end.

(** [tokens] are the pieces of [title] between its space characters: put
    back together with one space between neighbours they give [title], and
    none of them contains a space. *)
Definition space_tokens (title : string) (tokens : list string) : Prop :=
  tokens <> [] /\
  Forall (fun token => String_contains Ascii.Space token = false) tokens /\
  Array_join " " tokens = title.

(** Some space-delimited token of [title] starts with [request]. *)
Definition space_token_starts (request title : string) : Prop :=
  exists tokens token rest,
    space_tokens title tokens /\ In token tokens /\ token = request +:+ rest.

(** The tokens of the specification: the maximal runs of characters of
    [title] that are not white space (space, tab, line feed, vertical tab,
    form feed, carriage return). *)
Definition whitespace_tokens (title : string) : list string := String.words title.

(** The stations the specification's wording selects. *)
Definition search_by_whitespace (request : string) (w : Station.World) (items : list nat) : list nat :=
  List.filter
    (fun i =>
       match Station.objects w !! i with
       | Some s =>
           existsb (fun token =>
                      String.eqb (String_substr token 0 (String.length request)) request)
                   (whitespace_tokens (Station.title s))
       | None => false
       end)
    items.

(** The stations [search] keeps. *)
Definition search_found (request : string) (w : Station.World) (items : list nat) : list nat :=
  List.filter
    (fun i =>
       match Station.objects w !! i with
       | Some s => StationCollection.search_matches request s
       | None => false
       end)
    items.

Definition restyled (f : Style -> Style) (e : Element) : Element :=
  {| childNodes := childNodes e; style := f (style e); rect := rect e |}.

(** [getElementById('scheme-layer').style.opacity = value], the common
    shape of [fadeIn] and [fadeOut]. *)
Definition fade (value : string) : M SchemeView.t unit :=
  layer ← SchemeView.onSchemeNode (Dom.getElementById "scheme-layer");
  SchemeView.onSchemeNode (Dom.setStyle layer (Dom.set_opacity value)).

(** The element [c] is a child of the element [p] and of no other. *)
Definition placed (p c : string) (els : gmap string Element) : Prop :=
  (exists e, els !! p = Some e /\ In c (childNodes e)) /\
  forall q e, q <> p -> els !! q = Some e -> ~ In c (childNodes e).

(** The inline style of each element and of its rect. *)
Definition looks (els : gmap string Element) : gmap string (Style * option Style) :=
  (fun e => (style e, rect e)) <$> els.

Definition restyle_rect (f : Style -> Style) (look : Style * option Style)
    : Style * option Style :=
  (fst look, f <$> snd look).

(** The elements after [p.appendChild(c)]. *)
Definition appended (p c : string) (els : gmap string Element) : gmap string Element :=
  alter (Dom.attach c) p (Dom.detach c <$> els).

(** What the station methods never write: the scheme, the geometry and
    the root node of the view, and the attributes of the scheme node. *)
Definition view_frame (w : Station.World)
    : Scheme.t * (R * R) * R * (R * R) * gmap string CssValue * gmap string Attr :=
  (SchemeView._scheme (Station.view w),
   SchemeView._selfSize (Station.view w),
   SchemeView._zeroZoomScale (Station.view w),
   SchemeView._offset (Station.view w),
   SchemeView._node (Station.view w),
   attributes (SchemeView._schemeNode (Station.view w))).

Definition selection_event (type : string) (this : nat) : Event :=
  {| event_name := "selectionchange"; event_type := type; target := this |}.

(** When [m] throws, the [proj] part of the world is as it was. *)
Definition throws_keeping {A B} (proj : Station.World -> B) (m : M Station.World A) : Prop :=
  forall w e w', m w = Throw e w' -> proj w' = proj w.

(** The part of [select] that follows [this.selected = true]. *)
Definition highlight (this : nat) (rectNode : option Dom.RectRef) : M Station.World unit :=
  Station.onSchemeNode (Dom.setRectStyle rectNode (Dom.set_stroke "#bbb"));;
  Station.onSchemeNode (Dom.setRectStyle rectNode (Dom.set_opacity "1"));;
  stationNodes ← Station._getStationNodes this;
  Station._appendTo "highlight-layer-stations" stationNodes;;
  labelNode' ← Station.getLabelNode this;
  Station._appendTo "highlight-layer-labels" [labelNode'];;
  Station.fire "selectionchange" "select" this.

(** A call of one of the two batch methods of the collection. *)
Inductive Batch :=
| BatchSelect (codes : Codes)
| BatchDeselect (codes : Codes).

Definition batch (c : StationCollection.t) (call : Batch) : M Station.World unit :=
  match call with
  | BatchSelect codes => StationCollection.select c codes
  | BatchDeselect codes => StationCollection.deselect c codes
  end.

Definition batch_codes (call : Batch) : list Z :=
  match call with
  | BatchSelect codes | BatchDeselect codes => Array_concat codes
  end.

Definition batch_flag (call : Batch) : bool :=
  match call with
  | BatchSelect _ => true
  | BatchDeselect _ => false
  end.

(** Whether the last of the [calls] that lists the key [k] is a [select];
    [init] when none lists it. *)
Definition last_listed (init : bool) (calls : list Batch) (k : Z) : bool :=
  fold_left
    (fun selected call =>
       if existsb (Z.eqb k) (batch_codes call) then batch_flag call else selected)
    calls init.

(** [shade()] when [shaded], [unshade()] otherwise. *)
Definition shading (shaded : bool) : M TransportMap.Loaded unit :=
  if shaded then TransportMap.shade else TransportMap.unshade.

Definition shading_type (shaded : bool) : string :=
  if shaded then "shade" else "unshade".

Definition shading_opacity (shaded : bool) : string :=
  if shaded then "0.5" else "".

(** The style [updatePosition] writes, as one list of assignments. *)
Definition live_style (v : SchemeView.t) (clientCenter : R * R) (mapScale : R)
    : list (string * CssValue) :=
  let value := CssTranslate (fst (SchemeView._offset v) + fst clientCenter)
                            (snd (SchemeView._offset v) + snd clientCenter) in
  [("-webkit-transform-origin", CssText "0px 0px"); ("-webkit-transform", value);
   ("-moz-transform-origin", CssText "0px 0px"); ("-moz-transform", value);
   ("-ms-transform-origin", CssText "0px 0px"); ("-ms-transform", value);
   ("-o-transform-origin", CssText "0px 0px"); ("-o-transform", value);
   ("transform-origin", CssText "0px 0px"); ("transform", value);
   ("width", CssPx (fst (SchemeView._selfSize v) * (SchemeView._zeroZoomScale v * mapScale)));
   ("height", CssPx (snd (SchemeView._selfSize v) * (SchemeView._zeroZoomScale v * mapScale)))]%R.

(** The operations of the public surface that act on an existing
    collection, its stations and their view. *)
Inductive Operation :=
| StationSelect (this : nat)
| StationDeselect (this : nat)
| StationClick (this : nat)
| StationGetLabelNode (this : nat)
| StationGetNode (this : nat)
| StationGetStationNodes (this : nat)
| StationAppendTo (id : string) (nodes : list (option string))
| CollectionSelect (codes : Codes)
| CollectionDeselect (codes : Codes)
| CollectionGetSelection
| CollectionSearch (request : string)
| ViewFadeIn
| ViewFadeOut
| ViewUpdatePosition (clientCenter : R * R) (mapScale : R).

Definition ignore {S A} (m : M S A) : M S unit := m ;; mret tt.

Definition perform (c : StationCollection.t) (op : Operation) : M Station.World unit :=
  match op with
  | StationSelect this => Station.select this
  | StationDeselect this => Station.deselect this
  | StationClick this => Station.onClick this
  | StationGetLabelNode this => ignore (Station.getLabelNode this)
  | StationGetNode this => ignore (Station.getNode this)
  | StationGetStationNodes this => ignore (Station._getStationNodes this)
  | StationAppendTo id nodes => Station._appendTo id nodes
  | CollectionSelect codes => StationCollection.select c codes
  | CollectionDeselect codes => StationCollection.deselect c codes
  | CollectionGetSelection => ignore (StationCollection.getSelection c)
  | CollectionSearch request => ignore (StationCollection.search c request)
  | ViewFadeIn => within Station.view Station.set_view SchemeView.fadeIn
  | ViewFadeOut => within Station.view Station.set_view SchemeView.fadeOut
  | ViewUpdatePosition clientCenter mapScale =>
      modify (fun w =>
        Station.set_view
          (SchemeView.updatePosition (Station.view w) clientCenter mapScale) w)
  end.

(** The world after a series of operations; a caller may catch an
    exception and go on, so the state left by a throw is carried over. *)
Definition perform_all (c : StationCollection.t) (ops : list Operation) (w : Station.World) : Station.World :=
  fold_left (fun w op => state_of (perform c op w)) ops w.

(** The operations that reach [Station.select] or [Station.deselect]:
    the two methods, the click listener and the batch methods of the
    collection. *)
Definition calls_select_or_deselect (op : Operation) : bool :=
  match op with
  | StationSelect _ | StationDeselect _ | StationClick _
  | CollectionSelect _ | CollectionDeselect _ => true
  | _ => false
  end.

(** The stations behind a list of references. *)
Definition stations_at (w : Station.World) (refs : list nat) : list Station.t :=
  omap (fun ref => Station.objects w !! ref) refs.

(** Whether the station indexed under [key] is in the Selected state. *)
Definition selected_at (c : StationCollection.t) (w : Station.World) (key : Z) : bool :=
  match StationCollection.getByCode c key with
  | Some ref =>
      match Station.objects w !! ref with
      | Some s => Station.selected s
      | None => false
      end
  | None => false
  end.

Definition scheme_of (w : Station.World) : Scheme.t :=
  SchemeView.getScheme (Station.view w).

Definition document_of (w : Station.World) : gmap string Element :=
  elements (SchemeView.getSchemeNode (Station.view w)).

(** The glyphs [select] and [deselect] need for the label [code]: the
    label group with a [<rect>] in it, the label record of the metadata,
    and one station glyph for each of its station ids. *)
Definition glyphs_present (w : Station.World) (code : Z) : Prop :=
  (exists e st, document_of w !! ("label-" +:+ pretty code) = Some e /\ rect e = Some st) /\
  (exists labelMeta,
     Scheme.getLabel (scheme_of w) code = Some labelMeta /\
     forall id, In id (stationIds labelMeta) ->
                is_Some (document_of w !! ("station-" +:+ pretty id))).

(** The four layer groups glyphs are moved between. *)
Definition layers_present (w : Station.World) : Prop :=
  Forall (fun id => is_Some (document_of w !! id))
         ["highlight-layer-stations"; "highlight-layer-labels";
          "scheme-layer-stations"; "scheme-layer-labels"].

(** [m] leaves the [proj] part of the world alone, whether it returns or
    throws. *)
Definition keeps {A B} (proj : Station.World -> B) (m : M Station.World A) : Prop :=
  forall w, proj (state_of (m w)) = proj w.

(** Parts of the world that do not depend on the scheme node, on the
    selection flags, or on the event log. *)
Definition off_document {B} (proj : Station.World -> B) : Prop :=
  forall n w,
    proj (Station.set_view (SchemeView.set_schemeNode n (Station.view w)) w) = proj w.

Definition off_flags {B} (proj : Station.World -> B) : Prop :=
  forall this b w, proj (state_of (Station.set_selected this b w)) = proj w.

Definition off_events {B} (proj : Station.World -> B) : Prop :=
  forall name type this w, proj (state_of (Station.fire name type this w)) = proj w.

(** [m] run in [w] returns, with a value and in a state that satisfy [Q]. *)
Definition returns {S A} (m : M S A) (w : S) (Q : A -> S -> Prop) : Prop :=
  exists a w', m w = Ok a w' /\ Q a w'.

Definition has_rect (e : Element) : bool :=
  match rect e with Some _ => true | None => false end.

(** Which ids the scheme node has, and which of them hold a [<rect>]. *)
Definition shape (n : Svg) : gmap string bool := has_rect <$> elements n.

(** The two worlds have the same metadata and scheme nodes of the same
    shape. *)
Definition same_document (w w' : Station.World) : Prop :=
  scheme_of w' = scheme_of w /\
  shape (SchemeView.getSchemeNode (Station.view w'))
    = shape (SchemeView.getSchemeNode (Station.view w)).

(** What a change inside the scheme node leaves as it was. *)
Definition same_but_document (w w' : Station.World) : Prop :=
  Station.objects w' = Station.objects w /\
  Station.events w' = Station.events w /\
  same_document w w'.

(** The selection flags, in object order. *)
Definition flags (w : Station.World) : list bool :=
  Station.selected <$> Station.objects w.

(** The code and the title of each station, in object order. *)
Definition identities (w : Station.World) : list (Z * string) :=
  (fun s => (Station.code s, Station.title s)) <$> Station.objects w.

(** The glyphs of a label record. *)
Definition station_nodes (labelMeta : LabelMeta) : list string :=
  (fun id => "station-" +:+ pretty id) <$> stationIds labelMeta.

(** The codes a batch call may list: keys of the metadata whose glyphs
    are in the image of [w]. *)
Definition known_codes (w : Station.World) (metadata : list (Z * StationMeta))
    (codes : list Z) : Prop :=
  Forall (fun code => exists r, In (code, r) metadata /\ glyphs_present w (labelId r)) codes.

(** The stations of the metadata entries are the objects from [off] on,
    the station of the key [k] is selected when [sel k] says so, and the
    image has the shape it has in [w0]. *)
Definition selection_is (w0 : Station.World) (metadata : list (Z * StationMeta))
    (off : nat) (sel : Z -> bool) (w : Station.World) : Prop :=
  same_document w0 w /\
  forall i k r, metadata !! i = Some (k, r) ->
    exists s, Station.objects w !! (off + i) = Some s /\
              Station.code s = labelId r /\
              Station.selected s = sel k.

(** *** A small scheme used in the examples *)

Module Examples.

Definition plain : Style := {| stroke := ""; opacity := "" |}.

Definition group (kids : list string) : Element :=
  {| childNodes := kids; style := plain; rect := None |}.

Definition glyph : Element := group [].

Definition label : Element :=
  {| childNodes := []; style := plain; rect := Some plain |}.

Definition layers : list (string * Element) :=
  [("scheme-layer", group ["scheme-layer-stations"; "scheme-layer-labels"]);
   ("scheme-layer-stations", group ["station-2"; "station-5"; "station-7"]);
   ("scheme-layer-labels", group ["label-2"; "label-5"; "label-7"]);
   ("highlight-layer-stations", group []);
   ("highlight-layer-labels", group [])].

Definition glyphs : list (string * Element) :=
  [("station-2", glyph); ("station-5", glyph); ("station-7", glyph);
   ("label-2", label); ("label-5", label); ("label-7", label)].

Definition svg : Svg :=
  {| attributes := ∅; elements := list_to_map (layers ++ glyphs) |}.

(** Three stations, each with a label of its own, on a 512 by 256 image. *)
Definition metadata : MetaData :=
  {| width := 512;
     height := 256;
     stations :=
       [(2%Z, {| labelId := 2; name := "Central Park" |});
        (5%Z, {| labelId := 5; name := "Centennial" |});
        (7%Z, {| labelId := 7; name := "Park Row" |})];
     labels :=
       list_to_map
         [(2%Z, {| stationIds := [2%Z] |});
          (5%Z, {| stationIds := [5%Z] |});
          (7%Z, {| stationIds := [7%Z] |})] |}.

Definition scheme : Scheme.t :=
  {| Scheme._node := svg; Scheme._metaData := metadata |}.

(** The same image without its layer groups. *)
Definition unlayered : Scheme.t :=
  {| Scheme._node := {| attributes := ∅; elements := list_to_map glyphs |};
     Scheme._metaData := metadata |}.

Definition world : Station.World :=
  {| Station.view := SchemeView.constructor scheme;
     Station.objects := [];
     Station.events := [] |}.

Definition built : result Station.World StationCollection.t :=
  StationCollection.constructor world.

(** The collection of the three stations and the world it lives in. *)
Definition collection : StationCollection.t :=
  default {| StationCollection._stationsMap := ∅; StationCollection._items := [] |}
          (value_of built).

Definition built_world : Station.World := state_of built.

(** The world after [select(2)] on the new collection. *)
Definition selected_world : Station.World :=
  state_of (StationCollection.select collection (Code 2%Z) built_world).

(** Two stations that share the label 7: their keys are 1 and 2. *)
Definition shared : Scheme.t :=
  {| Scheme._node :=
       {| attributes := ∅;
          elements :=
            list_to_map
              (layers ++ [("station-1", glyph); ("station-2", glyph); ("label-7", label)]) |};
     Scheme._metaData :=
       {| width := 256;
          height := 256;
          stations :=
            [(1%Z, {| labelId := 7; name := "Kievskaya" |});
             (2%Z, {| labelId := 7; name := "Kievskaya" |})];
          labels := {[ 7%Z := {| stationIds := [1%Z; 2%Z] |} ]} |} |}.

Definition shared_world : Station.World :=
  {| Station.view := SchemeView.constructor shared;
     Station.objects := [];
     Station.events := [] |}.

(** The example image with a label group for the code 2 that holds no
    rect. *)
Definition rectless : Scheme.t :=
  {| Scheme._node :=
       {| attributes := ∅;
          elements := <["label-2" := glyph]> (list_to_map (layers ++ glyphs)) |};
     Scheme._metaData := metadata |}.

Definition rectless_world : Station.World :=
  state_of (StationCollection.constructor
              {| Station.view := SchemeView.constructor rectless;
                 Station.objects := [];
                 Station.events := [] |}).

Definition TAB : Ascii.ascii := Ascii.ascii_of_nat 9.

(** Two stations; the title of the second has a tab between its words. *)
Definition tabbed : Scheme.t :=
  {| Scheme._node := svg;
     Scheme._metaData :=
       {| width := 512;
          height := 256;
          stations :=
            [(2%Z, {| labelId := 2; name := "Central Park" |});
             (5%Z, {| labelId := 5; name := "North" +:+ String TAB "Central" |})];
          labels := labels metadata |} |}.

Definition tabbed_world : Station.World :=
  {| Station.view := SchemeView.constructor tabbed;
     Station.objects := [];
     Station.events := [] |}.

(** A pane whose pixel origin is at (-10, -20), at the given zoom. *)
Definition pane_at (zoom : R) : Pane :=
  {| pane_toClientPixels := fun p => (fst p - 10, snd p - 20)%R;
     pane_getZoom := zoom |}.

(** A host map at zoom 1 whose projection hands the global pixels back
    and in which every glyph has the box 10, 20, 4, 6. *)
Definition host : HostMap :=
  {| getBBox := fun _ => {| rect_x := 10; rect_y := 20; rect_width := 4; rect_height := 6 |};
     projection_fromGlobalPixels := fun p _ => p;
     map_getZoom := 1 |}.

(** The example scheme on a map, loaded and not shaded. *)
Definition loaded : TransportMap.Loaded :=
  {| TransportMap._schemeView := SchemeView.constructor scheme;
     TransportMap.events := [] |}.

Definition with_zoom (z : R) : State :=
  {| shaded := None; center := None; selection := None; zoom := Some z |}.

Definition wide : HtmlElement := {| clientWidth := 1024; clientHeight := 512 |}.

Definition square : HtmlElement := {| clientWidth := 256; clientHeight := 256 |}.

Definition no_state : State :=
  {| shaded := None; center := None; selection := None; zoom := None |}.

Definition no_options : Options :=
  {| path := None; minZoom := None; maxZoom := None; lang := None |}.

Definition ru : Options :=
  {| path := None; minZoom := None; maxZoom := None; lang := Some "ru" |}.

End Examples.

(** ** Part II. Properties *)

Section Geometry.

Local Open Scope R_scope.

Lemma Math_pow_2_pos (zoom : R) : 0 < Math_pow 2 zoom.
Proof. unfold Math_pow, Rpower. apply exp_pos. Qed.

Lemma zeroZoomScale_nonzero (scheme : Scheme.t) :
  width (Scheme._metaData scheme) <> 0 ->
  height (Scheme._metaData scheme) <> 0 ->
  SchemeView._zeroZoomScale (SchemeView.constructor scheme) <> 0.
Proof.
  intros Hw Hh. cbn. unfold Math_min.
  apply Rmin_case; unfold Rdiv; apply Rmult_integral_contrapositive_currified;
    try lra; now apply Rinv_neq_0_compat.
Qed.

Lemma fromClientPixels_toClientPixels (v : SchemeView.t) (p : R * R) (zoom : R) :
  SchemeView._zeroZoomScale v <> 0 ->
  SchemeView.fromClientPixels v (SchemeView.toClientPixels v p zoom) zoom = p.
Proof.
  intros Hs. destruct p as [x y].
  unfold SchemeView.fromClientPixels, SchemeView.toClientPixels. cbn [fst snd].
  pose proof (Math_pow_2_pos zoom) as Hm.
  f_equal; field; split; lra.
Qed.

Lemma toClientPixels_fromClientPixels (v : SchemeView.t) (c : R * R) (zoom : R) :
  SchemeView._zeroZoomScale v <> 0 ->
  SchemeView.toClientPixels v (SchemeView.fromClientPixels v c zoom) zoom = c.
Proof.
  intros Hs. destruct c as [x y].
  unfold SchemeView.fromClientPixels, SchemeView.toClientPixels. cbn [fst snd].
  pose proof (Math_pow_2_pos zoom) as Hm.
  f_equal; field; split; lra.
Qed.

(** C1: on a view built from a scheme whose width and height are not zero,
    [fromClientPixels] undoes [toClientPixels] and [toClientPixels] undoes
    [fromClientPixels], for every point and every (real) zoom, exactly. *)
Theorem client_pixels_round_trip (scheme : Scheme.t) (p c : R * R) (zoom : R) :
  width (Scheme._metaData scheme) <> 0 ->
  height (Scheme._metaData scheme) <> 0 ->
  let v := SchemeView.constructor scheme in
  SchemeView.fromClientPixels v (SchemeView.toClientPixels v p zoom) zoom = p /\
  SchemeView.toClientPixels v (SchemeView.fromClientPixels v c zoom) zoom = c.
Proof.
  intros Hw Hh v. pose proof (zeroZoomScale_nonzero scheme Hw Hh) as Hs.
  split.
  - now apply fromClientPixels_toClientPixels.
  - now apply toClientPixels_fromClientPixels.
Qed.

Lemma client_pixels_round_trip_witness :
  width (Scheme._metaData Examples.scheme) <> 0 /\
  height (Scheme._metaData Examples.scheme) <> 0 /\
  let v := SchemeView.constructor Examples.scheme in
  SchemeView.fromClientPixels v (SchemeView.toClientPixels v (10, 20) 1) 1 = (10, 20) /\
  SchemeView.toClientPixels v (SchemeView.fromClientPixels v (3, 4) 1) 1 = (3, 4).
Proof.
  assert (Hw : width (Scheme._metaData Examples.scheme) <> 0) by (cbn; lra).
  assert (Hh : height (Scheme._metaData Examples.scheme) <> 0) by (cbn; lra).
  split; [exact Hw|]. split; [exact Hh|].
  exact (client_pixels_round_trip Examples.scheme (10, 20) (3, 4) 1 Hw Hh).
Defined.


(** On the 512 by 256 example the base scale is 1/2 and the image is
    centred 64 units down. *)
Example constructor_512_by_256 :
  let v := SchemeView.constructor Examples.scheme in
  SchemeView._zeroZoomScale v = 1 / 2 /\ SchemeView._offset v = (0, 64).
Proof.
  assert (E : Math_min (256 / 512) (256 / 256) = 1 / 2).
  { unfold Math_min, Rmin. destruct (Rle_dec (256 / 512) (256 / 256)); lra. }
  cbn. rewrite E. split; [reflexivity|].
  unfold Math_floor. f_equal; f_equal; apply Zfloor_eq; cbn; lra.
Qed.

Lemma updatePosition_keeps_base (v : SchemeView.t) (clientCenter : R * R) (mapScale : R) :
  SchemeView._zeroZoomScale (SchemeView.updatePosition v clientCenter mapScale)
    = SchemeView._zeroZoomScale v /\
  SchemeView._offset (SchemeView.updatePosition v clientCenter mapScale)
    = SchemeView._offset v.
Proof. split; reflexivity. Qed.

Lemma updatePositions_keeps_base (calls : list ((R * R) * R)) (v : SchemeView.t) :
  SchemeView._zeroZoomScale (SchemeView.updatePositions v calls)
    = SchemeView._zeroZoomScale v /\
  SchemeView._offset (SchemeView.updatePositions v calls) = SchemeView._offset v.
Proof.
  revert v. induction calls as [|c calls IH]; intros v; [split; reflexivity|].
  unfold SchemeView.updatePositions in *. cbn [fold_left].
  destruct (IH (SchemeView.updatePosition v (fst c) (snd c))) as [IH1 IH2].
  rewrite IH1, IH2. apply updatePosition_keeps_base.
Qed.

(** C10: [updatePosition] writes the style of the root node only; after
    any series of calls the base scale and the base offset are those the
    constructor computed, and both pixel conversions give what they give
    on the freshly constructed view. *)
Theorem updatePosition_keeps_conversions
    (scheme : Scheme.t) (calls : list ((R * R) * R)) (p : R * R) (zoom : R) :
  let fresh := SchemeView.constructor scheme in
  let v := SchemeView.updatePositions fresh calls in
  SchemeView._zeroZoomScale v = SchemeView._zeroZoomScale fresh /\
  SchemeView._offset v = SchemeView._offset fresh /\
  SchemeView.toClientPixels v p zoom = SchemeView.toClientPixels fresh p zoom /\
  SchemeView.fromClientPixels v p zoom = SchemeView.fromClientPixels fresh p zoom.
Proof.
  intros fresh v.
  destruct (updatePositions_keeps_base calls fresh) as [Hs Ho].
  fold v in Hs, Ho.
  unfold SchemeView.toClientPixels, SchemeView.fromClientPixels.
  rewrite Hs, Ho. repeat split; reflexivity.
Qed.

(** At zoom 1 on the 512 by 256 example the global pixel (256, 128) is the
    local pixel (256, 64), and back. *)
Example toClientPixels_at_zoom_1 :
  let v := SchemeView.constructor Examples.scheme in
  SchemeView.toClientPixels v (256, 128) 1 = (256, 64) /\
  SchemeView.fromClientPixels v (256, 64) 1 = (256, 128).
Proof.
  destruct constructor_512_by_256 as [Hs Ho].
  assert (Hp : Math_pow 2 1 = 2) by (unfold Math_pow; apply Rpower_1; lra).
  unfold SchemeView.toClientPixels, SchemeView.fromClientPixels.
  cbv zeta. rewrite Hs, Ho, Hp. cbn [fst snd].
  split; f_equal; field.
Qed.

(** The live transform does change: the frame property above is not about
    a function that does nothing. *)
Example updatePosition_moves_node :
  let v := SchemeView.constructor Examples.scheme in
  SchemeView._node (SchemeView.updatePosition v (5, 7) 2) !! "transform"
    = Some (CssTranslate (fst (SchemeView._offset v) + 5) (snd (SchemeView._offset v) + 7)) /\
  SchemeView._node v !! "transform" = None.
Proof. split; reflexivity. Qed.

End Geometry.

(** *** The base scale, in exact arithmetic and in binary64 *)

Section BaseScale.

Import PrimFloat.

Lemma all_from_spec (p : Z -> bool) (n : nat) (z k : Z) :
  Binary64.all_from n z p = true -> (z <= k < z + Z.of_nat n)%Z -> p k = true.
Proof.
  revert z. induction n as [|n IH]; intros z Hall Hk; [lia|].
  cbn [Binary64.all_from] in Hall. apply andb_true_iff in Hall as [Hz Hrest].
  destruct (Z.eq_dec k z) as [->|Hne]; [exact Hz|].
  apply (IH (z + 1)%Z Hrest). lia.
Qed.

(** [Math.floor] and [Math.min] of binary64 on a few numbers. *)
Example Math_floor_values :
  Binary64.Math_floor 31.5 = 31%float /\
  Binary64.Math_floor 0.5 = 0%float /\
  Binary64.Math_floor (-0.5) = (-1)%float /\
  Binary64.Math_floor (-2) = (-2)%float /\
  Binary64.Math_floor (-2.25) = (-3)%float /\
  Binary64.Math_floor (-0) = (-0)%float /\
  Binary64.Math_floor 0x1.fffffffffffffp+51 = 0x1.ffffffffffffep+51%float /\
  Binary64.Math_floor infinity = infinity /\
  Binary64.Math_min 2 0.5 = 0.5%float /\
  Binary64.Math_min 0 (-0) = (-0)%float /\
  is_nan (Binary64.Math_min nan 1) = true.
Proof. vm_compute. repeat split; reflexivity. Qed.

(** Every whole size from 1 by 1 to 2048 by 2048, one after the other. *)
Lemma whole_sizes_fit :
  Binary64.all_from 2048 1
    (fun w => Binary64.all_from 2048 1
       (fun h => Binary64.fits_square (Binary64.of_Z w) (Binary64.of_Z h))) = true.
Proof. vm_compute. reflexivity. Qed.

(** C2, as the code has it. In exact arithmetic the constructor sets the
    base scale to [min (256 / width) (256 / height)] and the base offset
    to [floor ((256 - size * baseScale) / 2)] on each axis, and for a
    positive width and height the scaled image fits the 256 square and
    fills it on one axis. The code computes the same expressions in
    binary64: there, for the whole sizes up to 2048 by 2048, both scaled
    sides are still at most 256, but the one that fills the square is
    256 or the number just below it, 256 - 2^-45. *)
Theorem base_scale_fits_square :
  (forall scheme : Scheme.t,
     let w := width (Scheme._metaData scheme) in
     let h := height (Scheme._metaData scheme) in
     let v := SchemeView.constructor scheme in
     let baseScale := SchemeView._zeroZoomScale v in
     (0 < w)%R -> (0 < h)%R ->
     baseScale = Math_min (256 / w) (256 / h) /\
     SchemeView._offset v =
       (Math_floor ((256 - w * baseScale) / 2), Math_floor ((256 - h * baseScale) / 2)) /\
     (w * baseScale <= 256)%R /\
     (h * baseScale <= 256)%R /\
     (w * baseScale = 256 \/ h * baseScale = 256)%R) /\
  (forall width height : Z,
     let w := Binary64.of_Z width in
     let h := Binary64.of_Z height in
     let v := Binary64.SchemeView.constructor (w, h) in
     let baseScale := Binary64.SchemeView._zeroZoomScale v in
     (1 <= width <= 2048)%Z -> (1 <= height <= 2048)%Z ->
     baseScale = Binary64.Math_min (256 / w) (256 / h) /\
     Binary64.SchemeView._offset v =
       (Binary64.Math_floor ((256 - w * baseScale) / 2),
        Binary64.Math_floor ((256 - h * baseScale) / 2))%float /\
     (w * baseScale <=? 256)%float = true /\
     (h * baseScale <=? 256)%float = true /\
     ((w * baseScale =? 256)%float || (w * baseScale =? Binary64.below_256)%float ||
      (h * baseScale =? 256)%float || (h * baseScale =? Binary64.below_256)%float) = true).
Proof.
  split.
  - intros scheme w h v baseScale Hw Hh.
    split; [reflexivity|]. split; [reflexivity|].
    assert (Hl : (baseScale <= 256 / w)%R) by apply Rmin_l.
    assert (Hr : (baseScale <= 256 / h)%R) by apply Rmin_r.
    assert (Ew : (w * (256 / w) = 256)%R) by (field; lra).
    assert (Eh : (h * (256 / h) = 256)%R) by (field; lra).
    split; [|split].
    + rewrite <- Ew. apply Rmult_le_compat_l; lra.
    + rewrite <- Eh. apply Rmult_le_compat_l; lra.
    + subst baseScale. cbn. unfold Math_min. fold w h.
      apply Rmin_case; [left | right]; assumption.
  - intros width height w h v baseScale Hw Hh.
    split; [reflexivity|]. split; [reflexivity|].
    pose proof (all_from_spec _ 2048 1 width whole_sizes_fit) as Hrow.
    cbv beta in Hrow.
    pose proof (all_from_spec _ 2048 1 height (Hrow ltac:(lia))) as Hfit.
    cbv beta in Hfit. specialize (Hfit ltac:(lia)).
    unfold Binary64.fits_square in Hfit. fold w h v baseScale in Hfit.
    apply andb_true_iff in Hfit as [Hfit Hone].
    apply andb_true_iff in Hfit as [Hfw Hfh].
    split; [exact Hfw|]. split; [exact Hfh | exact Hone].
Qed.

Lemma base_scale_fits_square_witness :
  (0 < 512)%R /\ (0 < 256)%R /\
  (1 <= 273 <= 2048)%Z /\ (1 <= 364 <= 2048)%Z /\
  (let v := SchemeView.constructor Examples.scheme in
   let baseScale := SchemeView._zeroZoomScale v in
   (512 * baseScale <= 256)%R /\
   (256 * baseScale <= 256)%R /\
   (512 * baseScale = 256 \/ 256 * baseScale = 256)%R) /\
  (let v := Binary64.SchemeView.constructor (Binary64.of_Z 273, Binary64.of_Z 364) in
   let baseScale := Binary64.SchemeView._zeroZoomScale v in
   (Binary64.of_Z 273 * baseScale <=? 256)%float = true /\
   (Binary64.of_Z 364 * baseScale <=? 256)%float = true).
Proof.
  assert (Hw : (0 < 512)%R) by lra.
  assert (Hh : (0 < 256)%R) by lra.
  assert (Hw' : (1 <= 273 <= 2048)%Z) by lia.
  assert (Hh' : (1 <= 364 <= 2048)%Z) by lia.
  split; [exact Hw|]. split; [exact Hh|]. split; [exact Hw'|]. split; [exact Hh'|].
  split.
  - exact (proj2 (proj2 (proj1 base_scale_fits_square Examples.scheme Hw Hh))).
  - destruct (proj2 base_scale_fits_square 273%Z 364%Z Hw' Hh') as (_ & _ & H1 & H2 & _).
    split; [exact H1 | exact H2].
Defined.

(** C2 as stated fails in the arithmetic of the code: for an image of 49
    by 49 the scaled side is 255.99999999999997 on both axes, so that
    neither equals 256; and for 273 by 364 the scaled width is
    192.00000000000003 and the offset 31, where exact arithmetic gives 192
    and 32. *)
Lemma base_scale_misses_256 :
  (let v := Binary64.SchemeView.constructor (49, 49)%float in
   let baseScale := Binary64.SchemeView._zeroZoomScale v in
   (49 * baseScale)%float = Binary64.below_256 /\
   (49 * baseScale =? 256)%float = false /\
   Binary64.SchemeView._offset v = (0, 0)%float) /\
  (let v := Binary64.SchemeView.constructor (273, 364)%float in
   let baseScale := Binary64.SchemeView._zeroZoomScale v in
   (273 * baseScale)%float = 0x1.8000000000001p+7%float /\
   Binary64.SchemeView._offset v = (31, 0)%float) /\
  (let v := SchemeView.constructor
              {| Scheme._node := Examples.svg;
                 Scheme._metaData :=
                   {| width := 273; height := 364; stations := []; labels := ∅ |} |} in
   (273 * SchemeView._zeroZoomScale v = 192)%R /\
   SchemeView._offset v = (32, 0)%R).
Proof.
  split; [vm_compute; repeat split; reflexivity|].
  split; [vm_compute; repeat split; reflexivity|].
  cbn.
  assert (Hs : Math_min (256 / 273) (256 / 364) = (256 / 364)%R).
  { unfold Math_min. apply Rmin_right. apply Rlt_le.
    apply Rmult_lt_compat_l; [lra|]. apply Rinv_lt_contravar; lra. }
  rewrite Hs. split; [lra|].
  unfold Math_floor. f_equal; f_equal.
  - apply Zfloor_eq. cbn. lra.
  - apply Zfloor_eq. cbn. lra.
Qed.

End BaseScale.

(** *** Shading the scheme layer *)

Section Fade.

Lemma set_schemeNode_same (v : SchemeView.t) :
  SchemeView.set_schemeNode (SchemeView._schemeNode v) v = v.
Proof. now destruct v. Qed.

Lemma fade_present (value : string) (v : SchemeView.t) (layer : Element) :
  elements (SchemeView._schemeNode v) !! "scheme-layer" = Some layer ->
  fade value v =
    Ok tt (SchemeView.set_schemeNode
             {| attributes := attributes (SchemeView._schemeNode v);
                elements := <["scheme-layer" := restyled (Dom.set_opacity value) layer]>
                              (elements (SchemeView._schemeNode v)) |} v).
Proof.
  intros Hl. unfold fade, mbind, M_bind, SchemeView.onSchemeNode, within.
  unfold Dom.getElementById, gets. rewrite Hl. cbn.
  unfold modify, Dom.with_elements. cbn.
  rewrite (alter_alt_Some _ _ _ _ Hl). reflexivity.
Qed.

Lemma fade_absent (value : string) (v : SchemeView.t) :
  elements (SchemeView._schemeNode v) !! "scheme-layer" = None ->
  fade value v = Throw (TypeError "style") v.
Proof.
  intros Hl. unfold fade, mbind, M_bind, SchemeView.onSchemeNode, within.
  unfold Dom.getElementById, gets. rewrite Hl. cbn.
  now destruct v.
Qed.

(** C8, as the code has it: [fadeIn] sets the opacity of the
    ["scheme-layer"] element to 0.5 and [fadeOut] resets it to the empty
    value, touching nothing else; when the element is absent both throw a
    [TypeError] (reading [style] of [null]) and leave the view as it was. *)
Theorem fade_sets_opacity_or_throws (v : SchemeView.t) :
  let n := SchemeView._schemeNode v in
  let faded value layer :=
    SchemeView.set_schemeNode
      {| attributes := attributes n;
         elements := <["scheme-layer" := restyled (Dom.set_opacity value) layer]> (elements n) |}
      v in
  match elements n !! "scheme-layer" with
  | Some layer =>
      SchemeView.fadeIn v = Ok tt (faded "0.5" layer) /\
      SchemeView.fadeOut v = Ok tt (faded "" layer)
  | None =>
      SchemeView.fadeIn v = Throw (TypeError "style") v /\
      SchemeView.fadeOut v = Throw (TypeError "style") v
  end.
Proof.
  intros n faded.
  destruct (elements n !! "scheme-layer") as [layer|] eqn:Hl.
  - split; [apply (fade_present "0.5") | apply (fade_present "")]; exact Hl.
  - split; [apply (fade_absent "0.5") | apply (fade_absent "")]; exact Hl.
Qed.

(** C8 as stated fails: on a scheme image without a ["scheme-layer"]
    element [fadeIn] and [fadeOut] raise. *)
Lemma fade_without_layer_raises :
  let v := SchemeView.constructor Examples.unlayered in
  elements (SchemeView._schemeNode v) !! "scheme-layer" = None /\
  SchemeView.fadeIn v = Throw (TypeError "style") v /\
  SchemeView.fadeOut v = Throw (TypeError "style") v.
Proof. repeat split; reflexivity. Qed.

(** With the layer in place the two calls do shade and unshade it. *)
Example fadeIn_then_fadeOut :
  let v := SchemeView.constructor Examples.scheme in
  let opacity_of r :=
    (fun e => opacity (style e)) <$>
      (elements (SchemeView._schemeNode (state_of r)) !! "scheme-layer") in
  opacity_of (SchemeView.fadeIn v) = Some "0.5" /\
  opacity_of (SchemeView.fadeOut (state_of (SchemeView.fadeIn v))) = Some "".
Proof. split; vm_compute; reflexivity. Qed.

End Fade.

(** *** The city table of TransportMap *)

Section City.

Lemma listed_find (city : string) :
  TransportMap.listed city = false ->
  find (fun kv : string * Z => String.eqb (fst kv) city) TransportMap._schemeIdByCity_own = None.
Proof.
  unfold TransportMap.listed. generalize TransportMap._schemeIdByCity_own.
  induction l as [|kv l IH]; cbn; [reflexivity|].
  destruct (String.eqb (fst kv) city); cbn; [discriminate | exact IH].
Qed.

(** The five listed cities get their scheme id. *)
Example schemeId_of_listed_cities :
  TransportMap._schemeIdByCity "moscow" = JsNumber 1 /\
  TransportMap._schemeIdByCity "spb" = JsNumber 2 /\
  TransportMap._schemeIdByCity "kiev" = JsNumber 8 /\
  TransportMap._schemeIdByCity "kharkov" = JsNumber 9 /\
  TransportMap._schemeIdByCity "minsk" = JsNumber 13.
Proof. repeat split; reflexivity. Qed.

(** C6, as the code has it: a city outside the table is not rejected. Its
    scheme id is never a number; it is [undefined] unless the city names a
    member of [Object.prototype]. The constructor throws only the
    [TypeError] of a missing container with no zoom given, which does not
    depend on the city, and otherwise goes on to load the scheme: for an
    [undefined] id and a given language from the URL
    [path + "." + lang + ".svg"], which carries no scheme id. *)
Theorem unlisted_city_is_loaded
    (document : gmap string HtmlElement) (city : string)
    (container : Container) (state : State) (options : Options) :
  TransportMap.listed city = false ->
  (forall id, TransportMap._schemeIdByCity city <> JsNumber id) /\
  match TransportMap.constructor document city container state options with
  | TransportMap.Thrown e =>
      e = TypeError "clientWidth" /\
      zoom state = None /\
      forall city', exists e',
        TransportMap.constructor document city' container state options
          = TransportMap.Thrown e'
  | TransportMap.Loading this url =>
      TransportMap.getSchemeId this = TransportMap._schemeIdByCity city /\
      (existsb (String.eqb city) Object_prototype = false ->
       TransportMap.getSchemeId this = JsUndefined /\
       forall language, lang options = Some language ->
         url = default "node_modules/metro-data/" (path options)
                 +:+ "." +:+ language +:+ ".svg")
  end.
Proof.
  intros Hcity. pose proof (listed_find city Hcity) as Hfind.
  assert (Hid : TransportMap._schemeIdByCity city =
                if existsb (String.eqb city) Object_prototype
                then JsInherited city else JsUndefined).
  { unfold TransportMap._schemeIdByCity. now rewrite Hfind. }
  set (inherited := existsb (String.eqb city) Object_prototype) in *. clearbody inherited.
  split; [intros id; rewrite Hid; destruct inherited; discriminate|].
  unfold TransportMap.constructor. rewrite Hid.
  destruct (zoom state) as [z|] eqn:Hz;
    [|destruct (match container with
                | ContainerId id => document !! id
                | ContainerNode node => node
                end) as [node|] eqn:Hc];
    cbn -[String.append];
    try (split; [reflexivity|]; split; [reflexivity|]; intros city'; eexists; reflexivity);
    (split; [reflexivity|]; intros Hproto; rewrite Hproto;
     split; [reflexivity|]; intros language Hlang; now rewrite Hlang).
Qed.

Lemma unlisted_city_is_loaded_witness :
  TransportMap.listed "paris" = false /\
  (forall id, TransportMap._schemeIdByCity "paris" <> JsNumber id) /\
  exists this,
    TransportMap.constructor ∅ "paris" (ContainerNode (Some Examples.square))
      Examples.no_state Examples.ru
    = TransportMap.Loading this "node_modules/metro-data/.ru.svg".
Proof.
  split; [reflexivity|].
  pose proof (unlisted_city_is_loaded ∅ "paris" (ContainerNode (Some Examples.square))
                Examples.no_state Examples.ru eq_refl) as [Hid _].
  split; [exact Hid|]. eexists. reflexivity.
Defined.

(** C6 as stated fails: for the unlisted city "paris" the constructor
    raises nothing and requests the scheme "node_modules/metro-data/..svg". *)
Lemma unlisted_city_not_rejected :
  TransportMap.listed "paris" = false /\
  exists this,
    TransportMap.constructor ∅ "paris" (ContainerNode (Some Examples.square))
      Examples.no_state Examples.no_options
    = TransportMap.Loading this "node_modules/metro-data/..svg".
Proof. split; [reflexivity|]. eexists. reflexivity. Qed.

(** A listed city is loaded from the URL that carries its scheme id. *)
Example moscow_is_loaded :
  exists this,
    TransportMap.constructor ∅ "moscow" (ContainerNode (Some Examples.square))
      Examples.no_state Examples.ru
    = TransportMap.Loading this "node_modules/metro-data/1.ru.svg".
Proof. eexists. reflexivity. Qed.

End City.

(** *** Searching stations by title *)

Section Search.

Lemma append_String (c : Ascii.ascii) (t x : string) :
  String c t +:+ x = String c (t +:+ x).
Proof. reflexivity. Qed.

Lemma String_split_nonempty (sep : Ascii.ascii) (s : string) : String_split sep s <> [].
Proof.
  destruct s as [|c s]; cbn; [discriminate|].
  destruct (Ascii.eqb c sep); [discriminate|].
  destruct (String_split sep s); discriminate.
Qed.

Lemma String_split_tokens (s : string) : space_tokens s (String_split Ascii.Space s).
Proof.
  unfold space_tokens. split; [apply String_split_nonempty|].
  induction s as [|c s [IH1 IH2]]; cbn.
  - split; [repeat constructor | reflexivity].
  - pose proof (String_split_nonempty Ascii.Space s) as Hne.
    destruct (Ascii.eqb c Ascii.Space) eqn:Hc.
    + apply Ascii.eqb_eq in Hc. subst c. split.
      * constructor; [reflexivity | assumption].
      * destruct (String_split Ascii.Space s) as [|t ts] eqn:E; [congruence|].
        change (String Ascii.Space (Array_join " " (t :: ts)) = String Ascii.Space s).
        f_equal. exact IH2.
    + destruct (String_split Ascii.Space s) as [|t ts] eqn:E; [congruence|].
      split.
      * inversion IH1; subst. constructor; [|assumption]. cbn. rewrite Hc. assumption.
      * rewrite <- IH2. destruct ts; reflexivity.
Qed.

Lemma String_split_token_rest (t rest : string) :
  String_contains Ascii.Space t = false ->
  String_split Ascii.Space (t +:+ String Ascii.Space rest)
    = t :: String_split Ascii.Space rest.
Proof.
  induction t as [|c t IH]; intros H; [reflexivity|].
  cbn in H. apply orb_false_iff in H as [Hc Ht].
  rewrite append_String. cbn. rewrite Hc, (IH Ht). reflexivity.
Qed.

Lemma String_split_token (t : string) :
  String_contains Ascii.Space t = false -> String_split Ascii.Space t = [t].
Proof.
  induction t as [|c t IH]; cbn; intros H; [reflexivity|].
  apply orb_false_iff in H as [Hc Ht]. rewrite Hc, (IH Ht). reflexivity.
Qed.

(** [split(' ')] is the only way to cut a title at its spaces. *)
Lemma space_tokens_unique (s : string) (ts : list string) :
  space_tokens s ts -> ts = String_split Ascii.Space s.
Proof.
  intros (Hne & Hall & Hjoin). subst s.
  induction ts as [|t ts IH]; [congruence|].
  inversion Hall as [|? ? Ht Hts]; subst.
  destruct ts as [|t' ts'].
  - cbn. symmetry. now apply String_split_token.
  - change (Array_join " " (t :: t' :: ts'))
      with (t +:+ String Ascii.Space (Array_join " " (t' :: ts'))).
    rewrite String_split_token_rest by assumption.
    f_equal. apply IH; [discriminate | assumption].
Qed.

(** [token.substr(0, request.length) === request] says that [token]
    starts with [request]. *)
Lemma substr_starts_with (request token : string) :
  String.eqb (String_substr token 0 (String.length request)) request = true <->
  exists rest, token = request +:+ rest.
Proof.
  unfold String_substr. revert token.
  induction request as [|c r IH]; intros token.
  - split; [intros _; exists token; reflexivity | intros _].
    destruct token; reflexivity.
  - destruct token as [|c' t].
    + split; [discriminate | intros [rest H]; discriminate].
    + cbn. destruct (Ascii.eqb c' c) eqn:Hc.
      * apply Ascii.eqb_eq in Hc. subst c'. rewrite IH. split.
        -- intros [rest ->]. exists rest. reflexivity.
        -- intros [rest H]. rewrite append_String in H. injection H as H.
           exists rest. exact H.
      * split; [discriminate|]. intros [rest H].
        rewrite append_String in H. injection H as H1 H2.
        subst. rewrite Ascii.eqb_refl in Hc. discriminate.
Qed.

Lemma search_matches_spec (request : string) (s : Station.t) :
  StationCollection.search_matches request s = true <->
  space_token_starts request (Station.title s).
Proof.
  unfold StationCollection.search_matches, space_token_starts.
  rewrite existsb_exists. split.
  - intros (token & Hin & Hm). apply substr_starts_with in Hm as [rest Hrest].
    exists (String_split Ascii.Space (Station.title s)), token, rest.
    split; [apply String_split_tokens|]. split; assumption.
  - intros (tokens & token & rest & Ht & Hin & Hrest).
    apply space_tokens_unique in Ht. subst tokens.
    exists token. split; [assumption|]. apply substr_starts_with. now exists rest.
Qed.

Lemma search_filter_found (request : string) (w : Station.World) (items : list nat) :
  Forall (fun i => is_Some (Station.objects w !! i)) items ->
  StationCollection.search_filter request items w = Ok (search_found request w items) w.
Proof.
  induction items as [|i items IH]; intros Hv; [reflexivity|].
  inversion Hv as [|? ? [s Hs] Hv']; subst.
  cbn. unfold mbind, M_bind, Station.deref. rewrite Hs.
  fold (@mbind (M Station.World) _).
  rewrite (IH Hv'). reflexivity.
Qed.

(** C7, as the code has it: [search] resolves, at once and without
    touching anything, with the stations of the collection, in collection
    order, whose title cut at its space characters has a token starting
    with the request; on "Central Park", "Centennial", "Park Row" the
    request "Cen" gives the first two. *)
Theorem search_by_space_token
    (this : StationCollection.t) (request : string) (w : Station.World) :
  Forall (fun i => is_Some (Station.objects w !! i)) (StationCollection._items this) ->
  StationCollection.search this request w
    = Ok (Fulfilled (search_found request w (StationCollection._items this))) w /\
  (forall i, In i (search_found request w (StationCollection._items this)) <->
     In i (StationCollection._items this) /\
     exists s, Station.objects w !! i = Some s /\
               space_token_starts request (Station.title s)) /\
  value_of ((c ← StationCollection.constructor; StationCollection.search c "Cen")
              Examples.world)
    = Some (Fulfilled [0; 1]).
Proof.
  intros Hv. split; [|split].
  - unfold StationCollection.search, mbind, M_bind.
    rewrite (search_filter_found request w _ Hv). reflexivity.
  - intros i. unfold search_found. rewrite filter_In.
    split; intros [Hin H]; (split; [exact Hin|]).
    + destruct (Station.objects w !! i) as [s|]; [|discriminate].
      exists s. split; [reflexivity|]. now apply search_matches_spec.
    + destruct H as (s & -> & H). now apply search_matches_spec.
  - vm_compute. reflexivity.
Qed.

Lemma search_by_space_token_witness :
  Forall (fun i => is_Some (Station.objects Examples.built_world !! i))
         (StationCollection._items Examples.collection) /\
  StationCollection.search Examples.collection "Park" Examples.built_world
    = Ok (Fulfilled [0; 2]) Examples.built_world.
Proof.
  assert (Hv : Forall (fun i => is_Some (Station.objects Examples.built_world !! i))
                      (StationCollection._items Examples.collection)).
  { repeat constructor; eexists; reflexivity. }
  split; [exact Hv|].
  exact (proj1 (search_by_space_token Examples.collection "Park" Examples.built_world Hv)).
Defined.

(** C7 as stated fails: "Central" is a whitespace-delimited token of the
    title "North<TAB>Central" and starts with "Cen", yet [search] leaves
    that station out. *)
Lemma search_misses_tab_delimited_token :
  whitespace_tokens ("North" +:+ String Examples.TAB "Central") = ["North"; "Central"] /\
  match StationCollection.constructor Examples.tabbed_world with
  | Ok c w =>
      value_of (StationCollection.search c "Cen" w) = Some (Fulfilled [0]) /\
      search_by_whitespace "Cen" w (StationCollection._items c) = [0; 1]
  | Throw _ _ => False
  end.
Proof. split; [|split]; vm_compute; reflexivity. Qed.

End Search.

(** *** What the operations leave alone *)

Section Frames.

Context {B : Type} (proj : Station.World -> B).

Lemma keeps_ret {A} (a : A) : keeps proj (mret a).
Proof. intros w. reflexivity. Qed.

Lemma keeps_throw {A} (e : Error) : keeps proj (@throw _ A e).
Proof. intros w. reflexivity. Qed.

Lemma keeps_gets {A} (f : Station.World -> A) : keeps proj (gets f).
Proof. intros w. reflexivity. Qed.

Lemma keeps_bind {A C} (m : M Station.World A) (f : A -> M Station.World C) :
  keeps proj m -> (forall a, keeps proj (f a)) -> keeps proj (m ≫= f).
Proof.
  intros Hm Hf w. unfold mbind, M_bind. specialize (Hm w).
  destruct (m w) as [a w'|e w']; cbn in *; [|exact Hm].
  rewrite (Hf a w'). exact Hm.
Qed.

Lemma keeps_forEach {A} (l : list A) (f : A -> M Station.World unit) :
  (forall a, keeps proj (f a)) -> keeps proj (forEach l f).
Proof.
  intros Hf. induction l as [|a l IH]; [apply keeps_ret|].
  cbn. apply keeps_bind; [apply Hf | intros _; exact IH].
Qed.

Lemma keeps_map_array {A C} (l : list A) (f : A -> M Station.World C) :
  (forall a, keeps proj (f a)) -> keeps proj (map_array l f).
Proof.
  intros Hf. induction l as [|a l IH]; [apply keeps_ret|].
  cbn. apply keeps_bind; [apply Hf | intros y].
  apply keeps_bind; [exact IH | intros ys; apply keeps_ret].
Qed.

Lemma keeps_deref (this : nat) : keeps proj (Station.deref this).
Proof. intros w. unfold Station.deref. destruct (Station.objects w !! this); reflexivity. Qed.

Lemma keeps_ignore {A} (m : M Station.World A) : keeps proj m -> keeps proj (ignore m).
Proof. intros H. apply keeps_bind; [exact H | intros _; apply keeps_ret]. Qed.

Lemma keeps_onSchemeNode {A} (m : M Svg A) :
  off_document proj -> keeps proj (Station.onSchemeNode m).
Proof.
  intros Hd w. unfold Station.onSchemeNode, SchemeView.onSchemeNode, within.
  destruct (m _) as [a n|e n]; cbn; apply Hd.
Qed.

Lemma keeps_getLabelNode (this : nat) : off_document proj -> keeps proj (Station.getLabelNode this).
Proof.
  intros Hd. apply keeps_bind; [apply keeps_deref | intros s].
  now apply keeps_onSchemeNode.
Qed.

Lemma keeps_getNode (this : nat) : off_document proj -> keeps proj (Station.getNode this).
Proof.
  intros Hd. apply keeps_bind; [apply keeps_deref | intros s].
  now apply keeps_onSchemeNode.
Qed.

Lemma keeps_getStationNodes (this : nat) :
  off_document proj -> keeps proj (Station._getStationNodes this).
Proof.
  intros Hd. apply keeps_bind; [apply keeps_deref | intros s].
  apply keeps_bind; [apply keeps_gets | intros v].
  destruct (Scheme.getLabel _ _); [|apply keeps_throw].
  apply keeps_map_array. intros id. now apply keeps_onSchemeNode.
Qed.

Lemma keeps_appendTo (id : string) (nodes : list (option string)) :
  off_document proj -> keeps proj (Station._appendTo id nodes).
Proof.
  intros Hd. apply keeps_bind; [now apply keeps_onSchemeNode | intros p].
  apply keeps_forEach. intros el. now apply keeps_onSchemeNode.
Qed.

Lemma keeps_select (this : nat) :
  off_document proj ->
  (forall b w, proj (state_of (Station.set_selected this b w)) = proj w) ->
  off_events proj ->
  keeps proj (Station.select this).
Proof.
  intros Hd Hf He. apply keeps_bind; [apply keeps_deref | intros s].
  destruct (negb (Station.selected s)); [|apply keeps_ret].
  apply keeps_bind; [now apply keeps_getLabelNode | intros labelNode].
  apply keeps_bind; [now apply keeps_onSchemeNode | intros rectNode].
  apply keeps_bind; [intros w; apply Hf | intros _].
  apply keeps_bind; [now apply keeps_onSchemeNode | intros _].
  apply keeps_bind; [now apply keeps_onSchemeNode | intros _].
  apply keeps_bind; [now apply keeps_getStationNodes | intros nodes].
  apply keeps_bind; [now apply keeps_appendTo | intros _].
  apply keeps_bind; [now apply keeps_getLabelNode | intros labelNode'].
  apply keeps_bind; [now apply keeps_appendTo | intros _].
  intros w; apply He.
Qed.

Lemma keeps_deselect (this : nat) :
  off_document proj ->
  (forall b w, proj (state_of (Station.set_selected this b w)) = proj w) ->
  off_events proj ->
  keeps proj (Station.deselect this).
Proof.
  intros Hd Hf He. apply keeps_bind; [apply keeps_deref | intros s].
  destruct (Station.selected s); [|apply keeps_ret].
  apply keeps_bind; [now apply keeps_getLabelNode | intros labelNode].
  apply keeps_bind; [now apply keeps_onSchemeNode | intros rectNode].
  apply keeps_bind; [intros w; apply Hf | intros _].
  apply keeps_bind; [now apply keeps_onSchemeNode | intros _].
  apply keeps_bind; [now apply keeps_onSchemeNode | intros _].
  apply keeps_bind; [now apply keeps_getStationNodes | intros nodes].
  apply keeps_bind; [now apply keeps_appendTo | intros _].
  apply keeps_bind; [now apply keeps_getLabelNode | intros labelNode'].
  apply keeps_bind; [now apply keeps_appendTo | intros _].
  intros w; apply He.
Qed.

Lemma keeps_getSelection_each (items : list nat) (codes : list Z) :
  keeps proj (StationCollection.getSelection_each items codes).
Proof.
  revert codes. induction items as [|i items IH]; intros codes; [apply keeps_ret|].
  cbn. apply keeps_bind; [apply keeps_deref | intros s].
  destruct (Station.selected s); apply IH.
Qed.

Lemma keeps_search (c : StationCollection.t) (request : string) :
  keeps proj (StationCollection.search c request).
Proof.
  apply keeps_bind; [|intros found; apply keeps_ret].
  induction (StationCollection._items c) as [|i items IH]; [apply keeps_ret|].
  cbn. apply keeps_bind; [apply keeps_deref | intros s].
  apply keeps_bind; [exact IH | intros found; apply keeps_ret].
Qed.

(** Every operation other than the selecting ones. *)
Lemma keeps_other_operation (c : StationCollection.t) (op : Operation) :
  off_document proj ->
  (forall v w, SchemeView._schemeNode v = SchemeView._schemeNode (Station.view w) ->
     proj (Station.set_view v w) = proj w) ->
  calls_select_or_deselect op = false -> keeps proj (perform c op).
Proof.
  intros Hd Hv Hop. destruct op; try discriminate Hop; cbn [perform].
  - apply keeps_ignore. now apply keeps_getLabelNode.
  - apply keeps_ignore. now apply keeps_getNode.
  - apply keeps_ignore. now apply keeps_getStationNodes.
  - now apply keeps_appendTo.
  - apply keeps_ignore. apply keeps_getSelection_each.
  - apply keeps_ignore. apply keeps_search.
  - apply (keeps_onSchemeNode
             (layer ← Dom.getElementById "scheme-layer";
              Dom.setStyle layer (Dom.set_opacity "0.5"))) in Hd as H.
    intros w. rewrite <- (H w).
    unfold Station.onSchemeNode, SchemeView.onSchemeNode, SchemeView.fadeIn, within, mbind, M_bind.
    unfold Dom.getElementById, gets. cbn.
    destruct (elements (SchemeView._schemeNode (Station.view w)) !! "scheme-layer"); reflexivity.
  - apply (keeps_onSchemeNode
             (layer ← Dom.getElementById "scheme-layer";
              Dom.setStyle layer (Dom.set_opacity ""))) in Hd as H.
    intros w. rewrite <- (H w).
    unfold Station.onSchemeNode, SchemeView.onSchemeNode, SchemeView.fadeOut, within, mbind, M_bind.
    unfold Dom.getElementById, gets. cbn.
    destruct (elements (SchemeView._schemeNode (Station.view w)) !! "scheme-layer"); reflexivity.
  - intros w. cbn. apply Hv. reflexivity.
Qed.

End Frames.

(** *** Selecting and deselecting a station *)

Section Selection.

Lemma select_when_selected (this : nat) (w : Station.World) (s : Station.t) :
  Station.objects w !! this = Some s -> Station.selected s = true ->
  Station.select this w = Ok tt w.
Proof.
  intros Hs Hsel. unfold Station.select, mbind, M_bind, Station.deref.
  rewrite Hs, Hsel. reflexivity.
Qed.

Lemma deselect_when_unselected (this : nat) (w : Station.World) (s : Station.t) :
  Station.objects w !! this = Some s -> Station.selected s = false ->
  Station.deselect this w = Ok tt w.
Proof.
  intros Hs Hsel. unfold Station.deselect, mbind, M_bind, Station.deref.
  rewrite Hs, Hsel. reflexivity.
Qed.

Lemma other_flags_kept (this j : nat) :
  j <> this ->
  keeps (fun w => flags w !! j) (Station.select this) /\
  keeps (fun w => flags w !! j) (Station.deselect this).
Proof.
  intros Hne.
  assert (Hf : forall b w,
            flags (state_of (Station.set_selected this b w)) !! j = flags w !! j).
  { intros b w. unfold flags. cbn.
    now rewrite !list_lookup_fmap, list_lookup_alter_ne by congruence. }
  split; [apply keeps_select | apply keeps_deselect]; try exact Hf;
    intros ? ?; reflexivity.
Qed.

(** C3: [select] on a selected station and [deselect] on an unselected one
    return at once and leave the whole world as it was: the flag, the
    styles and the placement of the glyphs in the scheme node, and the
    event log. The click listener is one of the two; the two methods leave
    the flags of the other stations alone, and every operation that does
    not go through them leaves the flag of every station alone. *)
Theorem select_deselect_idempotent
    (c : StationCollection.t) (w : Station.World) (this : nat) (s : Station.t) :
  Station.objects w !! this = Some s ->
  (Station.selected s = true -> Station.select this w = Ok tt w) /\
  (Station.selected s = false -> Station.deselect this w = Ok tt w) /\
  Station.onClick this w
    = (if Station.selected s then Station.deselect this w else Station.select this w) /\
  (forall j w', j <> this ->
     flags (state_of (Station.select this w')) !! j = flags w' !! j /\
     flags (state_of (Station.deselect this w')) !! j = flags w' !! j) /\
  (forall op w', calls_select_or_deselect op = false ->
     flags (state_of (perform c op w')) = flags w').
Proof.
  intros Hs. split; [|split; [|split; [|split]]].
  - now apply select_when_selected.
  - now apply deselect_when_unselected.
  - unfold Station.onClick, mbind, M_bind, Station.deref. rewrite Hs.
    destruct (Station.selected s); reflexivity.
  - intros j w' Hne. destruct (other_flags_kept this j Hne) as [H1 H2].
    split; [apply H1 | apply H2].
  - intros op w' Hop. apply (keeps_other_operation flags c op); try assumption.
    + intros n w0. reflexivity.
    + intros v w0 _. reflexivity.
Qed.

End Selection.


(** *** Computations that return *)

Section Returns.

Context {S : Type}.

Lemma returns_ret {A} (a : A) (w : S) (Q : A -> S -> Prop) :
  Q a w -> returns (mret a) w Q.
Proof. intros H. exists a, w. split; [reflexivity | exact H]. Qed.

Lemma returns_gets {A} (f : S -> A) (w : S) (Q : A -> S -> Prop) :
  Q (f w) w -> returns (gets f) w Q.
Proof. intros H. exists (f w), w. split; [reflexivity | exact H]. Qed.

Lemma returns_modify (f : S -> S) (w : S) (Q : unit -> S -> Prop) :
  Q tt (f w) -> returns (modify f) w Q.
Proof. intros H. exists tt, (f w). split; [reflexivity | exact H]. Qed.

Lemma returns_bind {A C} (m : M S A) (f : A -> M S C) (w : S) (Q : C -> S -> Prop) :
  returns m w (fun a w' => returns (f a) w' Q) -> returns (m ≫= f) w Q.
Proof.
  intros (a & w' & Hm & c & w'' & Hf & HQ). exists c, w''.
  split; [|exact HQ]. unfold mbind, M_bind. rewrite Hm. exact Hf.
Qed.

Lemma returns_mono {A} (m : M S A) (w : S) (Q Q' : A -> S -> Prop) :
  returns m w Q -> (forall a w', Q a w' -> Q' a w') -> returns m w Q'.
Proof. intros (a & w' & Hm & HQ) H. exists a, w'. auto. Qed.

End Returns.

Section Document.

Lemma shape_alter (f : Element -> Element) (id : string) (els : gmap string Element) :
  (forall e, has_rect (f e) = has_rect e) ->
  has_rect <$> alter f id els = has_rect <$> els.
Proof.
  intros Hf. apply map_eq. intros k. rewrite !lookup_fmap.
  destruct (decide (id = k)) as [->|Hne].
  - rewrite lookup_alter_eq. destruct (els !! k); cbn; [|reflexivity]. now rewrite Hf.
  - now rewrite lookup_alter_ne.
Qed.

Lemma shape_setRectStyle (r : Dom.RectRef) (f : Style -> Style) (n : Svg) :
  shape (state_of (Dom.setRectStyle (Some r) f n)) = shape n.
Proof.
  unfold shape. cbn. apply shape_alter. intros e. unfold has_rect. cbn.
  destruct (rect e); reflexivity.
Qed.

Lemma shape_appendChild (p c : string) (n : Svg) :
  shape (state_of (Dom.appendChild (Some p) (Some c) n)) = shape n.
Proof.
  unfold shape. cbn. rewrite shape_alter by reflexivity.
  rewrite <- map_fmap_compose. apply map_fmap_ext. reflexivity.
Qed.

Lemma shape_lookup (n n' : Svg) (id : string) :
  shape n' = shape n ->
  has_rect <$> (elements n' !! id) = has_rect <$> (elements n !! id).
Proof. intros H. unfold shape in H. now rewrite <- !lookup_fmap, H. Qed.

Lemma same_document_refl (w : Station.World) : same_document w w.
Proof. split; reflexivity. Qed.

Lemma same_document_trans (w1 w2 w3 : Station.World) :
  same_document w1 w2 -> same_document w2 w3 -> same_document w1 w3.
Proof. intros [H1 H2] [G1 G2]. split; congruence. Qed.

Lemma same_but_document_refl (w : Station.World) : same_but_document w w.
Proof. repeat split. Qed.

Lemma same_but_document_trans (w1 w2 w3 : Station.World) :
  same_but_document w1 w2 -> same_but_document w2 w3 -> same_but_document w1 w3.
Proof.
  intros (H1 & H2 & H3) (G1 & G2 & G3).
  split; [congruence|]. split; [congruence|]. now apply (same_document_trans w1 w2 w3).
Qed.

(** The world with another scheme node. *)
Lemma put_same (w : Station.World) :
  Station.set_view
    (SchemeView.set_schemeNode (SchemeView._schemeNode (Station.view w)) (Station.view w)) w = w.
Proof. destruct w as [[] ? ?]. reflexivity. Qed.

Lemma returns_read {A} (f : Svg -> A) (w : Station.World) (Q : A -> Station.World -> Prop) :
  Q (f (SchemeView._schemeNode (Station.view w))) w ->
  returns (Station.onSchemeNode (gets f)) w Q.
Proof.
  intros H. eexists _, w. split; [|exact H].
  unfold Station.onSchemeNode, SchemeView.onSchemeNode, within, gets.
  now rewrite put_same.
Qed.

Lemma returns_write (g : Svg -> Svg) (w : Station.World) (Q : unit -> Station.World -> Prop) :
  (forall n, shape (g n) = shape n) ->
  (forall w', same_but_document w w' -> Q tt w') ->
  returns (Station.onSchemeNode (modify g)) w Q.
Proof.
  intros Hg H. eexists tt, _. split; [reflexivity|].
  apply H. repeat split. cbn. apply Hg.
Qed.

Lemma present_same (w w' : Station.World) (id : string) :
  same_document w w' ->
  is_Some (document_of w !! id) -> is_Some (document_of w' !! id).
Proof.
  intros [_ Hsh] [e He]. pose proof (shape_lookup _ _ id Hsh) as H.
  unfold document_of, SchemeView.getSchemeNode in *. rewrite He in H.
  destruct (elements (SchemeView._schemeNode (Station.view w')) !! id) as [e'|];
    [now exists e' | discriminate].
Qed.

Lemma rect_present_same (w w' : Station.World) (id : string) :
  same_document w w' ->
  (exists e st, document_of w !! id = Some e /\ rect e = Some st) ->
  (exists e st, document_of w' !! id = Some e /\ rect e = Some st).
Proof.
  intros [_ Hsh] (e & st & He & Hr).
  pose proof (shape_lookup _ _ id Hsh) as H.
  unfold document_of, SchemeView.getSchemeNode in *. rewrite He in H.
  destruct (elements (SchemeView._schemeNode (Station.view w')) !! id) as [e'|];
    [|discriminate].
  cbn in H. injection H as H. unfold has_rect in H. rewrite Hr in H.
  destruct (rect e') as [st'|] eqn:Hr'; [|discriminate]. eauto.
Qed.

Lemma glyphs_present_same (w w' : Station.World) (code : Z) :
  same_document w w' -> glyphs_present w code -> glyphs_present w' code.
Proof.
  intros Hs [Hl (lm & Hlm & Hids)]. split.
  - now apply (rect_present_same w w').
  - exists lm. split; [destruct Hs as [H _]; now rewrite H|].
    intros id Hid. apply (present_same w w'); auto.
Qed.

Lemma layers_present_same (w w' : Station.World) :
  same_document w w' -> layers_present w -> layers_present w'.
Proof.
  intros Hs H. unfold layers_present in *.
  eapply Forall_impl; [exact H|]. intros id. now apply present_same.
Qed.

End Document.


Section StationSteps.

Lemma returns_deref (this : nat) (w : Station.World) (s : Station.t)
    (Q : Station.t -> Station.World -> Prop) :
  Station.objects w !! this = Some s -> Q s w -> returns (Station.deref this) w Q.
Proof.
  intros Hs H. exists s, w. split; [|exact H].
  unfold Station.deref. now rewrite Hs.
Qed.

Lemma returns_getElementById (id : string) (w : Station.World)
    (Q : option string -> Station.World -> Prop) :
  is_Some (document_of w !! id) -> Q (Some id) w ->
  returns (Station.onSchemeNode (Dom.getElementById id)) w Q.
Proof.
  intros [e He] H. apply returns_read.
  unfold document_of, SchemeView.getSchemeNode in He. now rewrite He.
Qed.

Lemma returns_getLabelNode (this : nat) (w : Station.World) (s : Station.t)
    (Q : option string -> Station.World -> Prop) :
  Station.objects w !! this = Some s ->
  is_Some (document_of w !! ("label-" +:+ pretty (Station.code s))) ->
  Q (Some ("label-" +:+ pretty (Station.code s))) w ->
  returns (Station.getLabelNode this) w Q.
Proof.
  intros Hs Hl H. apply returns_bind. apply (returns_deref this w s _ Hs).
  now apply returns_getElementById.
Qed.

Lemma returns_rect (id : string) (w : Station.World)
    (Q : option Dom.RectRef -> Station.World -> Prop) :
  (exists e st, document_of w !! id = Some e /\ rect e = Some st) ->
  Q (Some {| Dom.owner := id |}) w ->
  returns (Station.onSchemeNode (Dom.getElementsByTagName_rect_0 (Some id))) w Q.
Proof.
  intros (e & st & He & Hr) H. apply returns_read.
  unfold document_of, SchemeView.getSchemeNode in He. now rewrite He, Hr.
Qed.

Lemma returns_setRectStyle (r : Dom.RectRef) (f : Style -> Style) (w : Station.World)
    (Q : unit -> Station.World -> Prop) :
  (forall w', same_but_document w w' -> Q tt w') ->
  returns (Station.onSchemeNode (Dom.setRectStyle (Some r) f)) w Q.
Proof.
  intros H. apply returns_write; [|exact H].
  intros n. apply (shape_setRectStyle r f n).
Qed.

Lemma returns_appendChild (p c : string) (w : Station.World)
    (Q : unit -> Station.World -> Prop) :
  (forall w', same_but_document w w' -> Q tt w') ->
  returns (Station.onSchemeNode (Dom.appendChild (Some p) (Some c))) w Q.
Proof.
  intros H. apply returns_write; [|exact H].
  intros n. apply (shape_appendChild p c n).
Qed.

Lemma returns_appendAll (p : string) (nodes : list string) (w : Station.World)
    (Q : unit -> Station.World -> Prop) :
  (forall w', same_but_document w w' -> Q tt w') ->
  returns (forEach (Some <$> nodes) (fun element =>
             Station.onSchemeNode (Dom.appendChild (Some p) element))) w Q.
Proof.
  revert w. induction nodes as [|c nodes IH]; intros w H.
  - apply returns_ret. apply H, same_but_document_refl.
  - cbn. apply returns_bind. apply returns_appendChild. intros w1 H1.
    apply IH. intros w2 H2. apply H.
    now apply (same_but_document_trans w w1 w2).
Qed.

Lemma returns_appendTo (id : string) (nodes : list string) (w : Station.World)
    (Q : unit -> Station.World -> Prop) :
  is_Some (document_of w !! id) ->
  (forall w', same_but_document w w' -> Q tt w') ->
  returns (Station._appendTo id (Some <$> nodes)) w Q.
Proof.
  intros Hid H. apply returns_bind. apply returns_getElementById; [exact Hid|].
  now apply returns_appendAll.
Qed.

Lemma returns_stationNodes (ids : list Z) (w : Station.World)
    (Q : list (option string) -> Station.World -> Prop) :
  (forall id, In id ids -> is_Some (document_of w !! ("station-" +:+ pretty id))) ->
  Q (Some <$> ((fun id => "station-" +:+ pretty id) <$> ids)) w ->
  returns (map_array ids (fun id =>
             Station.onSchemeNode (Dom.getElementById ("station-" +:+ pretty id)))) w Q.
Proof.
  revert Q. induction ids as [|id ids IH]; intros Q Hids H.
  - now apply returns_ret.
  - cbn. apply returns_bind. apply returns_getElementById; [apply Hids; now left|].
    apply returns_bind. apply IH; [intros id' Hin; apply Hids; now right|].
    now apply returns_ret.
Qed.

Lemma returns_getStationNodes (this : nat) (w : Station.World) (s : Station.t)
    (labelMeta : LabelMeta) (Q : list (option string) -> Station.World -> Prop) :
  Station.objects w !! this = Some s ->
  Scheme.getLabel (scheme_of w) (Station.code s) = Some labelMeta ->
  (forall id, In id (stationIds labelMeta) ->
     is_Some (document_of w !! ("station-" +:+ pretty id))) ->
  Q (Some <$> station_nodes labelMeta) w ->
  returns (Station._getStationNodes this) w Q.
Proof.
  intros Hs Hl Hids H. apply returns_bind. apply (returns_deref this w s _ Hs).
  apply returns_bind. apply returns_gets.
  unfold scheme_of in Hl. rewrite Hl.
  now apply returns_stationNodes.
Qed.

End StationSteps.


Section Transitions.

Lemma objects_set_selected (this : nat) (b : bool) (w : Station.World) (s : Station.t) :
  Station.objects w !! this = Some s ->
  Station.objects (state_of (Station.set_selected this b w)) !! this
    = Some (Station.with_selected b s).
Proof.
  intros Hs. cbn. rewrite list_lookup_alter_eq, Hs. reflexivity.
Qed.

(** A transition that the guard lets through: where the glyphs and the
    layers are in place it returns, flips the flag of this station only,
    fires one event and leaves the shape of the document as it was. *)
Lemma transition_returns (this : nat) (w : Station.World) (s : Station.t)
    (b : bool) (stroke_value opacity_value stations_layer labels_layer type : string) :
  Station.objects w !! this = Some s ->
  glyphs_present w (Station.code s) ->
  is_Some (document_of w !! stations_layer) ->
  is_Some (document_of w !! labels_layer) ->
  returns
    (labelNode ← Station.getLabelNode this;
     rectNode ← Station.onSchemeNode (Dom.getElementsByTagName_rect_0 labelNode);
     Station.set_selected this b;;
     Station.onSchemeNode (Dom.setRectStyle rectNode (Dom.set_stroke stroke_value));;
     Station.onSchemeNode (Dom.setRectStyle rectNode (Dom.set_opacity opacity_value));;
     stationNodes ← Station._getStationNodes this;
     Station._appendTo stations_layer stationNodes;;
     labelNode' ← Station.getLabelNode this;
     Station._appendTo labels_layer [labelNode'];;
     Station.fire "selectionchange" type this)
    w
    (fun _ w' =>
       Station.objects w' = alter (Station.with_selected b) this (Station.objects w) /\
       Station.events w' = Station.events w ++
         [{| event_name := "selectionchange"; event_type := type; target := this |}] /\
       same_document w w').
Proof.
  intros Hs Hg Hsl Hll.
  pose proof Hg as [Hlabel (labelMeta & Hmeta & Hids)].
  assert (Hl : is_Some (document_of w !! ("label-" +:+ pretty (Station.code s)))).
  { destruct Hlabel as (e & _ & He & _). now exists e. }
  apply returns_bind. apply (returns_getLabelNode this w s _ Hs Hl).
  apply returns_bind. apply returns_rect; [exact Hlabel|].
  apply returns_bind. apply returns_modify.
  set (w1 := {| Station.view := Station.view w;
                Station.objects := alter (Station.with_selected b) this (Station.objects w);
                Station.events := Station.events w |}).
  assert (H01 : same_document w w1) by (split; reflexivity).
  assert (Hs1 : Station.objects w1 !! this = Some (Station.with_selected b s)).
  { apply (objects_set_selected this b w s Hs). }
  apply returns_bind. apply returns_setRectStyle. intros w2 H12.
  apply returns_bind. apply returns_setRectStyle. intros w3 H23.
  pose proof (same_but_document_trans w1 w2 w3 H12 H23) as H13.
  assert (H03 : same_document w w3).
  { apply (same_document_trans w w1 w3); [exact H01 | apply H13]. }
  assert (Hs3 : Station.objects w3 !! this = Some (Station.with_selected b s)).
  { destruct H13 as [-> _]. exact Hs1. }
  pose proof (glyphs_present_same w w3 _ H03 Hg) as [_ (labelMeta3 & Hmeta3 & Hids3)].
  apply returns_bind.
  apply (returns_getStationNodes this w3 _ labelMeta3 _ Hs3 Hmeta3 Hids3).
  apply returns_bind. apply returns_appendTo; [now apply (present_same w w3)|].
  intros w4 H34.
  pose proof (same_but_document_trans w1 w3 w4 H13 H34) as H14.
  assert (H04 : same_document w w4).
  { apply (same_document_trans w w1 w4); [exact H01 | apply H14]. }
  assert (Hs4 : Station.objects w4 !! this = Some (Station.with_selected b s)).
  { destruct H14 as [-> _]. exact Hs1. }
  apply returns_bind.
  apply (returns_getLabelNode this w4 _ _ Hs4); [now apply (present_same w w4)|].
  apply returns_bind.
  apply (returns_appendTo labels_layer [_]); [now apply (present_same w w4)|].
  intros w5 H45.
  pose proof (same_but_document_trans w1 w4 w5 H14 H45) as (Ho & He & Hd).
  apply returns_modify. cbn. rewrite Ho, He. repeat split; try apply Hd.
Qed.

Lemma select_returns (this : nat) (w : Station.World) (s : Station.t) :
  Station.objects w !! this = Some s ->
  Station.selected s = false ->
  glyphs_present w (Station.code s) ->
  layers_present w ->
  returns (Station.select this) w
    (fun _ w' =>
       Station.objects w' = alter (Station.with_selected true) this (Station.objects w) /\
       Station.events w' = Station.events w ++
         [{| event_name := "selectionchange"; event_type := "select"; target := this |}] /\
       same_document w w').
Proof.
  intros Hs Hsel Hg Hlayers.
  unfold Station.select. apply returns_bind. apply (returns_deref this w s _ Hs).
  rewrite Hsel. cbn [negb].
  unfold layers_present in Hlayers. rewrite !Forall_cons in Hlayers.
  destruct Hlayers as (H1 & H2 & _).
  exact (transition_returns this w s true _ _ _ _ _ Hs Hg H1 H2).
Qed.

Lemma deselect_returns (this : nat) (w : Station.World) (s : Station.t) :
  Station.objects w !! this = Some s ->
  Station.selected s = true ->
  glyphs_present w (Station.code s) ->
  layers_present w ->
  returns (Station.deselect this) w
    (fun _ w' =>
       Station.objects w' = alter (Station.with_selected false) this (Station.objects w) /\
       Station.events w' = Station.events w ++
         [{| event_name := "selectionchange"; event_type := "deselect"; target := this |}] /\
       same_document w w').
Proof.
  intros Hs Hsel Hg Hlayers.
  unfold Station.deselect. apply returns_bind. apply (returns_deref this w s _ Hs).
  rewrite Hsel.
  unfold layers_present in Hlayers. rewrite !Forall_cons in Hlayers.
  destruct Hlayers as (_ & _ & H3 & H4 & _).
  exact (transition_returns this w s false _ _ _ _ _ Hs Hg H3 H4).
Qed.

End Transitions.


(** *** Building the collection *)

Section Construction.

Lemma constructor_loop_returns (metadata : list (Z * StationMeta))
    (this : StationCollection.t) (w : Station.World) :
  exists c w',
    StationCollection.constructor_loop metadata this w = Ok c w' /\
    Station.view w' = Station.view w /\
    Station.events w' = Station.events w /\
    Station.objects w' = Station.objects w ++ ((fun kr => Station.fields (snd kr)) <$> metadata) /\
    StationCollection._items c
      = StationCollection._items this ++ seq (length (Station.objects w)) (length metadata) /\
    (forall k, ~ In k (fst <$> metadata) ->
       StationCollection._stationsMap c !! k = StationCollection._stationsMap this !! k) /\
    (NoDup (fst <$> metadata) ->
     forall i k r, metadata !! i = Some (k, r) ->
       StationCollection._stationsMap c !! k = Some (length (Station.objects w) + i)).
Proof.
  revert this w. induction metadata as [|[k0 r0] metadata IH]; intros this w.
  - exists this, w. cbn. rewrite !app_nil_r. repeat split; try reflexivity.
    intros _ i k r H. discriminate.
  - cbn [StationCollection.constructor_loop]. unfold mbind, M_bind, Station.constructor.
    fold (@mbind (M Station.World) _).
    set (this1 := {| StationCollection._stationsMap := _; StationCollection._items := _ |}).
    set (w1 := {| Station.view := _; Station.objects := _; Station.events := _ |}).
    destruct (IH this1 w1) as (c & w' & Hrun & Hv & He & Ho & Hi & Hout & Hin).
    exists c, w'. split; [exact Hrun|].
    split; [exact Hv|]. split; [exact He|].
    assert (Hlen : length (Station.objects w1) = S (length (Station.objects w))).
    { subst w1. cbn. rewrite length_app. cbn. lia. }
    split; [|split; [|split]].
    + rewrite Ho. subst w1. cbn. now rewrite <- app_assoc.
    + rewrite Hi, Hlen. subst this1. cbn. now rewrite <- app_assoc.
    + intros k Hk. cbn in Hk. rewrite Hout by tauto.
      subst this1. cbn. apply lookup_insert_ne. tauto.
    + intros Hnd i k r Hl. cbn in Hnd. apply NoDup_cons in Hnd as [Hk0 Hnd].
      destruct i as [|i]; cbn in Hl.
      * injection Hl as -> ->. rewrite Hout.
        -- subst this1. cbn. rewrite lookup_insert_eq. f_equal. lia.
        -- intros Hin'. apply Hk0. now apply list_elem_of_In.
      * rewrite (Hin Hnd i k r Hl), Hlen. f_equal. lia.
Qed.

(** [new StationCollection(schemeView)] always returns; it allocates one
    station per metadata entry, in enumeration order, and indexes each
    under the key of its entry. *)
Lemma constructor_returns (w : Station.World) :
  let metadata := Scheme.getStations (scheme_of w) in
  exists c w',
    StationCollection.constructor w = Ok c w' /\
    Station.view w' = Station.view w /\
    Station.events w' = Station.events w /\
    Station.objects w' = Station.objects w ++ ((fun kr => Station.fields (snd kr)) <$> metadata) /\
    StationCollection._items c = seq (length (Station.objects w)) (length metadata) /\
    (forall k, ~ In k (fst <$> metadata) -> StationCollection.getByCode c k = None) /\
    (NoDup (fst <$> metadata) ->
     forall i k r, metadata !! i = Some (k, r) ->
       StationCollection.getByCode c k = Some (length (Station.objects w) + i)).
Proof.
  intros metadata.
  destruct (constructor_loop_returns metadata
              {| StationCollection._stationsMap := ∅; StationCollection._items := [] |} w)
    as (c & w' & Hrun & Hv & He & Ho & Hi & Hout & Hin).
  exists c, w'. repeat split; assumption.
Qed.

End Construction.


(** *** Batch selection by code *)

Section Batch.

Context (c : StationCollection.t).






End Batch.

(** *** The current selection *)

Section CurrentSelection.

Lemma stations_at_cons (w : Station.World) (i : nat) (items : list nat) (s : Station.t) :
  Station.objects w !! i = Some s ->
  stations_at w (i :: items) = s :: stations_at w items.
Proof. intros Hs. unfold stations_at. cbn. now rewrite Hs. Qed.

Lemma getSelection_each_returns (items : list nat) (codes : list Z) (w : Station.World) :
  Forall (fun i => is_Some (Station.objects w !! i)) items ->
  StationCollection.getSelection_each items codes w
    = Ok (codes ++ (Station.code <$> List.filter Station.selected (stations_at w items))) w.
Proof.
  revert codes. induction items as [|i items IH]; intros codes Hv.
  - cbn. now rewrite app_nil_r.
  - inversion Hv as [|? ? [s Hs] Hv']; subst.
    rewrite (stations_at_cons w i items s Hs).
    cbn. unfold mbind, M_bind, Station.deref. rewrite Hs.
    destruct (Station.selected s); rewrite (IH _ Hv'); [|reflexivity].
    cbn. now rewrite <- app_assoc.
Qed.

Lemma getSelection_returns (c : StationCollection.t) (w : Station.World) :
  Forall (fun i => is_Some (Station.objects w !! i)) (StationCollection._items c) ->
  StationCollection.getSelection c w
    = Ok (Station.code <$>
            List.filter Station.selected (stations_at w (StationCollection._items c))) w.
Proof. intros Hv. apply (getSelection_each_returns _ [] w Hv). Qed.

(** Stations allocated in metadata order from reference [off] on. *)
Lemma selected_codes_are_labelIds (c : StationCollection.t) (w : Station.World)
    (metadata : list (Z * StationMeta)) (off : nat) :
  (forall i k r, metadata !! i = Some (k, r) ->
     exists s, Station.objects w !! (off + i) = Some s /\
               Station.code s = labelId r /\
               selected_at c w k = Station.selected s) ->
  Forall (fun i => is_Some (Station.objects w !! i)) (seq off (length metadata)) /\
  Station.code <$> List.filter Station.selected (stations_at w (seq off (length metadata)))
    = (fun kr => labelId (snd kr)) <$>
        List.filter (fun kr => selected_at c w (fst kr)) metadata.
Proof.
  revert off. induction metadata as [|[k r] metadata IH]; intros off H.
  - split; [constructor | reflexivity].
  - destruct (H 0 k r eq_refl) as (s & Hs & Hc & Hsel).
    rewrite Nat.add_0_r in Hs.
    destruct (IH (S off)) as [IHv IHeq].
    { intros i k' r' Hi. destruct (H (S i) k' r' Hi) as (s' & Hs' & H').
      exists s'. split; [|exact H']. now replace (S off + i) with (off + S i) by lia. }
    split; [constructor; [now exists s | exact IHv]|].
    cbn [length seq]. rewrite (stations_at_cons w off _ s Hs). cbn.
    rewrite Hsel. destruct (Station.selected s); cbn; rewrite IHeq; [|reflexivity].
    now rewrite Hc.
Qed.

Lemma getSelection_labelIds (c : StationCollection.t) (w : Station.World)
    (metadata : list (Z * StationMeta)) (off : nat) :
  StationCollection._items c = seq off (length metadata) ->
  (forall i k r, metadata !! i = Some (k, r) ->
     StationCollection.getByCode c k = Some (off + i)) ->
  (forall i k r, metadata !! i = Some (k, r) ->
     exists s, Station.objects w !! (off + i) = Some s /\ Station.code s = labelId r) ->
  StationCollection.getSelection c w
    = Ok ((fun kr => labelId (snd kr)) <$>
            List.filter (fun kr => selected_at c w (fst kr)) metadata) w.
Proof.
  intros Hitems Hkeys Hobjs.
  destruct (selected_codes_are_labelIds c w metadata off) as [Hv Heq].
  { intros i k r Hi. destruct (Hobjs i k r Hi) as (s & Hs & Hc).
    exists s. split; [exact Hs|]. split; [exact Hc|].
    unfold selected_at. now rewrite (Hkeys i k r Hi), Hs. }
  rewrite getSelection_returns; rewrite Hitems; [|exact Hv].
  now rewrite Heq.
Qed.

Lemma identities_lookup (w w' : Station.World) (i : nat) (s : Station.t) :
  identities w' = identities w ->
  Station.objects w !! i = Some s ->
  exists s', Station.objects w' !! i = Some s' /\
             Station.code s' = Station.code s /\ Station.title s' = Station.title s.
Proof.
  intros Hid Hs. unfold identities in Hid.
  assert (H : (fun s => (Station.code s, Station.title s)) <$> (Station.objects w' !! i)
              = Some (Station.code s, Station.title s)).
  { rewrite <- list_lookup_fmap, Hid, list_lookup_fmap, Hs. reflexivity. }
  destruct (Station.objects w' !! i) as [s'|]; [|discriminate].
  cbn in H. injection H as H1 H2. now exists s'.
Qed.

Lemma identities_off_flags : off_flags identities.
Proof.
  intros this b w. unfold identities. cbn.
  rewrite (list_fmap_alter _ _ (fun x => x)).
  - now apply list_alter_id.
  - apply Forall_forall. intros s _. reflexivity.
Qed.

Lemma identities_off_document : off_document identities.
Proof. intros n w. reflexivity. Qed.

Lemma identities_off_events : off_events identities.
Proof. intros name type this w. reflexivity. Qed.

End CurrentSelection.

Section AllOperations.

Context {B : Type} (proj : Station.World -> B).
Context (Hd : off_document proj) (Hf : off_flags proj) (He : off_events proj).
Context (Hv : forall v w,
           SchemeView._schemeNode v = SchemeView._schemeNode (Station.view w) ->
           proj (Station.set_view v w) = proj w).

Lemma keeps_onClick (this : nat) : keeps proj (Station.onClick this).
Proof.
  apply keeps_bind; [apply keeps_deref | intros s].
  destruct (Station.selected s); [apply keeps_deselect | apply keeps_select];
    try assumption; intros b w; apply Hf.
Qed.

Lemma keeps_operation (c : StationCollection.t) (op : Operation) :
  keeps proj (perform c op).
Proof.
  destruct (calls_select_or_deselect op) eqn:Hop;
    [|now apply keeps_other_operation].
  destruct op; try discriminate Hop; cbn [perform].
  - apply keeps_select; try assumption; intros b w; apply Hf.
  - apply keeps_deselect; try assumption; intros b w; apply Hf.
  - apply keeps_onClick.
  - apply keeps_forEach. intros code.
    destruct (StationCollection.getByCode c code); [|apply keeps_throw].
    apply keeps_select; try assumption; intros b w; apply Hf.
  - apply keeps_forEach. intros code.
    destruct (StationCollection.getByCode c code); [|apply keeps_throw].
    apply keeps_deselect; try assumption; intros b w; apply Hf.
Qed.

Lemma keeps_perform_all (c : StationCollection.t) (ops : list Operation) (w : Station.World) :
  proj (perform_all c ops w) = proj w.
Proof.
  revert w. induction ops as [|op ops IH]; intros w; [reflexivity|].
  unfold perform_all in *. cbn [fold_left]. rewrite IH. apply keeps_operation.
Qed.

End AllOperations.


Section Codes.

Lemma built_station (w0 w1 : Station.World) (metadata : list (Z * StationMeta))
    (i : nat) (k : Z) (r : StationMeta) :
  Station.objects w1
    = Station.objects w0 ++ ((fun kr => Station.fields (snd kr)) <$> metadata) ->
  metadata !! i = Some (k, r) ->
  Station.objects w1 !! (length (Station.objects w0) + i) = Some (Station.fields r).
Proof.
  intros Ho Hi. rewrite Ho, lookup_app_r by lia.
  replace (length (Station.objects w0) + i - length (Station.objects w0)) with i by lia.
  now rewrite list_lookup_fmap, Hi.
Qed.

(** C9: the station built for the metadata entry [k -> {labelId, name}]
    and indexed under [k] has [labelId] for code and [name] for title,
    whatever is done to the collection afterwards; [getSelection] lists
    the label ids of the entries whose station is selected, in metadata
    order, not their keys. *)
Theorem station_code_is_labelId (w0 : Station.World) :
  NoDup (fst <$> Scheme.getStations (scheme_of w0)) ->
  exists c w1,
    StationCollection.constructor w0 = Ok c w1 /\
    forall ops : list Operation,
      let w := perform_all c ops w1 in
      (forall k r, In (k, r) (Scheme.getStations (scheme_of w0)) ->
         exists ref s,
           StationCollection.getByCode c k = Some ref /\
           Station.objects w !! ref = Some s /\
           Station.code s = labelId r /\
           Station.title s = name r) /\
      StationCollection.getSelection c w
        = Ok ((fun kr => labelId (snd kr)) <$>
                List.filter (fun kr => selected_at c w (fst kr))
                            (Scheme.getStations (scheme_of w0))) w.
Proof.
  intros Hnd.
  destruct (constructor_returns w0) as (c & w1 & Hrun & _ & _ & Ho & Hi & _ & Hin).
  specialize (Hin Hnd).
  exists c, w1. split; [exact Hrun|]. intros ops w.
  assert (Hid : identities w = identities w1).
  { apply keeps_perform_all.
    - apply identities_off_document.
    - apply identities_off_flags.
    - apply identities_off_events.
    - intros v w' _. reflexivity. }
  assert (Hobjs : forall i k r,
            Scheme.getStations (scheme_of w0) !! i = Some (k, r) ->
            exists s, Station.objects w !! (length (Station.objects w0) + i) = Some s /\
                      Station.code s = labelId r /\ Station.title s = name r).
  { intros i k r Hl.
    destruct (identities_lookup w1 w _ _ Hid (built_station w0 w1 _ i k r Ho Hl))
      as (s & Hs & Hc & Ht).
    now exists s. }
  split.
  - intros k r Hkr. apply list_elem_of_In, list_elem_of_lookup in Hkr as [i Hl].
    destruct (Hobjs i k r Hl) as (s & Hs & Hc & Ht).
    exists (length (Station.objects w0) + i), s.
    split; [now apply (Hin i k r)|]. now repeat split.
  - apply (getSelection_labelIds c w _ (length (Station.objects w0)) Hi Hin).
    intros i k r Hl. destruct (Hobjs i k r Hl) as (s & Hs & Hc & _). now exists s.
Qed.

End Codes.


Section SelectionOrder.

Lemma returns_select (this : nat) (w : Station.World) (s : Station.t)
    (Q : unit -> Station.World -> Prop) :
  Station.objects w !! this = Some s ->
  Station.selected s = false ->
  glyphs_present w (Station.code s) ->
  layers_present w ->
  (forall w',
     Station.objects w' = alter (Station.with_selected true) this (Station.objects w) ->
     same_document w w' -> Q tt w') ->
  returns (Station.select this) w Q.
Proof.
  intros Hs Hsel Hg Hl H.
  apply (returns_mono _ _ _ _ (select_returns this w s Hs Hsel Hg Hl)).
  intros [] w' (Ho & _ & Hd). now apply H.
Qed.

Lemma returns_deselect (this : nat) (w : Station.World) (s : Station.t)
    (Q : unit -> Station.World -> Prop) :
  Station.objects w !! this = Some s ->
  Station.selected s = true ->
  glyphs_present w (Station.code s) ->
  layers_present w ->
  (forall w',
     Station.objects w' = alter (Station.with_selected false) this (Station.objects w) ->
     same_document w w' -> Q tt w') ->
  returns (Station.deselect this) w Q.
Proof.
  intros Hs Hsel Hg Hl H.
  apply (returns_mono _ _ _ _ (deselect_returns this w s Hs Hsel Hg Hl)).
  intros [] w' (Ho & _ & Hd). now apply H.
Qed.

Lemma lookup_with_selected (objs : list Station.t) (i j : nat) (b : bool) (s : Station.t) :
  objs !! j = Some s ->
  exists s',
    alter (Station.with_selected b) i objs !! j = Some s' /\
    Station.code s' = Station.code s /\
    Station.selected s' = (if decide (i = j) then b else Station.selected s).
Proof.
  intros Hs. rewrite list_lookup_alter. destruct (decide (i = j)) as [->|Hne].
  - rewrite Hs. now exists (Station.with_selected b s).
  - now exists s.
Qed.

Lemma filter_none {A} (f : A -> bool) (l : list A) :
  (forall j y, l !! j = Some y -> f y = false) -> List.filter f l = [].
Proof.
  induction l as [|y l IH]; intros H; [reflexivity|].
  cbn. rewrite (H 0 y eq_refl). apply IH. intros j z Hz. apply (H (S j) z Hz).
Qed.

Lemma filter_single {A} (f : A -> bool) (l : list A) (i : nat) (x : A) :
  l !! i = Some x ->
  (forall j y, l !! j = Some y -> f y = true <-> j = i) ->
  List.filter f l = [x].
Proof.
  revert i. induction l as [|y l IH]; intros i Hx H; [discriminate|].
  destruct i as [|i]; cbn in Hx |- *.
  - injection Hx as ->. rewrite (proj2 (H 0 x eq_refl) eq_refl). f_equal.
    apply filter_none. intros j z Hz.
    destruct (f z) eqn:Hf; [|reflexivity].
    apply (H (S j) z Hz) in Hf. discriminate.
  - destruct (f y) eqn:Hf; [apply (H 0 y eq_refl) in Hf; discriminate|].
    apply (IH i Hx). intros j z Hz. rewrite (H (S j) z Hz). lia.
Qed.

(** C4: [getSelection] returns the codes of the selected stations of the
    collection, in the order the stations were added to it. When the
    stations indexed under 2 and 5 have these codes and their glyphs and
    the layers are in the scheme image, [select([2, 5])] followed by
    [deselect([2])] on the newly built collection returns, and
    [getSelection()] is then [[5]]. *)
Theorem getSelection_in_collection_order (w0 : Station.World) (r2 r5 : StationMeta) :
  NoDup (fst <$> Scheme.getStations (scheme_of w0)) ->
  In (2%Z, r2) (Scheme.getStations (scheme_of w0)) -> labelId r2 = 2%Z ->
  In (5%Z, r5) (Scheme.getStations (scheme_of w0)) -> labelId r5 = 5%Z ->
  glyphs_present w0 2 -> glyphs_present w0 5 -> layers_present w0 ->
  (forall c w,
     Forall (fun i => is_Some (Station.objects w !! i)) (StationCollection._items c) ->
     StationCollection.getSelection c w
       = Ok (Station.code <$>
               List.filter Station.selected (stations_at w (StationCollection._items c))) w) /\
  exists w',
    (c ← StationCollection.constructor;
     StationCollection.select c (CodeArray [2%Z; 5%Z]);;
     StationCollection.deselect c (CodeArray [2%Z]);;
     StationCollection.getSelection c) w0 = Ok [5%Z] w'.
Proof.
  intros Hnd Hin2 Hl2 Hin5 Hl5 Hg2 Hg5 Hlayers.
  split; [exact getSelection_returns|].
  set (metadata := Scheme.getStations (scheme_of w0)) in *.
  set (off := length (Station.objects w0)).
  destruct (constructor_returns w0) as (c & w1 & Hrun & Hv & _ & Ho & Hi & _ & Hkeys).
  fold metadata off in Ho, Hi, Hkeys. specialize (Hkeys Hnd).
  apply list_elem_of_In, list_elem_of_lookup in Hin2 as [j2 Hj2].
  apply list_elem_of_In, list_elem_of_lookup in Hin5 as [j5 Hj5].
  assert (Hne : j2 <> j5) by (intros ->; rewrite Hj2 in Hj5; discriminate).
  assert (Hd01 : same_document w0 w1).
  { unfold same_document, scheme_of. now rewrite Hv. }
  pose proof (built_station w0 w1 metadata j2 _ r2 Ho Hj2) as Hs2.
  pose proof (built_station w0 w1 metadata j5 _ r5 Ho Hj5) as Hs5.
  fold off in Hs2, Hs5.
  cut (returns
         (c ← StationCollection.constructor;
          StationCollection.select c (CodeArray [2%Z; 5%Z]);;
          StationCollection.deselect c (CodeArray [2%Z]);;
          StationCollection.getSelection c) w0 (fun codes _ => codes = [5%Z])).
  { intros (codes & w' & Hr & ->). now exists w'. }
  apply returns_bind. exists c, w1. split; [exact Hrun|].
  apply returns_bind. unfold StationCollection.select. cbn [Array_concat forEach].
  apply returns_bind. rewrite (Hkeys j2 _ r2 Hj2).
  apply (returns_select _ w1 (Station.fields r2)); try assumption; try reflexivity.
  { cbn. rewrite Hl2. now apply (glyphs_present_same w0 w1). }
  { now apply (layers_present_same w0 w1). }
  intros w2 Ho2 Hd12.
  pose proof (same_document_trans w0 w1 w2 Hd01 Hd12) as Hd02.
  apply returns_bind. rewrite (Hkeys j5 _ r5 Hj5).
  apply (returns_select _ w2 (Station.fields r5)); try reflexivity.
  { rewrite Ho2, list_lookup_alter_ne by lia. exact Hs5. }
  { cbn. rewrite Hl5. now apply (glyphs_present_same w0 w2). }
  { now apply (layers_present_same w0 w2). }
  intros w3 Ho3 Hd23.
  pose proof (same_document_trans w0 w2 w3 Hd02 Hd23) as Hd03.
  apply returns_ret.
  apply returns_bind. unfold StationCollection.deselect. cbn [Array_concat forEach].
  apply returns_bind. rewrite (Hkeys j2 _ r2 Hj2).
  apply (returns_deselect _ w3 (Station.with_selected true (Station.fields r2)));
    try reflexivity.
  { rewrite Ho3, list_lookup_alter_ne by lia.
    rewrite Ho2, list_lookup_alter_eq, Hs2. reflexivity. }
  { cbn. rewrite Hl2. now apply (glyphs_present_same w0 w3). }
  { now apply (layers_present_same w0 w3). }
  intros w4 Ho4 Hd34. apply returns_ret.
  assert (Hobjs : forall i k r, metadata !! i = Some (k, r) ->
            exists s, Station.objects w4 !! (off + i) = Some s /\
                      Station.code s = labelId r /\
                      (Station.selected s = true <-> i = j5)).
  { intros i k r Hl. pose proof (built_station w0 w1 metadata i k r Ho Hl) as Hs.
    fold off in Hs.
    destruct (lookup_with_selected _ (off + j2) _ true _ Hs) as (s1 & Hs1 & Hc1 & Hf1).
    rewrite <- Ho2 in Hs1.
    destruct (lookup_with_selected _ (off + j5) _ true _ Hs1) as (s2 & Hs2' & Hc2 & Hf2).
    rewrite <- Ho3 in Hs2'.
    destruct (lookup_with_selected _ (off + j2) _ false _ Hs2') as (s3 & Hs3 & Hc3 & Hf3).
    rewrite <- Ho4 in Hs3.
    exists s3. split; [exact Hs3|]. split; [now rewrite Hc3, Hc2, Hc1|].
    rewrite Hf3, Hf2, Hf1. cbn.
    repeat destruct (decide _); split; intros; try discriminate; try reflexivity; lia. }
  eexists _, w4. split.
  { apply (getSelection_labelIds c w4 metadata off Hi Hkeys).
    intros i k r Hl. destruct (Hobjs i k r Hl) as (s & Hs & Hc & _). now exists s. }
  rewrite (filter_single _ metadata j5 (5%Z, r5) Hj5).
  - cbn. now rewrite Hl5.
  - intros j [k r] Hl. cbn. destruct (Hobjs j k r Hl) as (s & Hs & _ & Hsel).
    unfold selected_at. now rewrite (Hkeys j k r Hl), Hs.
Qed.

End SelectionOrder.

(** *** The theorems at work on the example scheme *)

Section Worked.

Lemma select_deselect_idempotent_witness :
  Station.objects Examples.selected_world !! 0
    = Some (Station.with_selected true
              (Station.fields {| labelId := 2; name := "Central Park" |})) /\
  Station.select 0 Examples.selected_world = Ok tt Examples.selected_world.
Proof.
  assert (Hs : Station.objects Examples.selected_world !! 0
               = Some (Station.with_selected true
                         (Station.fields {| labelId := 2; name := "Central Park" |})))
    by reflexivity.
  split; [exact Hs|].
  exact (proj1 (select_deselect_idempotent Examples.collection Examples.selected_world
                  0 _ Hs) eq_refl).
Defined.

Lemma example_glyphs_present (code : Z) :
  In code [2%Z; 5%Z; 7%Z] -> glyphs_present Examples.world code.
Proof.
  intros [<-|[<-|[<-|[]]]];
    (split;
     [eexists _, _; split; reflexivity
     |eexists; split; [reflexivity|]; intros id [<-|[]]; eexists; reflexivity]).
Defined.

Lemma example_layers_present : layers_present Examples.world.
Proof. repeat constructor; eexists; reflexivity. Defined.

Lemma example_keys_NoDup :
  NoDup (fst <$> Scheme.getStations (scheme_of Examples.world)).
Proof.
  cbn. repeat constructor; rewrite ?list_elem_of_In; cbn; intuition discriminate.
Defined.

Lemma getSelection_in_collection_order_witness :
  NoDup (fst <$> Scheme.getStations (scheme_of Examples.world)) /\
  glyphs_present Examples.world 2 /\
  glyphs_present Examples.world 5 /\
  layers_present Examples.world /\
  exists w',
    (c ← StationCollection.constructor;
     StationCollection.select c (CodeArray [2%Z; 5%Z]);;
     StationCollection.deselect c (CodeArray [2%Z]);;
     StationCollection.getSelection c) Examples.world = Ok [5%Z] w'.
Proof.
  assert (Hg2 : glyphs_present Examples.world 2)
    by (apply example_glyphs_present; cbn; tauto).
  assert (Hg5 : glyphs_present Examples.world 5)
    by (apply example_glyphs_present; cbn; tauto).
  split; [exact example_keys_NoDup|]. split; [exact Hg2|]. split; [exact Hg5|].
  split; [exact example_layers_present|].
  refine (proj2 (getSelection_in_collection_order Examples.world
                   {| labelId := 2; name := "Central Park" |}
                   {| labelId := 5; name := "Centennial" |}
                   example_keys_NoDup _ eq_refl _ eq_refl Hg2 Hg5 example_layers_present)).
  - left. reflexivity.
  - right. left. reflexivity.
Defined.

Lemma station_code_is_labelId_witness :
  NoDup (fst <$> Scheme.getStations (scheme_of Examples.shared_world)) /\
  exists c w1,
    StationCollection.constructor Examples.shared_world = Ok c w1 /\
    exists ref s,
      StationCollection.getByCode c 1 = Some ref /\
      Station.objects w1 !! ref = Some s /\
      Station.code s = 7%Z /\
      Station.title s = "Kievskaya".
Proof.
  assert (Hnd : NoDup (fst <$> Scheme.getStations (scheme_of Examples.shared_world))).
  { cbn. repeat constructor; rewrite ?list_elem_of_In; cbn; intuition discriminate. }
  split; [exact Hnd|].
  destruct (station_code_is_labelId Examples.shared_world Hnd) as (c & w1 & Hrun & H).
  exists c, w1. split; [exact Hrun|].
  destruct (H []) as [Hcode _].
  apply (Hcode 1%Z {| labelId := 7; name := "Kievskaya" |}). left. reflexivity.
Defined.

(** The code of a station need not be the key it is indexed under: with
    two stations sharing the label 7 under the keys 1 and 2, selecting the
    key 1 makes [getSelection] answer [[7]], and 7 is no key. *)
Example labelId_differs_from_key :
  value_of ((c ← StationCollection.constructor;
             StationCollection.select c (Code 1%Z);;
             StationCollection.getSelection c) Examples.shared_world) = Some [7%Z] /\
  throws ((c ← StationCollection.constructor;
           StationCollection.select c (Code 7%Z)) Examples.shared_world) = true.
Proof. split; vm_compute; reflexivity. Qed.

(** The selection is listed in collection order, whatever the order of
    the codes given to [select]. *)
Example getSelection_ignores_selection_order :
  value_of ((c ← StationCollection.constructor;
             StationCollection.select c (CodeArray [7%Z; 2%Z; 5%Z]);;
             StationCollection.getSelection c) Examples.world) = Some [2%Z; 5%Z; 7%Z].
Proof. vm_compute. reflexivity. Qed.

(** An unknown code in the middle of an array: the stations before it are
    selected, the call throws, and those after it are not reached. *)
Example select_stops_at_unknown_code :
  let r := StationCollection.select Examples.collection (CodeArray [2%Z; 99%Z; 5%Z])
             Examples.built_world in
  throws r = true /\ flags (state_of r) = [true; false; false].
Proof. split; vm_compute; reflexivity. Qed.

(** [select] moves the glyphs to the highlight layers and fires one
    event; a second [select] changes nothing. *)
Example select_moves_glyphs :
  let w := Examples.selected_world in
  childNodes <$> (document_of w !! "highlight-layer-stations") = Some ["station-2"] /\
  childNodes <$> (document_of w !! "highlight-layer-labels") = Some ["label-2"] /\
  childNodes <$> (document_of w !! "scheme-layer-stations") = Some ["station-5"; "station-7"] /\
  rect <$> (document_of w !! "label-2") = Some (Some {| stroke := "#bbb"; opacity := "1" |}) /\
  Station.events w
    = [{| event_name := "selectionchange"; event_type := "select"; target := 0 |}].
Proof. repeat split; vm_compute; reflexivity. Qed.

(** The comparison is case-sensitive, and a token in the middle of a
    title counts. *)
Example search_is_case_sensitive :
  value_of (StationCollection.search Examples.collection "cen" Examples.built_world)
    = Some (Fulfilled []) /\
  value_of (StationCollection.search Examples.collection "Row" Examples.built_world)
    = Some (Fulfilled [2]).
Proof. split; vm_compute; reflexivity. Qed.

End Worked.

(** ** Part III. Further properties *)

(** *** Zoom and scale *)

Section ZoomScale.

Local Open Scope R_scope.

Lemma ln_2_pos : 0 < ln 2.
Proof. rewrite <- ln_1. apply ln_increasing; lra. Qed.

Lemma getZoomFromScale_Math_pow (zoom : R) :
  SchemeLayer.getZoomFromScale (Math_pow 2 zoom) = zoom.
Proof.
  unfold SchemeLayer.getZoomFromScale, Math_log, Math_LOG2E, Math_pow, Rpower.
  rewrite ln_exp. pose proof ln_2_pos. field. lra.
Qed.

Lemma getScaleFromZoom_Math_log (scale : R) :
  0 < scale ->
  SchemeLayer.getScaleFromZoom (SchemeLayer.getZoomFromScale scale) = scale.
Proof.
  intros Hs.
  unfold SchemeLayer.getScaleFromZoom, SchemeLayer.getZoomFromScale.
  unfold Math_log, Math_LOG2E, Math_pow, Rpower.
  pose proof ln_2_pos.
  replace (ln scale * (1 / ln 2) * ln 2) with (ln scale) by (field; lra).
  now apply exp_ln.
Qed.

(** X1: [getScaleFromZoom] and [getZoomFromScale] undo each other: for every
    zoom, and for every positive scale. *)
Theorem zoom_scale_round_trip (zoom scale : R) :
  0 < scale ->
  SchemeLayer.getZoomFromScale (SchemeLayer.getScaleFromZoom zoom) = zoom /\
  SchemeLayer.getScaleFromZoom (SchemeLayer.getZoomFromScale scale) = scale.
Proof.
  intros Hs. split; [apply getZoomFromScale_Math_pow | now apply getScaleFromZoom_Math_log].
Qed.

Lemma zoom_scale_round_trip_witness :
  0 < 4 /\
  SchemeLayer.getZoomFromScale (SchemeLayer.getScaleFromZoom 2) = 2 /\
  SchemeLayer.getScaleFromZoom (SchemeLayer.getZoomFromScale 4) = 4.
Proof.
  assert (H : 0 < 4) by lra.
  split; [exact H|]. exact (zoom_scale_round_trip 2 4 H).
Defined.

(** X2 (numbers as reals): on a container of positive size [getFitZoom]
    gives the zoom at which the 256 square is as large as the smaller side
    of the container; on a missing container it throws. In binary64
    [Math.log] and [Math.pow] round, and the equality holds up to that. *)
Theorem getFitZoom_fills_container (node : HtmlElement) :
  0 < clientWidth node -> 0 < clientHeight node ->
  (exists fitZoom,
     SchemeLayer.getFitZoom (Some node) = inr fitZoom /\
     SchemeLayer.SQUARE_SIZE * SchemeLayer.getScaleFromZoom fitZoom
       = Math_min (clientWidth node) (clientHeight node)) /\
  SchemeLayer.getFitZoom None = inl (TypeError "clientWidth").
Proof.
  intros Hw Hh. split; [|reflexivity]. eexists. split; [reflexivity|].
  set (scale := Math_min (clientWidth node / SchemeLayer.SQUARE_SIZE)
                         (clientHeight node / SchemeLayer.SQUARE_SIZE)).
  assert (Hpos : 0 < scale).
  { subst scale. unfold Math_min, SchemeLayer.SQUARE_SIZE.
    apply Rmin_case; apply Rdiv_lt_0_compat; lra. }
  rewrite (getScaleFromZoom_Math_log scale Hpos).
  subst scale. unfold Math_min, SchemeLayer.SQUARE_SIZE, Rmin.
  destruct (Rle_dec (clientWidth node / 256) (clientHeight node / 256)) as [H|H];
    destruct (Rle_dec (clientWidth node) (clientHeight node)) as [G|G];
    field_simplify; lra.
Qed.

Lemma getFitZoom_fills_container_witness :
  0 < clientWidth Examples.wide /\ 0 < clientHeight Examples.wide /\
  exists fitZoom,
    SchemeLayer.getFitZoom (Some Examples.wide) = inr fitZoom /\
    SchemeLayer.SQUARE_SIZE * SchemeLayer.getScaleFromZoom fitZoom = 512.
Proof.
  assert (Hw : 0 < clientWidth Examples.wide) by (cbn; lra).
  assert (Hh : 0 < clientHeight Examples.wide) by (cbn; lra).
  split; [exact Hw|]. split; [exact Hh|].
  destruct (proj1 (getFitZoom_fills_container Examples.wide Hw Hh)) as (z & Hz & Hfit).
  exists z. split; [exact Hz|]. rewrite Hfit.
  unfold Math_min, Rmin. cbn. destruct (Rle_dec 1024 512); lra.
Defined.

End ZoomScale.

(** *** The live transform *)

Section LiveTransform.

Local Open Scope R_scope.

Lemma scaled_image_fits (scheme : Scheme.t) :
  let w := width (Scheme._metaData scheme) in
  let h := height (Scheme._metaData scheme) in
  let s := SchemeView._zeroZoomScale (SchemeView.constructor scheme) in
  0 < w -> 0 < h ->
  w * s <= 256 /\ h * s <= 256 /\ (w * s = 256 \/ h * s = 256).
Proof.
  intros w h s Hw Hh.
  assert (Hl : s <= 256 / w) by apply Rmin_l.
  assert (Hr : s <= 256 / h) by apply Rmin_r.
  assert (Ew : w * (256 / w) = 256) by (field; lra).
  assert (Eh : h * (256 / h) = 256) by (field; lra).
  split; [|split].
  - rewrite <- Ew. apply Rmult_le_compat_l; lra.
  - rewrite <- Eh. apply Rmult_le_compat_l; lra.
  - subst s. cbn. unfold Math_min. fold w h.
    apply Rmin_case; [left | right]; assumption.
Qed.

Lemma extend_cons {V} (m : gmap string V) (kv : string * V) (kvs : list (string * V)) :
  extend m (kv :: kvs) = extend (<[fst kv := snd kv]> m) kvs.
Proof. reflexivity. Qed.

Lemma extend_lookup_other {V} (kvs : list (string * V)) (m : gmap string V) (k : string) :
  ~ In k (fst <$> kvs) -> extend m kvs !! k = m !! k.
Proof.
  revert m. induction kvs as [|kv kvs IH]; intros m Hk; [reflexivity|].
  rewrite extend_cons, IH; [|cbn in Hk; tauto].
  apply lookup_insert_ne. cbn in Hk. tauto.
Qed.

Lemma extend_lookup_listed {V} (kvs : list (string * V)) (m m' : gmap string V) (k : string) :
  In k (fst <$> kvs) -> extend m kvs !! k = extend m' kvs !! k.
Proof.
  revert m m'. induction kvs as [|kv kvs IH]; intros m m' Hk; [destruct Hk|].
  rewrite !extend_cons.
  destruct (in_dec String.string_dec k (fst <$> kvs)) as [Hin|Hout]; [now apply IH|].
  rewrite !extend_lookup_other by assumption.
  destruct Hk as [<-|Hk]; [|contradiction]. now rewrite !lookup_insert_eq.
Qed.

(** Assigning the same properties again replaces the first assignment. *)
Lemma extend_extend {V} (kvs1 kvs2 : list (string * V)) (m : gmap string V) :
  fst <$> kvs1 = fst <$> kvs2 ->
  extend (extend m kvs1) kvs2 = extend m kvs2.
Proof.
  intros Hkeys. apply map_eq. intros k.
  destruct (in_dec String.string_dec k (fst <$> kvs2)) as [Hin|Hout].
  - now apply extend_lookup_listed.
  - rewrite !extend_lookup_other; try assumption; [reflexivity|]. now rewrite Hkeys.
Qed.

Lemma updatePosition_node (v : SchemeView.t) (clientCenter : R * R) (mapScale : R) :
  SchemeView._node (SchemeView.updatePosition v clientCenter mapScale)
    = extend (SchemeView._node v) (live_style v clientCenter mapScale).
Proof. reflexivity. Qed.

Lemma updatePosition_twice (v : SchemeView.t) (c1 c2 : R * R) (s1 s2 : R) :
  SchemeView.updatePosition (SchemeView.updatePosition v c1 s1) c2 s2
    = SchemeView.updatePosition v c2 s2.
Proof.
  assert (H : SchemeView._node
                (SchemeView.updatePosition (SchemeView.updatePosition v c1 s1) c2 s2)
              = SchemeView._node (SchemeView.updatePosition v c2 s2)).
  { rewrite !updatePosition_node.
    change (live_style (SchemeView.updatePosition v c1 s1) c2 s2) with (live_style v c2 s2).
    now apply extend_extend. }
  unfold SchemeView.updatePosition at 1 3. cbn [SchemeView._scheme SchemeView._selfSize
    SchemeView._zeroZoomScale SchemeView._offset SchemeView._schemeNode].
  f_equal. exact H.
Qed.

(** X3: [updatePosition] does not accumulate: after any series of calls the
    scheme view is what the last call alone makes of the view the series
    started with. *)
Theorem updatePosition_replaces
    (v : SchemeView.t) (calls : list ((R * R) * R)) (clientCenter : R * R) (mapScale : R) :
  SchemeView.updatePositions v (calls ++ [(clientCenter, mapScale)])
    = SchemeView.updatePosition v clientCenter mapScale.
Proof.
  unfold SchemeView.updatePositions. rewrite fold_left_app. cbn [fold_left fst snd].
  induction calls as [|c calls IH] using rev_ind; [reflexivity|].
  rewrite fold_left_app. cbn [fold_left]. rewrite updatePosition_twice. exact IH.
Qed.

Lemma last_notification_wins (v : SchemeView.t) (panes : list Pane) (pane : Pane) :
  SchemeLayer.notified v (panes ++ [pane]) = SchemeLayer._updateSchemePosition v pane.
Proof.
  unfold SchemeLayer.notified. rewrite fold_left_app. cbn [fold_left].
  induction panes as [|p panes IH] using rev_ind; [reflexivity|].
  rewrite fold_left_app. cbn [fold_left].
  unfold SchemeLayer._updateSchemePosition at 1 2.
  rewrite updatePosition_twice. exact IH.
Qed.

(** X4: However the map was panned and zoomed, the style of the root node of
    the scheme is the one the last state of the pane gives: under each of
    the five vendor prefixes the transform origin ["0px 0px"] and the
    translation by the offset of the view plus the pixel origin of the
    pane, and for width and height the size of the image multiplied by
    the scale of the view and by [2^zoom]. Every other property of the
    style is as it was, and so are the size, the scale and the offset of
    the view. *)
Theorem notified_places_node (v : SchemeView.t) (panes : list Pane) (pane : Pane) :
  let v' := SchemeLayer.notified v (panes ++ [pane]) in
  let origin := pane_toClientPixels pane (0, 0) in
  let scale := SchemeView._zeroZoomScale v * Math_pow 2 (pane_getZoom pane) in
  Forall (fun prefix =>
            SchemeView._node v' !! (prefix +:+ "transform-origin") = Some (CssText "0px 0px") /\
            SchemeView._node v' !! (prefix +:+ "transform")
              = Some (CssTranslate (fst (SchemeView._offset v) + fst origin)
                                   (snd (SchemeView._offset v) + snd origin)))
         ["-webkit-"; "-moz-"; "-ms-"; "-o-"; ""] /\
  SchemeView._node v' !! "width" = Some (CssPx (fst (SchemeView._selfSize v) * scale)) /\
  SchemeView._node v' !! "height" = Some (CssPx (snd (SchemeView._selfSize v) * scale)) /\
  (forall property,
     ~ In property ["-webkit-transform-origin"; "-webkit-transform";
                    "-moz-transform-origin"; "-moz-transform";
                    "-ms-transform-origin"; "-ms-transform";
                    "-o-transform-origin"; "-o-transform";
                    "transform-origin"; "transform"; "width"; "height"] ->
     SchemeView._node v' !! property = SchemeView._node v !! property) /\
  SchemeView._selfSize v' = SchemeView._selfSize v /\
  SchemeView._zeroZoomScale v' = SchemeView._zeroZoomScale v /\
  SchemeView._offset v' = SchemeView._offset v /\
  SchemeView._schemeNode v' = SchemeView._schemeNode v.
Proof.
  intros v' origin scale. subst v'. rewrite last_notification_wins.
  unfold SchemeLayer._updateSchemePosition. rewrite updatePosition_node.
  fold origin.
  set (kvs := live_style v origin (Math_pow 2 (pane_getZoom pane))).
  assert (Hlisted : forall k, In k (fst <$> kvs) ->
            extend (SchemeView._node v) kvs !! k = extend ∅ kvs !! k).
  { intros k Hk. now apply extend_lookup_listed. }
  split; [|split; [|split; [|split]]].
  - repeat constructor; (rewrite Hlisted; [reflexivity | cbn; tauto]).
  - rewrite Hlisted; [reflexivity | cbn; tauto].
  - rewrite Hlisted; [reflexivity | cbn; tauto].
  - intros property Hp. now apply extend_lookup_other.
  - repeat split.
Qed.

(** X23 (numbers as reals): however the map was panned and zoomed, the
    root node of a scheme of positive size is sized so that the image
    fits the world square of the current zoom, of side [256 * 2^zoom],
    and fills it along one axis. In binary64 the side that fills the
    square can fall short of it by a rounding step, as the base scale
    does. *)
Theorem notified_fits_world_square (scheme : Scheme.t) (panes : list Pane) (pane : Pane) :
  let w := width (Scheme._metaData scheme) in
  let h := height (Scheme._metaData scheme) in
  let fresh := SchemeView.constructor scheme in
  let v := SchemeLayer.notified fresh (panes ++ [pane]) in
  let side := 256 * Math_pow 2 (pane_getZoom pane) in
  0 < w -> 0 < h ->
  exists W H,
    SchemeView._node v !! "width" = Some (CssPx W) /\
    SchemeView._node v !! "height" = Some (CssPx H) /\
    W <= side /\ H <= side /\ (W = side \/ H = side).
Proof.
  intros w h fresh v side Hw Hh.
  subst v. rewrite last_notification_wins.
  destruct (scaled_image_fits scheme Hw Hh) as (Hfw & Hfh & Hone).
  fold w h fresh in Hfw, Hfh, Hone.
  pose proof (Math_pow_2_pos (pane_getZoom pane)) as Hp.
  set (s := SchemeView._zeroZoomScale fresh) in *.
  set (m := Math_pow 2 (pane_getZoom pane)) in *.
  exists (w * (s * m)), (h * (s * m)).
  split; [reflexivity|]. split; [reflexivity|].
  subst side. split; [|split].
  - replace (w * (s * m)) with (w * s * m) by ring. apply Rmult_le_compat_r; lra.
  - replace (h * (s * m)) with (h * s * m) by ring. apply Rmult_le_compat_r; lra.
  - destruct Hone as [E|E]; [left|right]; rewrite <- E; ring.
Qed.

Lemma notified_fits_world_square_witness :
  0 < width (Scheme._metaData Examples.scheme) /\
  0 < height (Scheme._metaData Examples.scheme) /\
  exists W H,
    SchemeView._node
      (SchemeLayer.notified (SchemeView.constructor Examples.scheme)
         ([Examples.pane_at 0] ++ [Examples.pane_at 1])) !! "width" = Some (CssPx W) /\
    SchemeView._node
      (SchemeLayer.notified (SchemeView.constructor Examples.scheme)
         ([Examples.pane_at 0] ++ [Examples.pane_at 1])) !! "height" = Some (CssPx H) /\
    W <= 256 * Math_pow 2 1 /\ H <= 256 * Math_pow 2 1.
Proof.
  assert (Hw : 0 < width (Scheme._metaData Examples.scheme)) by (cbn; lra).
  assert (Hh : 0 < height (Scheme._metaData Examples.scheme)) by (cbn; lra).
  split; [exact Hw|]. split; [exact Hh|].
  destruct (notified_fits_world_square Examples.scheme
              [Examples.pane_at 0] (Examples.pane_at 1) Hw Hh)
    as (W & H & H1 & H2 & H3 & H4 & _).
  exists W, H. repeat split; assumption.
Defined.

End LiveTransform.

(** *** Placement in the reference square, zoom levels, bounding boxes *)

Section Placement.

Local Open Scope R_scope.










End Placement.

(** *** Loading the scheme of a city *)

Section Loading.

Lemma append_inv_head (p a b : string) : p +:+ a = p +:+ b -> a = b.
Proof.
  induction p as [|c p IH]; intros H; [exact H|].
  rewrite !append_String in H. injection H as H. now apply IH.
Qed.

Lemma listed_cities (city : string) :
  TransportMap.listed city = true ->
  city = "moscow" \/ city = "spb" \/ city = "kiev" \/ city = "kharkov" \/ city = "minsk".
Proof.
  intros H.
  destruct (String.eqb "moscow" city) eqn:E1; [apply String.eqb_eq in E1; auto|].
  destruct (String.eqb "spb" city) eqn:E2; [apply String.eqb_eq in E2; auto|].
  destruct (String.eqb "kiev" city) eqn:E3; [apply String.eqb_eq in E3; auto|].
  destruct (String.eqb "kharkov" city) eqn:E4; [apply String.eqb_eq in E4; auto 6|].
  destruct (String.eqb "minsk" city) eqn:E5; [apply String.eqb_eq in E5; auto 6|].
  unfold TransportMap.listed, TransportMap._schemeIdByCity_own in H.
  cbn [existsb fst] in H. rewrite E1, E2, E3, E4, E5 in H. discriminate.
Qed.

(** X8: Two different cities of the table are never loaded from the same URL,
    whatever the path and the language; and as the code sets no default
    for [lang], an omitted language leaves its place in the URL empty. *)
Theorem listed_cities_load_distinct_schemes
    (document : gmap string HtmlElement) (city1 city2 : string)
    (container : Container) (state : State) (options : Options)
    (this1 this2 : TransportMap.t) (url1 url2 : string) :
  TransportMap.listed city1 = true ->
  TransportMap.listed city2 = true ->
  city1 <> city2 ->
  TransportMap.constructor document city1 container state options
    = TransportMap.Loading this1 url1 ->
  TransportMap.constructor document city2 container state options
    = TransportMap.Loading this2 url2 ->
  url1 <> url2 /\
  (lang options = None ->
   url1 = default "node_modules/metro-data/" (path options)
            +:+ join_text (TransportMap._schemeIdByCity city1) +:+ "..svg").
Proof.
  intros H1 H2 Hne Hc1 Hc2.
  unfold TransportMap.constructor in Hc1, Hc2.
  destruct (match zoom state with
            | Some z => inr z
            | None => SchemeLayer.getFitZoom _
            end) as [e|z]; [discriminate|].
  injection Hc1 as _ <-. injection Hc2 as _ <-.
  unfold TransportMap._loadScheme. split.
  - intros Heq. apply append_inv_head in Heq.
    apply listed_cities in H1, H2.
    destruct H1 as [->|[->|[->|[->| ->]]]];
      destruct H2 as [->|[->|[->|[->| ->]]]];
      try (now apply Hne); vm_compute in Heq; discriminate Heq.
  - intros ->. reflexivity.
Qed.

Lemma listed_cities_load_distinct_schemes_witness :
  TransportMap.listed "moscow" = true /\ TransportMap.listed "minsk" = true /\
  "moscow" <> "minsk" /\
  exists this1 this2,
    TransportMap.constructor ∅ "moscow" (ContainerNode None)
        (Examples.with_zoom 1) Examples.ru
      = TransportMap.Loading this1 "node_modules/metro-data/1.ru.svg" /\
    TransportMap.constructor ∅ "minsk" (ContainerNode None)
        (Examples.with_zoom 1) Examples.ru
      = TransportMap.Loading this2 "node_modules/metro-data/13.ru.svg" /\
    "node_modules/metro-data/1.ru.svg" <> "node_modules/metro-data/13.ru.svg".
Proof.
  assert (Hne : "moscow" <> "minsk") by discriminate.
  split; [reflexivity|]. split; [reflexivity|]. split; [exact Hne|].
  eexists _, _. split; [reflexivity|]. split; [reflexivity|].
  exact (proj1 (listed_cities_load_distinct_schemes ∅ "moscow" "minsk" (ContainerNode None)
                  (Examples.with_zoom 1) Examples.ru _ _ _ _
                  eq_refl eq_refl Hne eq_refl eq_refl)).
Defined.

End Loading.

(** *** Shading the loaded map *)

Section Shading.

Lemma shading_once (this : TransportMap.Loaded) (layer : Element) (shaded : bool) :
  elements (SchemeView._schemeNode (TransportMap._schemeView this)) !! "scheme-layer"
    = Some layer ->
  shading shaded this =
    Ok tt
      {| TransportMap._schemeView :=
           SchemeView.set_schemeNode
             {| attributes :=
                  attributes (SchemeView._schemeNode (TransportMap._schemeView this));
                elements :=
                  <["scheme-layer" := restyled (Dom.set_opacity (shading_opacity shaded)) layer]>
                    (elements (SchemeView._schemeNode (TransportMap._schemeView this))) |}
             (TransportMap._schemeView this);
         TransportMap.events :=
           TransportMap.events this ++ [("shadechange", shading_type shaded)] |}.
Proof.
  intros Hl. destruct shaded; cbn [shading shading_opacity shading_type];
    unfold TransportMap.shade, TransportMap.unshade, mbind, M_bind, within.
  - change SchemeView.fadeIn with (fade "0.5"). now rewrite (fade_present _ _ _ Hl).
  - change SchemeView.fadeOut with (fade ""). now rewrite (fade_present _ _ _ Hl).
Qed.

(** X9: On a map whose scheme image has the ["scheme-layer"] group, any series
    of [shade] and [unshade] calls returns; the opacity of the layer is
    then the one of the last call, nothing else in the image has changed,
    and each call has fired one [shadechange] event of its type. Without
    the group both methods throw before firing anything. *)
Theorem shading_follows_last_call
    (this : TransportMap.Loaded) (calls : list bool) (last : bool) :
  let v := TransportMap._schemeView this in
  let n := SchemeView._schemeNode v in
  match elements n !! "scheme-layer" with
  | Some layer =>
      forEach (calls ++ [last]) shading this =
        Ok tt
          {| TransportMap._schemeView :=
               SchemeView.set_schemeNode
                 {| attributes := attributes n;
                    elements :=
                      <["scheme-layer" :=
                          restyled (Dom.set_opacity (shading_opacity last)) layer]>
                        (elements n) |} v;
             TransportMap.events :=
               TransportMap.events this ++
                 ((fun shaded => ("shadechange", shading_type shaded)) <$> (calls ++ [last])) |}
  | None =>
      TransportMap.shade this = Throw (TypeError "style") this /\
      TransportMap.unshade this = Throw (TypeError "style") this
  end.
Proof.
  intros v n. subst v n.
  destruct (elements _ !! "scheme-layer") as [layer|] eqn:Hl.
  - revert this layer Hl. induction calls as [|c calls IH]; intros this layer Hl.
    + cbn [app forEach]. unfold mbind, M_bind.
      rewrite (shading_once this layer last Hl). reflexivity.
    + cbn [app forEach]. unfold mbind, M_bind.
      rewrite (shading_once this layer c Hl).
      fold (@mbind (M TransportMap.Loaded) _).
      match goal with |- forEach _ _ ?t = _ => set (this1 := t) end.
      rewrite (IH this1 (restyled (Dom.set_opacity (shading_opacity c)) layer)).
      2:{ subst this1. cbn. apply lookup_insert_eq. }
      subst this1. cbn. rewrite insert_insert_eq, <- app_assoc. reflexivity.
  - unfold TransportMap.shade, TransportMap.unshade, mbind, M_bind, within.
    change SchemeView.fadeIn with (fade "0.5"). change SchemeView.fadeOut with (fade "").
    rewrite !(fade_absent _ _ Hl). destruct this. split; reflexivity.
Qed.

End Shading.

(** *** Requests that match everything, or nothing *)

Section SearchEdges.

Lemma search_returns_found (this : StationCollection.t) (request : string) (w : Station.World) :
  Forall (fun i => is_Some (Station.objects w !! i)) (StationCollection._items this) ->
  StationCollection.search this request w
    = Ok (Fulfilled (search_found request w (StationCollection._items this))) w.
Proof.
  intros Hv. unfold StationCollection.search, mbind, M_bind.
  now rewrite (search_filter_found request w _ Hv).
Qed.

Lemma substr_0_0 (token : string) : String_substr token 0 0 = "".
Proof. unfold String_substr. destruct token; reflexivity. Qed.

Lemma search_matches_empty (s : Station.t) : StationCollection.search_matches "" s = true.
Proof.
  unfold StationCollection.search_matches.
  pose proof (String_split_nonempty Ascii.Space (Station.title s)) as Hne.
  destruct (String_split Ascii.Space (Station.title s)) as [|token tokens]; [congruence|].
  cbn. now rewrite substr_0_0.
Qed.

Lemma filter_all {A} (f : A -> bool) (l : list A) :
  Forall (fun a => f a = true) l -> List.filter f l = l.
Proof.
  induction 1 as [|a l Ha _ IH]; [reflexivity|]. cbn. now rewrite Ha, IH.
Qed.

(** X10: The empty request matches every station: [search("")] resolves with
    the whole collection, in collection order. *)
Theorem search_empty_request (this : StationCollection.t) (w : Station.World) :
  Forall (fun i => is_Some (Station.objects w !! i)) (StationCollection._items this) ->
  StationCollection.search this "" w = Ok (Fulfilled (StationCollection._items this)) w.
Proof.
  intros Hv.
  rewrite (search_returns_found this "" w Hv).
  do 2 f_equal. apply filter_all.
  eapply Forall_impl; [exact Hv|]. intros i [s Hs]. cbn. rewrite Hs.
  apply search_matches_empty.
Qed.

Lemma search_empty_request_witness :
  Forall (fun i => is_Some (Station.objects Examples.built_world !! i))
         (StationCollection._items Examples.collection) /\
  StationCollection.search Examples.collection "" Examples.built_world
    = Ok (Fulfilled [0; 1; 2]) Examples.built_world.
Proof.
  assert (Hv : Forall (fun i => is_Some (Station.objects Examples.built_world !! i))
                      (StationCollection._items Examples.collection)).
  { repeat constructor; eexists; reflexivity. }
  split; [exact Hv|].
  exact (search_empty_request Examples.collection Examples.built_world Hv).
Defined.

Lemma String_contains_append (c : Ascii.ascii) (a b : string) :
  String_contains c a = true -> String_contains c (a +:+ b) = true.
Proof.
  induction a as [|x a IH]; [discriminate|].
  rewrite append_String. cbn. intros H. apply orb_true_iff in H as [H|H].
  - now rewrite H.
  - rewrite (IH H). apply orb_true_r.
Qed.

(** X11: A request with a space in it matches no station, whatever the titles:
    the tokens it is compared with are cut at the spaces. *)
Theorem search_request_with_space
    (this : StationCollection.t) (request : string) (w : Station.World) :
  String_contains Ascii.Space request = true ->
  Forall (fun i => is_Some (Station.objects w !! i)) (StationCollection._items this) ->
  StationCollection.search this request w = Ok (Fulfilled []) w.
Proof.
  intros Hsp Hv.
  rewrite (search_returns_found this request w Hv).
  do 2 f_equal. apply filter_none. intros j i _.
  destruct (Station.objects w !! i) as [s|]; [|reflexivity].
  destruct (StationCollection.search_matches request s) eqn:Hm; [|reflexivity].
  apply search_matches_spec in Hm as (tokens & token & rest & (_ & Hall & _) & Hin & ->).
  rewrite Forall_forall in Hall. apply list_elem_of_In in Hin.
  specialize (Hall _ Hin). cbn in Hall.
  now rewrite (String_contains_append _ _ _ Hsp) in Hall.
Qed.

Lemma search_request_with_space_witness :
  String_contains Ascii.Space "Central Park" = true /\
  Forall (fun i => is_Some (Station.objects Examples.built_world !! i))
         (StationCollection._items Examples.collection) /\
  StationCollection.search Examples.collection "Central Park" Examples.built_world
    = Ok (Fulfilled []) Examples.built_world.
Proof.
  assert (Hv : Forall (fun i => is_Some (Station.objects Examples.built_world !! i))
                      (StationCollection._items Examples.collection)).
  { repeat constructor; eexists; reflexivity. }
  split; [reflexivity|]. split; [exact Hv|].
  exact (search_request_with_space Examples.collection "Central Park"
           Examples.built_world eq_refl Hv).
Defined.

End SearchEdges.

(** *** A newly built collection *)

Section NewCollection.

Lemma key_index (metadata : list (Z * StationMeta)) (k : Z) :
  In k (fst <$> metadata) -> exists i r, metadata !! i = Some (k, r).
Proof.
  intros Hin. apply list_elem_of_In, list_elem_of_fmap in Hin as ([k' r] & -> & Hin).
  apply list_elem_of_lookup in Hin as [i Hi]. now exists i, r.
Qed.

(** X12: [new StationCollection(schemeView)] returns for every scheme. It adds
    one unselected station per metadata entry and touches neither the
    stations that were there, nor the view, nor the event log; the keys
    of the metadata are exactly the codes [getByCode] finds, different
    keys give different stations, each of them an item of the collection;
    and the selection of the new collection is empty. *)
Theorem new_collection (w0 : Station.World) :
  let metadata := Scheme.getStations (scheme_of w0) in
  NoDup (fst <$> metadata) ->
  exists c w1,
    StationCollection.constructor w0 = Ok c w1 /\
    Station.view w1 = Station.view w0 /\
    Station.events w1 = Station.events w0 /\
    (exists new,
       Station.objects w1 = Station.objects w0 ++ new /\
       length new = length metadata /\
       Forall (fun s => Station.selected s = false) new) /\
    NoDup (StationCollection._items c) /\
    length (StationCollection._items c) = length metadata /\
    (forall k, is_Some (StationCollection.getByCode c k) <-> In k (fst <$> metadata)) /\
    (forall k1 k2 ref,
       StationCollection.getByCode c k1 = Some ref ->
       StationCollection.getByCode c k2 = Some ref -> k1 = k2) /\
    (forall k ref,
       StationCollection.getByCode c k = Some ref ->
       In ref (StationCollection._items c) /\ is_Some (Station.objects w1 !! ref)) /\
    StationCollection.getSelection c w1 = Ok [] w1.
Proof.
  intros metadata Hnd.
  destruct (constructor_returns w0) as (c & w1 & Hrun & Hv & He & Ho & Hi & Hout & Hin).
  fold metadata in Ho, Hi, Hout, Hin. specialize (Hin Hnd).
  set (off := length (Station.objects w0)) in *.
  assert (Hfound : forall k ref, StationCollection.getByCode c k = Some ref ->
            exists i r, metadata !! i = Some (k, r) /\ ref = off + i).
  { intros k ref Hk.
    destruct (in_dec Z.eq_dec k (fst <$> metadata)) as [Hkin|Hkout].
    - destruct (key_index metadata k Hkin) as (i & r & Hl).
      exists i, r. split; [exact Hl|]. rewrite (Hin i k r Hl) in Hk. congruence.
    - rewrite (Hout k Hkout) in Hk. discriminate. }
  exists c, w1. split; [exact Hrun|]. split; [exact Hv|]. split; [exact He|].
  split; [|split; [|split; [|split; [|split; [|split]]]]].
  - exists ((fun kr => Station.fields (snd kr)) <$> metadata).
    split; [exact Ho|]. split; [now rewrite length_fmap|].
    apply Forall_fmap, Forall_forall. intros kr _. reflexivity.
  - rewrite Hi. apply NoDup_seq.
  - rewrite Hi. apply length_seq.
  - intros k. split.
    + intros [ref Hk]. destruct (Hfound k ref Hk) as (i & r & Hl & _).
      apply list_elem_of_In, list_elem_of_fmap. exists (k, r).
      split; [reflexivity|]. apply list_elem_of_lookup. now exists i.
    + intros Hkin. destruct (key_index metadata k Hkin) as (i & r & Hl).
      exists (off + i). now apply (Hin i k r).
  - intros k1 k2 ref H1 H2.
    destruct (Hfound k1 ref H1) as (i1 & r1 & Hl1 & E1).
    destruct (Hfound k2 ref H2) as (i2 & r2 & Hl2 & E2).
    assert (i1 = i2) by lia. subst i2. rewrite Hl1 in Hl2. congruence.
  - intros k ref Hk. destruct (Hfound k ref Hk) as (i & r & Hl & ->).
    split.
    + rewrite Hi. apply in_seq. apply lookup_lt_Some in Hl. lia.
    + unfold off. rewrite (built_station w0 w1 metadata i k r Ho Hl). now eexists.
  - rewrite (getSelection_labelIds c w1 metadata off Hi Hin).
    + rewrite (filter_none (fun kr => selected_at c w1 (fst kr)) metadata); [reflexivity|].
      intros j [k r] Hl. cbn.
      unfold selected_at. rewrite (Hin j k r Hl).
      unfold off. now rewrite (built_station w0 w1 metadata j k r Ho Hl).
    + intros i k r Hl. exists (Station.fields r).
      split; [apply (built_station w0 w1 metadata i k r Ho Hl) | reflexivity].
Qed.

Lemma new_collection_witness :
  NoDup (fst <$> Scheme.getStations (scheme_of Examples.world)) /\
  exists c w1,
    StationCollection.constructor Examples.world = Ok c w1 /\
    length (StationCollection._items c) = 3 /\
    StationCollection.getSelection c w1 = Ok [] w1.
Proof.
  split; [exact example_keys_NoDup|].
  destruct (new_collection Examples.world example_keys_NoDup)
    as (c & w1 & Hrun & _ & _ & _ & _ & Hlen & _ & _ & _ & Hsel).
  exists c, w1. repeat split; assumption.
Defined.

End NewCollection.

(** *** Moving glyphs between layers *)

Section Glyphs.

Lemma looks_appended (p c : string) (els : gmap string Element) :
  looks (appended p c els) = looks els.
Proof.
  unfold looks, appended. apply map_eq. intros k. rewrite !lookup_fmap.
  destruct (decide (p = k)) as [->|Hne].
  - rewrite lookup_alter_eq, lookup_fmap. now destruct (els !! k).
  - rewrite lookup_alter_ne, lookup_fmap by assumption. now destruct (els !! k).
Qed.

Lemma looks_restyle_rect (f : Style -> Style) (id : string) (els : gmap string Element) :
  looks (alter (fun e =>
           {| childNodes := childNodes e; style := style e; rect := f <$> rect e |}) id els)
    = alter (restyle_rect f) id (looks els).
Proof.
  unfold looks. apply map_eq. intros k. rewrite !lookup_fmap.
  destruct (decide (id = k)) as [->|Hne].
  - rewrite !lookup_alter_eq, lookup_fmap. now destruct (els !! k).
  - now rewrite !lookup_alter_ne, lookup_fmap by assumption.
Qed.

Lemma In_detach (c x : string) (l : list string) :
  In x (filter (fun c' => c' <> c) l) <-> x <> c /\ In x l.
Proof.
  rewrite <- (list_elem_of_In _ x), <- (list_elem_of_In l x), list_elem_of_filter.
  reflexivity.
Qed.

Lemma lookup_appended (p c q : string) (els : gmap string Element) :
  appended p c els !! q =
    (fun e => if decide (p = q) then Dom.attach c (Dom.detach c e) else Dom.detach c e)
      <$> (els !! q).
Proof.
  unfold appended. destruct (decide (p = q)) as [->|Hne].
  - rewrite lookup_alter_eq, lookup_fmap. now destruct (els !! q).
  - rewrite lookup_alter_ne, lookup_fmap by assumption. reflexivity.
Qed.

(** After [p.appendChild(c)], [c] is a child of [p] only. *)
Lemma placed_appended (p c : string) (els : gmap string Element) :
  is_Some (els !! p) -> placed p c (appended p c els).
Proof.
  intros [e He]. split.
  - eexists. rewrite lookup_appended, He. cbn. rewrite decide_True by reflexivity.
    split; [reflexivity|]. cbn. apply in_or_app. right. now left.
  - intros q e' Hq Hl. rewrite lookup_appended in Hl.
    destruct (els !! q) as [e0|]; [|discriminate]. cbn in Hl.
    rewrite decide_False in Hl by congruence. injection Hl as <-. cbn.
    rewrite In_detach. tauto.
Qed.

(** Appending another element leaves [c] where it is. *)
Lemma placed_appended_other (p c p' c' : string) (els : gmap string Element) :
  c <> c' -> placed p c els -> placed p c (appended p' c' els).
Proof.
  intros Hne [(e & He & Hin) Hout]. split.
  - eexists. rewrite lookup_appended, He. cbn. split; [reflexivity|].
    destruct (decide (p' = p)); cbn.
    + apply in_or_app. left. rewrite In_detach. tauto.
    + rewrite In_detach. tauto.
  - intros q e' Hq Hl. rewrite lookup_appended in Hl.
    destruct (els !! q) as [e0|] eqn:He0; [|discriminate]. cbn in Hl.
    injection Hl as <-. specialize (Hout q e0 Hq He0).
    destruct (decide (p' = q)); cbn.
    + intros H. apply in_app_or in H as [H|[H|[]]].
      * rewrite In_detach in H. tauto.
      * congruence.
    + rewrite In_detach. tauto.
Qed.

Lemma station_is_no_label (a b : Z) : "station-" +:+ pretty a <> "label-" +:+ pretty b.
Proof. intros H. rewrite !append_String in H. discriminate. Qed.

Lemma returns_write_elements (g : gmap string Element -> gmap string Element)
    (w : Station.World) (Q : unit -> Station.World -> Prop) :
  (forall els, has_rect <$> g els = has_rect <$> els) ->
  (forall w', same_but_document w w' -> view_frame w' = view_frame w ->
              document_of w' = g (document_of w) -> Q tt w') ->
  returns (Station.onSchemeNode (modify (Dom.with_elements g))) w Q.
Proof.
  intros Hg H. eexists tt, _. split; [reflexivity|].
  apply H; [|reflexivity|reflexivity]. repeat split. cbn. apply Hg.
Qed.

Lemma returns_setRectStyle_elements (r : Dom.RectRef) (f : Style -> Style)
    (w : Station.World) (Q : unit -> Station.World -> Prop) :
  (forall w', same_but_document w w' -> view_frame w' = view_frame w ->
     looks (document_of w') = alter (restyle_rect f) (Dom.owner r) (looks (document_of w)) ->
     (forall p c, placed p c (document_of w) -> placed p c (document_of w')) ->
     Q tt w') ->
  returns (Station.onSchemeNode (Dom.setRectStyle (Some r) f)) w Q.
Proof.
  destruct r as [o]. cbn [Dom.owner]. intros H.
  apply (returns_write_elements (alter (fun e =>
           {| childNodes := childNodes e; style := style e; rect := f <$> rect e |}) o)).
  - intros els. apply shape_alter. intros e. unfold has_rect. cbn. now destruct (rect e).
  - intros w' Hs Hf Hd. apply H; try assumption.
    + rewrite Hd. apply looks_restyle_rect.
    + intros p c [(e & He & Hin) Hout]. rewrite Hd. split.
      * destruct (decide (o = p)) as [->|Hne].
        -- eexists. rewrite lookup_alter_eq, He. split; [reflexivity | exact Hin].
        -- exists e. now rewrite lookup_alter_ne.
      * intros q e' Hq Hl. destruct (decide (o = q)) as [->|Hne].
        -- rewrite lookup_alter_eq in Hl.
           destruct (document_of w !! q) as [e0|] eqn:He0; [|discriminate].
           injection Hl as <-. cbn. now apply (Hout q e0).
        -- rewrite lookup_alter_ne in Hl by assumption. now apply (Hout q e').
Qed.

Lemma returns_appendChild_elements (p c : string) (w : Station.World)
    (Q : unit -> Station.World -> Prop) :
  (forall w', same_but_document w w' -> view_frame w' = view_frame w ->
     document_of w' = appended p c (document_of w) -> Q tt w') ->
  returns (Station.onSchemeNode (Dom.appendChild (Some p) (Some c))) w Q.
Proof.
  intros H. apply returns_write_elements; [|exact H].
  intros els. apply (shape_appendChild p c {| attributes := ∅; elements := els |}).
Qed.

Lemma returns_appendAll_elements (p : string) (nodes : list string) (w : Station.World)
    (Q : unit -> Station.World -> Prop) :
  is_Some (document_of w !! p) ->
  (forall w', same_but_document w w' -> view_frame w' = view_frame w ->
     looks (document_of w') = looks (document_of w) ->
     (forall c, In c nodes -> placed p c (document_of w')) ->
     (forall q c, ~ In c nodes -> placed q c (document_of w) -> placed q c (document_of w')) ->
     Q tt w') ->
  returns (forEach (Some <$> nodes) (fun element =>
             Station.onSchemeNode (Dom.appendChild (Some p) element))) w Q.
Proof.
  revert w Q. induction nodes as [|c nodes IH]; intros w Q Hp H.
  - apply returns_ret. apply H; try reflexivity.
    + apply same_but_document_refl.
    + intros c [].
    + auto.
  - cbn. apply returns_bind. apply returns_appendChild_elements. intros w1 H1 Hf1 Hd1.
    apply IH; [apply (present_same w w1); [apply H1 | exact Hp]|].
    intros w2 H2 Hf2 Hl2 Hin2 Hout2. apply H.
    + now apply (same_but_document_trans w w1 w2).
    + congruence.
    + rewrite Hl2, Hd1. apply looks_appended.
    + intros c' Hc'. destruct (in_dec String.string_dec c' nodes) as [Hi|Hni].
      * now apply Hin2.
      * destruct Hc' as [<-|Hc']; [|contradiction].
        apply Hout2; [exact Hni|]. rewrite Hd1. now apply placed_appended.
    + intros q c' Hc' Hpl. apply Hout2; [cbn in Hc'; tauto|].
      rewrite Hd1. apply placed_appended_other; [cbn in Hc'; intros ->; tauto | exact Hpl].
Qed.

Lemma returns_appendTo_elements (p : string) (nodes : list string) (w : Station.World)
    (Q : unit -> Station.World -> Prop) :
  is_Some (document_of w !! p) ->
  (forall w', same_but_document w w' -> view_frame w' = view_frame w ->
     looks (document_of w') = looks (document_of w) ->
     (forall c, In c nodes -> placed p c (document_of w')) ->
     (forall q c, ~ In c nodes -> placed q c (document_of w) -> placed q c (document_of w')) ->
     Q tt w') ->
  returns (Station._appendTo p (Some <$> nodes)) w Q.
Proof.
  intros Hp H. apply returns_bind. apply returns_getElementById; [exact Hp|].
  now apply returns_appendAll_elements.
Qed.

Lemma restyle_rect_twice (f g : Style -> Style) (id : string)
    (m : gmap string (Style * option Style)) :
  alter (restyle_rect g) id (alter (restyle_rect f) id m)
    = alter (restyle_rect (fun st => g (f st))) id m.
Proof.
  rewrite alter_alter_eq. apply alter_ext. intros [sty [st|]] _; reflexivity.
Qed.

(** What a transition does once the guard let it through, where the
    glyphs and the two layers it moves them to are in the scheme image. *)
Lemma transition_effects (this : nat) (w : Station.World) (s : Station.t)
    (b : bool) (stroke_value opacity_value stations_layer labels_layer type : string) :
  Station.objects w !! this = Some s ->
  glyphs_present w (Station.code s) ->
  is_Some (document_of w !! stations_layer) ->
  is_Some (document_of w !! labels_layer) ->
  returns
    (labelNode ← Station.getLabelNode this;
     rectNode ← Station.onSchemeNode (Dom.getElementsByTagName_rect_0 labelNode);
     Station.set_selected this b;;
     Station.onSchemeNode (Dom.setRectStyle rectNode (Dom.set_stroke stroke_value));;
     Station.onSchemeNode (Dom.setRectStyle rectNode (Dom.set_opacity opacity_value));;
     stationNodes ← Station._getStationNodes this;
     Station._appendTo stations_layer stationNodes;;
     labelNode' ← Station.getLabelNode this;
     Station._appendTo labels_layer [labelNode'];;
     Station.fire "selectionchange" type this)
    w
    (fun _ w' =>
       Station.objects w' = alter (Station.with_selected b) this (Station.objects w) /\
       Station.events w' = Station.events w ++ [selection_event type this] /\
       same_document w w' /\
       view_frame w' = view_frame w /\
       looks (document_of w')
         = alter (restyle_rect (fun st =>
                    Dom.set_opacity opacity_value (Dom.set_stroke stroke_value st)))
                 ("label-" +:+ pretty (Station.code s)) (looks (document_of w)) /\
       placed labels_layer ("label-" +:+ pretty (Station.code s)) (document_of w') /\
       forall labelMeta id,
         Scheme.getLabel (scheme_of w) (Station.code s) = Some labelMeta ->
         In id (stationIds labelMeta) ->
         placed stations_layer ("station-" +:+ pretty id) (document_of w')).
Proof.
  intros Hs Hg Hsl Hll.
  pose proof Hg as [Hlabel (labelMeta & Hmeta & Hids)].
  set (label := "label-" +:+ pretty (Station.code s)) in *.
  assert (Hl : is_Some (document_of w !! label)).
  { destruct Hlabel as (e & _ & He & _). now exists e. }
  apply returns_bind. apply (returns_getLabelNode this w s _ Hs Hl).
  apply returns_bind. apply returns_rect; [exact Hlabel|].
  apply returns_bind. apply returns_modify.
  set (w1 := {| Station.view := Station.view w;
                Station.objects := alter (Station.with_selected b) this (Station.objects w);
                Station.events := Station.events w |}).
  assert (H01 : same_document w w1) by (split; reflexivity).
  assert (Hs1 : Station.objects w1 !! this = Some (Station.with_selected b s)).
  { apply (objects_set_selected this b w s Hs). }
  apply returns_bind. apply returns_setRectStyle_elements. intros w2 H12 Hf12 Hl12 _.
  apply returns_bind. apply returns_setRectStyle_elements. intros w3 H23 Hf23 Hl23 _.
  cbn [Dom.owner] in Hl12, Hl23.
  pose proof (same_but_document_trans w1 w2 w3 H12 H23) as H13.
  assert (H03 : same_document w w3).
  { apply (same_document_trans w w1 w3); [exact H01 | apply H13]. }
  assert (Hs3 : Station.objects w3 !! this = Some (Station.with_selected b s)).
  { destruct H13 as [-> _]. exact Hs1. }
  pose proof (glyphs_present_same w w3 _ H03 Hg) as [_ (labelMeta3 & Hmeta3 & Hids3)].
  assert (labelMeta3 = labelMeta).
  { destruct H03 as [E _]. rewrite E in Hmeta3. congruence. }
  subst labelMeta3.
  apply returns_bind.
  apply (returns_getStationNodes this w3 _ labelMeta _ Hs3 Hmeta3 Hids3).
  apply returns_bind.
  apply returns_appendTo_elements; [now apply (present_same w w3)|].
  intros w4 H34 Hf34 Hl34 Hin34 _.
  pose proof (same_but_document_trans w1 w3 w4 H13 H34) as H14.
  assert (H04 : same_document w w4).
  { apply (same_document_trans w w1 w4); [exact H01 | apply H14]. }
  assert (Hs4 : Station.objects w4 !! this = Some (Station.with_selected b s)).
  { destruct H14 as [-> _]. exact Hs1. }
  apply returns_bind.
  apply (returns_getLabelNode this w4 _ _ Hs4); [now apply (present_same w w4)|].
  apply returns_bind.
  apply (returns_appendTo_elements labels_layer [_]); [now apply (present_same w w4)|].
  cbn [Station.with_selected Station.code]. fold label.
  intros w5 H45 Hf45 Hl45 Hin45 Hout45.
  pose proof (same_but_document_trans w1 w4 w5 H14 H45) as (Ho & He & Hd).
  apply returns_modify. cbn. rewrite Ho, He.
  split; [reflexivity|]. split; [reflexivity|].
  split; [apply (same_document_trans w w1 w5 H01 Hd)|].
  split; [change (view_frame w5 = view_frame w1); congruence|].
  split; [|split].
  - match goal with |- _ = ?rhs => change (looks (document_of w5) = rhs) end.
    rewrite Hl45, Hl34, Hl23, Hl12. apply restyle_rect_twice.
  - apply Hin45. now left.
  - intros labelMeta' id Hmeta' Hid.
    change (placed stations_layer ("station-" +:+ pretty id) (document_of w5)).
    assert (labelMeta' = labelMeta) by congruence. subst labelMeta'.
    apply Hout45.
    + intros [H|[]]. symmetry in H. now apply station_is_no_label in H.
    + apply Hin34. unfold station_nodes. apply in_map_iff. now exists id.
Qed.

End Glyphs.

(** *** The effects of [select] and [deselect] *)

Section Effects.

(** X13: [select] on an unselected station whose glyphs and layers are in the
    scheme image returns. It sets the flag of this station and of no
    other, fires one [selectionchange] event of type [select], gives the
    rect of the label the stroke [#bbb] and the opacity 1 and changes no
    other style, and leaves the label a child of the highlight layer of
    labels only and each station glyph of the label a child of the
    highlight layer of stations only; the scheme, the geometry of the view
    and its root node are as before. *)
Theorem select_effects (this : nat) (w : Station.World) (s : Station.t) :
  Station.objects w !! this = Some s ->
  Station.selected s = false ->
  glyphs_present w (Station.code s) ->
  layers_present w ->
  returns (Station.select this) w
    (fun _ w' =>
       Station.objects w' = alter (Station.with_selected true) this (Station.objects w) /\
       Station.events w' = Station.events w ++ [selection_event "select" this] /\
       same_document w w' /\
       view_frame w' = view_frame w /\
       looks (document_of w')
         = alter (restyle_rect (fun _ => {| stroke := "#bbb"; opacity := "1" |}))
                 ("label-" +:+ pretty (Station.code s)) (looks (document_of w)) /\
       placed "highlight-layer-labels" ("label-" +:+ pretty (Station.code s))
              (document_of w') /\
       forall labelMeta id,
         Scheme.getLabel (scheme_of w) (Station.code s) = Some labelMeta ->
         In id (stationIds labelMeta) ->
         placed "highlight-layer-stations" ("station-" +:+ pretty id) (document_of w')).
Proof.
  intros Hs Hsel Hg Hlayers.
  unfold Station.select. apply returns_bind. apply (returns_deref this w s _ Hs).
  rewrite Hsel. cbn [negb].
  unfold layers_present in Hlayers. rewrite !Forall_cons in Hlayers.
  destruct Hlayers as (H1 & H2 & _).
  exact (transition_effects this w s true _ _ _ _ _ Hs Hg H1 H2).
Qed.

(** X14: [deselect] on a selected station is the mirror image: the flag is
    cleared, one event of type [deselect] is fired, the stroke and the
    opacity of the rect of the label are reset to the empty value, and the
    glyphs end up in the scheme layers. *)
Theorem deselect_effects (this : nat) (w : Station.World) (s : Station.t) :
  Station.objects w !! this = Some s ->
  Station.selected s = true ->
  glyphs_present w (Station.code s) ->
  layers_present w ->
  returns (Station.deselect this) w
    (fun _ w' =>
       Station.objects w' = alter (Station.with_selected false) this (Station.objects w) /\
       Station.events w' = Station.events w ++ [selection_event "deselect" this] /\
       same_document w w' /\
       view_frame w' = view_frame w /\
       looks (document_of w')
         = alter (restyle_rect (fun _ => {| stroke := ""; opacity := "" |}))
                 ("label-" +:+ pretty (Station.code s)) (looks (document_of w)) /\
       placed "scheme-layer-labels" ("label-" +:+ pretty (Station.code s))
              (document_of w') /\
       forall labelMeta id,
         Scheme.getLabel (scheme_of w) (Station.code s) = Some labelMeta ->
         In id (stationIds labelMeta) ->
         placed "scheme-layer-stations" ("station-" +:+ pretty id) (document_of w')).
Proof.
  intros Hs Hsel Hg Hlayers.
  unfold Station.deselect. apply returns_bind. apply (returns_deref this w s _ Hs).
  rewrite Hsel.
  unfold layers_present in Hlayers. rewrite !Forall_cons in Hlayers.
  destruct Hlayers as (_ & _ & H3 & H4 & _).
  exact (transition_effects this w s false _ _ _ _ _ Hs Hg H3 H4).
Qed.

Lemma with_selected_back (objs : list Station.t) (this : nat) (s : Station.t) :
  objs !! this = Some s -> Station.selected s = false ->
  alter (Station.with_selected false) this (alter (Station.with_selected true) this objs)
    = objs.
Proof.
  intros Hs Hsel. rewrite list_alter_alter_eq. apply list_eq. intros j.
  rewrite list_lookup_alter. destruct (decide (this = j)) as [<-|]; [|reflexivity].
  rewrite Hs. cbn. f_equal. destruct s. cbn in Hsel. now subst.
Qed.

(** X15: [select] followed by [deselect] gives every station its flag back and
    returns the glyphs to the scheme layers; two events were fired, and
    the rect of the label has the empty stroke and opacity, which is what
    it had if it had no inline style. *)
Theorem select_then_deselect (this : nat) (w : Station.World) (s : Station.t) :
  Station.objects w !! this = Some s ->
  Station.selected s = false ->
  glyphs_present w (Station.code s) ->
  layers_present w ->
  returns (Station.select this;; Station.deselect this) w
    (fun _ w' =>
       Station.objects w' = Station.objects w /\
       Station.events w' = Station.events w ++
         [selection_event "select" this; selection_event "deselect" this] /\
       view_frame w' = view_frame w /\
       looks (document_of w')
         = alter (restyle_rect (fun _ => {| stroke := ""; opacity := "" |}))
                 ("label-" +:+ pretty (Station.code s)) (looks (document_of w)) /\
       placed "scheme-layer-labels" ("label-" +:+ pretty (Station.code s))
              (document_of w') /\
       forall labelMeta id,
         Scheme.getLabel (scheme_of w) (Station.code s) = Some labelMeta ->
         In id (stationIds labelMeta) ->
         placed "scheme-layer-stations" ("station-" +:+ pretty id) (document_of w')).
Proof.
  intros Hs Hsel Hg Hlayers. apply returns_bind.
  pose proof Hlayers as Hl0. unfold layers_present in Hl0. rewrite !Forall_cons in Hl0.
  destruct Hl0 as (H1 & H2 & _).
  unfold Station.select. apply returns_bind. apply (returns_deref this w s _ Hs).
  rewrite Hsel. cbn [negb].
  apply (returns_mono _ _ _ _ (transition_effects this w s true _ _ _ _ _ Hs Hg H1 H2)).
  intros [] w1 (Ho1 & He1 & Hd1 & Hf1 & Hl1 & _).
  assert (Hs1 : Station.objects w1 !! this = Some (Station.with_selected true s)).
  { rewrite Ho1, list_lookup_alter_eq, Hs. reflexivity. }
  pose proof (glyphs_present_same w w1 _ Hd1 Hg) as Hg1.
  pose proof (layers_present_same w w1 Hd1 Hlayers) as Hlayers1.
  unfold layers_present in Hlayers1. rewrite !Forall_cons in Hlayers1.
  destruct Hlayers1 as (_ & _ & H3 & H4 & _).
  unfold Station.deselect. apply returns_bind.
  apply (returns_deref this w1 (Station.with_selected true s) _ Hs1).
  cbn [Station.selected Station.with_selected].
  apply (returns_mono _ _ _ _
           (transition_effects this w1 (Station.with_selected true s) false _ _ _ _ _
              Hs1 Hg1 H3 H4)).
  intros [] w2 (Ho2 & He2 & Hd2 & Hf2 & Hl2 & Hpl & Hps).
  cbn [Station.with_selected Station.code] in *.
  split; [rewrite Ho2, Ho1; now apply (with_selected_back _ _ s)|].
  split; [rewrite He2, He1, <- app_assoc; reflexivity|].
  split; [congruence|].
  split; [rewrite Hl2, Hl1; apply restyle_rect_twice|].
  split; [exact Hpl|].
  intros labelMeta id Hm Hid. apply (Hps labelMeta id); [|exact Hid].
  destruct Hd1 as [E _]. now rewrite E.
Qed.

Lemma built_glyphs_present : glyphs_present Examples.built_world 2.
Proof.
  split;
    [eexists _, _; split; reflexivity
    |eexists; split; [reflexivity|]; intros id [<-|[]]; eexists; reflexivity].
Defined.

Lemma built_layers_present : layers_present Examples.built_world.
Proof. repeat constructor; eexists; reflexivity. Defined.

Lemma selected_glyphs_present : glyphs_present Examples.selected_world 2.
Proof.
  split;
    [eexists _, _; split; reflexivity
    |eexists; split; [reflexivity|]; intros id [<-|[]]; eexists; reflexivity].
Defined.

Lemma selected_layers_present : layers_present Examples.selected_world.
Proof. repeat constructor; eexists; reflexivity. Defined.

Lemma select_effects_witness :
  Station.objects Examples.built_world !! 0
    = Some (Station.fields {| labelId := 2; name := "Central Park" |}) /\
  glyphs_present Examples.built_world 2 /\
  layers_present Examples.built_world /\
  exists w',
    Station.select 0 Examples.built_world = Ok tt w' /\
    Station.events w' = [selection_event "select" 0] /\
    placed "highlight-layer-labels" "label-2" (document_of w').
Proof.
  split; [reflexivity|]. split; [exact built_glyphs_present|].
  split; [exact built_layers_present|].
  destruct (select_effects 0 Examples.built_world
              (Station.fields {| labelId := 2; name := "Central Park" |})
              eq_refl eq_refl built_glyphs_present built_layers_present)
    as ([] & w' & Hrun & _ & He & _ & _ & _ & Hpl & _).
  exists w'. split; [exact Hrun|]. split; [exact He | exact Hpl].
Defined.

Lemma deselect_effects_witness :
  Station.objects Examples.selected_world !! 0
    = Some (Station.with_selected true
              (Station.fields {| labelId := 2; name := "Central Park" |})) /\
  glyphs_present Examples.selected_world 2 /\
  layers_present Examples.selected_world /\
  exists w',
    Station.deselect 0 Examples.selected_world = Ok tt w' /\
    Station.events w' = [selection_event "select" 0; selection_event "deselect" 0] /\
    placed "scheme-layer-labels" "label-2" (document_of w').
Proof.
  split; [reflexivity|]. split; [exact selected_glyphs_present|].
  split; [exact selected_layers_present|].
  destruct (deselect_effects 0 Examples.selected_world
              (Station.with_selected true
                 (Station.fields {| labelId := 2; name := "Central Park" |}))
              eq_refl eq_refl selected_glyphs_present selected_layers_present)
    as ([] & w' & Hrun & _ & He & _ & _ & _ & Hpl & _).
  exists w'. split; [exact Hrun|]. split; [exact He | exact Hpl].
Defined.

Lemma select_then_deselect_witness :
  Station.objects Examples.built_world !! 0
    = Some (Station.fields {| labelId := 2; name := "Central Park" |}) /\
  glyphs_present Examples.built_world 2 /\
  layers_present Examples.built_world /\
  exists w',
    (Station.select 0;; Station.deselect 0) Examples.built_world = Ok tt w' /\
    Station.objects w' = Station.objects Examples.built_world.
Proof.
  split; [reflexivity|]. split; [exact built_glyphs_present|].
  split; [exact built_layers_present|].
  destruct (select_then_deselect 0 Examples.built_world
              (Station.fields {| labelId := 2; name := "Central Park" |})
              eq_refl eq_refl built_glyphs_present built_layers_present)
    as ([] & w' & Hrun & Ho & _).
  exists w'. split; assumption.
Defined.

End Effects.

(** *** A transition that fails half-way *)

Section HalfWay.

Context {B : Type} (proj : Station.World -> B).

Lemma keeps_throws_keeping {A} (m : M Station.World A) :
  keeps proj m -> throws_keeping proj m.
Proof. intros H w e w' Hm. specialize (H w). now rewrite Hm in H. Qed.

Lemma throws_keeping_bind {A C} (m : M Station.World A) (f : A -> M Station.World C) :
  keeps proj m -> (forall a, throws_keeping proj (f a)) -> throws_keeping proj (m ≫= f).
Proof.
  intros Hm Hf w e w' H. unfold mbind, M_bind in H. specialize (Hm w).
  destruct (m w) as [a w1|e1 w1]; cbn in Hm.
  - rewrite <- Hm. now apply (Hf a w1 e w').
  - injection H as _ <-. exact Hm.
Qed.

Lemma throws_keeping_fire (name type : string) (this : nat) :
  throws_keeping proj (Station.fire name type this).
Proof. intros w e w' H. discriminate. Qed.

End HalfWay.

Section Failure.

Lemma highlight_keeps_objects (this : nat) (rectNode : option Dom.RectRef) :
  keeps Station.objects (highlight this rectNode).
Proof.
  assert (Hd : off_document Station.objects) by (intros n w; reflexivity).
  unfold highlight.
  apply keeps_bind; [now apply keeps_onSchemeNode | intros _].
  apply keeps_bind; [now apply keeps_onSchemeNode | intros _].
  apply keeps_bind; [now apply keeps_getStationNodes | intros nodes].
  apply keeps_bind; [now apply keeps_appendTo | intros _].
  apply keeps_bind; [now apply keeps_getLabelNode | intros labelNode'].
  apply keeps_bind; [now apply keeps_appendTo | intros _].
  intros w. reflexivity.
Qed.

Lemma highlight_throws_keeping_events (this : nat) (rectNode : option Dom.RectRef) :
  throws_keeping Station.events (highlight this rectNode).
Proof.
  assert (Hd : off_document Station.events) by (intros n w; reflexivity).
  unfold highlight.
  apply throws_keeping_bind; [now apply keeps_onSchemeNode | intros _].
  apply throws_keeping_bind; [now apply keeps_onSchemeNode | intros _].
  apply throws_keeping_bind; [now apply keeps_getStationNodes | intros nodes].
  apply throws_keeping_bind; [now apply keeps_appendTo | intros _].
  apply throws_keeping_bind; [now apply keeps_getLabelNode | intros labelNode'].
  apply throws_keeping_bind; [now apply keeps_appendTo | intros _].
  apply throws_keeping_fire.
Qed.

Lemma getLabelNode_reads (this : nat) (w : Station.World) (s : Station.t) :
  Station.objects w !! this = Some s ->
  Station.getLabelNode this w
    = Ok (match document_of w !! ("label-" +:+ pretty (Station.code s)) with
          | Some _ => Some ("label-" +:+ pretty (Station.code s))
          | None => None
          end) w.
Proof.
  intros Hs. unfold Station.getLabelNode, mbind, M_bind, Station.deref. rewrite Hs.
  unfold Station.onSchemeNode, SchemeView.onSchemeNode, within, Dom.getElementById, gets.
  now rewrite put_same.
Qed.

(** X16: When [select] on an unselected station throws, no event has been
    fired. If the label group of the station is missing nothing at all
    has changed; otherwise the flag of the station is already set (a
    label group without a rect stops the method right there, before any
    style or glyph is touched), and a second [select] returns without
    doing anything. *)
Theorem failed_select_leaves_flag
    (this : nat) (w : Station.World) (s : Station.t) (e : Error) (w' : Station.World) :
  Station.objects w !! this = Some s ->
  Station.selected s = false ->
  Station.select this w = Throw e w' ->
  Station.events w' = Station.events w /\
  match document_of w !! ("label-" +:+ pretty (Station.code s)) with
  | None => e = TypeError "getElementsByTagName" /\ w' = w
  | Some label =>
      Station.objects w' = alter (Station.with_selected true) this (Station.objects w) /\
      Station.select this w' = Ok tt w' /\
      (rect label = None ->
       e = TypeError "style" /\ Station.view w' = Station.view w)
  end.
Proof.
  intros Hs Hsel Hthrow.
  unfold Station.select, mbind, M_bind, Station.deref in Hthrow.
  rewrite Hs, Hsel in Hthrow. cbn [negb] in Hthrow.
  fold (@mbind (M Station.World) _) in Hthrow.
  rewrite (getLabelNode_reads this w s Hs) in Hthrow.
  destruct (document_of w !! ("label-" +:+ pretty (Station.code s))) as [label|] eqn:Hl.
  - unfold Station.onSchemeNode at 1, SchemeView.onSchemeNode at 1, within,
      Dom.getElementsByTagName_rect_0, gets in Hthrow.
    unfold document_of, SchemeView.getSchemeNode in Hl. rewrite Hl, put_same in Hthrow.
    unfold Station.set_selected at 1, modify in Hthrow.
    set (w1 := {| Station.view := Station.view w;
                  Station.objects := alter (Station.with_selected true) this (Station.objects w);
                  Station.events := Station.events w |}) in Hthrow.
    set (rectNode := match rect label with
                     | Some _ => Some {| Dom.owner := "label-" +:+ pretty (Station.code s) |}
                     | None => None
                     end) in Hthrow.
    change (highlight this rectNode w1 = Throw e w') in Hthrow.
    pose proof (highlight_throws_keeping_events this rectNode w1 e w' Hthrow) as He.
    pose proof (highlight_keeps_objects this rectNode w1) as Ho.
    rewrite Hthrow in Ho. cbn in Ho, He.
    split; [exact He|]. split; [exact Ho|]. split.
    + apply (select_when_selected this w' (Station.with_selected true s)); [|reflexivity].
      rewrite Ho, list_lookup_alter_eq, Hs. reflexivity.
    + intros Hr. subst rectNode. rewrite Hr in Hthrow.
      unfold highlight, mbind, M_bind in Hthrow.
      unfold Station.onSchemeNode at 1, SchemeView.onSchemeNode at 1, within,
        Dom.setRectStyle, throw in Hthrow.
      injection Hthrow as <- <-. split; [reflexivity | apply set_schemeNode_same].
  - unfold Station.onSchemeNode, SchemeView.onSchemeNode, within,
      Dom.getElementsByTagName_rect_0, throw in Hthrow.
    rewrite put_same in Hthrow. injection Hthrow as <- <-. repeat split.
Qed.

Lemma failed_select_leaves_flag_witness :
  Station.objects Examples.rectless_world !! 0
    = Some (Station.fields {| labelId := 2; name := "Central Park" |}) /\
  exists w',
    Station.select 0 Examples.rectless_world = Throw (TypeError "style") w' /\
    Station.events w' = [] /\
    flags w' = [true; false; false].
Proof.
  split; [reflexivity|].
  eexists. split; [reflexivity|].
  destruct (failed_select_leaves_flag 0 Examples.rectless_world
              (Station.fields {| labelId := 2; name := "Central Park" |})
              _ _ eq_refl eq_refl eq_refl) as [He _].
  split; [exact He | reflexivity].
Defined.

End Failure.

(** *** Series of batch calls *)

Section Batches.

Context (c : StationCollection.t) (w0 : Station.World).
Context (metadata : list (Z * StationMeta)) (off : nat).
Context (Hnd : NoDup (fst <$> metadata)).
Context (Hkeys : forall i k r, metadata !! i = Some (k, r) ->
                   StationCollection.getByCode c k = Some (off + i)).
Context (Hlayers : layers_present w0).


Lemma same_index (i j : nat) (k : Z) (r r' : StationMeta) :
  metadata !! i = Some (k, r) -> metadata !! j = Some (k, r') -> i = j.
Proof.
  intros Hi Hj. apply (NoDup_lookup (fst <$> metadata) i j k Hnd);
    rewrite list_lookup_fmap; [now rewrite Hi | now rewrite Hj].
Qed.

Lemma one_code_returns (b : bool) (sel : Z -> bool) (w : Station.World)
    (j : nat) (code : Z) (r : StationMeta) :
  metadata !! j = Some (code, r) ->
  glyphs_present w0 (labelId r) ->
  selection_is w0 metadata off sel w ->
  returns (if b then Station.select (off + j) else Station.deselect (off + j)) w
    (fun _ w' => selection_is w0 metadata off (fun k => if Z.eqb k code then b else sel k) w').
Proof.
  intros Hj Hg [Hd Hall].
  destruct (Hall j code r Hj) as (s & Hs & Hc & Hsel).
  assert (Hg' : glyphs_present w (Station.code s)).
  { rewrite Hc. now apply (glyphs_present_same w0 w). }
  pose proof (layers_present_same w0 w Hd Hlayers) as Hl'.
  assert (Hkeep : Station.selected s = b ->
            selection_is w0 metadata off (fun k => if Z.eqb k code then b else sel k) w).
  { intros Hb. split; [exact Hd|]. intros i k r' Hi.
    destruct (Hall i k r' Hi) as (s' & Hs' & Hc' & Hsel').
    exists s'. split; [exact Hs'|]. split; [exact Hc'|].
    destruct (Z.eqb_spec k code) as [->|]; [|exact Hsel'].
    assert (i = j) by now apply (same_index i j code r' r). subst i.
    rewrite Hs in Hs'. injection Hs' as <-. exact Hb. }
  assert (Hflip : forall w',
            Station.objects w' = alter (Station.with_selected b) (off + j) (Station.objects w) ->
            same_document w w' ->
            selection_is w0 metadata off (fun k => if Z.eqb k code then b else sel k) w').
  { intros w' Ho Hd'. split; [now apply (same_document_trans w0 w w')|].
    intros i k r' Hi. destruct (Hall i k r' Hi) as (s' & Hs' & Hc' & Hsel').
    destruct (lookup_with_selected _ (off + j) _ b _ Hs') as (s'' & Hs'' & Hc'' & Hf'').
    rewrite <- Ho in Hs''. exists s''. split; [exact Hs''|]. split; [congruence|].
    rewrite Hf''. destruct (Z.eqb_spec k code) as [->|Hne].
    - assert (i = j) by now apply (same_index i j code r' r). subst i.
      now rewrite decide_True.
    - rewrite decide_False; [exact Hsel'|]. intros E.
      assert (j = i) by lia. subst i. rewrite Hj in Hi. congruence. }
  destruct b.
  - destruct (Station.selected s) eqn:Hflag.
    + exists tt, w. split; [now apply (select_when_selected _ w s)|]. now apply Hkeep.
    + now apply (returns_select _ w s).
  - destruct (Station.selected s) eqn:Hflag.
    + now apply (returns_deselect _ w s).
    + exists tt, w. split; [now apply (deselect_when_unselected _ w s)|]. now apply Hkeep.
Qed.

Lemma codes_return (b : bool) (codes : list Z) :
  known_codes w0 metadata codes ->
  forall sel w,
    selection_is w0 metadata off sel w ->
    returns
      (forEach codes (fun code =>
         match StationCollection.getByCode c code with
         | None => throw (TypeError (if b then "select" else "deselect"))
         | Some station => if b then Station.select station else Station.deselect station
         end)) w
      (fun _ w' =>
         selection_is w0 metadata off (fun k => if existsb (Z.eqb k) codes then b else sel k) w').
Proof.
  induction 1 as [|code codes (r & Hin & Hg) _ IH]; intros sel w Hinv.
  - exists tt, w. split; [reflexivity|]. exact Hinv.
  - apply list_elem_of_In, list_elem_of_lookup in Hin as [j Hj].
    cbn [forEach]. apply returns_bind. rewrite (Hkeys j code r Hj).
    apply (returns_mono _ _ _ _ (one_code_returns b sel w j code r Hj Hg Hinv)).
    intros [] w1 Hinv1.
    apply (returns_mono _ _ _ _ (IH _ w1 Hinv1)).
    intros [] w2 [Hd Hall]. split; [exact Hd|].
    intros i k r' Hi. destruct (Hall i k r' Hi) as (s & Hs & Hc & Hsel).
    exists s. split; [exact Hs|]. split; [exact Hc|].
    rewrite Hsel. cbn [existsb]. destruct (existsb (Z.eqb k) codes); [now rewrite orb_true_r|].
    now rewrite orb_false_r.
Qed.

Lemma batch_returns (call : Batch) :
  known_codes w0 metadata (batch_codes call) ->
  forall sel w,
    selection_is w0 metadata off sel w ->
    returns (batch c call) w
      (fun _ w' => selection_is w0 metadata off (fun k => last_listed (sel k) [call] k) w').
Proof.
  intros Hk sel w Hinv. destruct call as [codes|codes].
  - exact (codes_return true (Array_concat codes) Hk sel w Hinv).
  - exact (codes_return false (Array_concat codes) Hk sel w Hinv).
Qed.

Lemma batches_return (calls : list Batch) :
  Forall (fun call => known_codes w0 metadata (batch_codes call)) calls ->
  forall sel w,
    selection_is w0 metadata off sel w ->
    returns (forEach calls (batch c)) w
      (fun _ w' => selection_is w0 metadata off (fun k => last_listed (sel k) calls k) w').
Proof.
  induction 1 as [|call calls Hk _ IH]; intros sel w Hinv.
  - exists tt, w. split; [reflexivity|]. exact Hinv.
  - cbn [forEach]. apply returns_bind.
    apply (returns_mono _ _ _ _ (batch_returns call Hk sel w Hinv)).
    intros [] w1 Hinv1. exact (IH _ w1 Hinv1).
Qed.

Lemma selection_listed (sel : Z -> bool) (w : Station.World) :
  StationCollection._items c = seq off (length metadata) ->
  selection_is w0 metadata off sel w ->
  StationCollection.getSelection c w
    = Ok ((fun kr => labelId (snd kr)) <$> List.filter (fun kr => sel (fst kr)) metadata) w.
Proof.
  intros Hitems [_ Hall].
  rewrite (getSelection_labelIds c w metadata off Hitems Hkeys).
  - f_equal. f_equal. apply filter_ext_in. intros [k r] Hin. cbn [fst].
    apply list_elem_of_In, list_elem_of_lookup in Hin as [i Hi].
    destruct (Hall i k r Hi) as (s & Hs & _ & Hsel).
    unfold selected_at. now rewrite (Hkeys i k r Hi), Hs.
  - intros i k r Hi. destruct (Hall i k r Hi) as (s & Hs & Hc & _). now exists s.
Qed.

End Batches.

(** *** Unknown and known codes *)

Section KnownCodes.




End KnownCodes.

(** *** The last call decides *)

(** X17: Whatever series of [select] and [deselect] calls is made on a new
    collection, with single codes or arrays, repeated or not, each call
    returns as long as the codes are keys of the metadata whose glyphs
    are in the image, and [getSelection] then lists, in metadata order,
    the label ids of the keys whose last listing was in a [select]. *)
Theorem last_batch_call_decides (w0 : Station.World) (calls : list Batch) :
  let metadata := Scheme.getStations (scheme_of w0) in
  NoDup (fst <$> metadata) ->
  layers_present w0 ->
  Forall (fun call => known_codes w0 metadata (batch_codes call)) calls ->
  exists w',
    (c ← StationCollection.constructor;
     forEach calls (batch c);;
     StationCollection.getSelection c) w0
    = Ok ((fun kr => labelId (snd kr)) <$>
            List.filter (fun kr => last_listed false calls (fst kr)) metadata) w'.
Proof.
  intros metadata Hnd Hl Hknown.
  destruct (constructor_returns w0) as (c & w1 & Hrun & Hv & He & Ho & Hi & Hout & Hin).
  fold metadata in Ho, Hi, Hout, Hin. specialize (Hin Hnd).
  set (off := length (Station.objects w0)) in *.
  assert (Hd : same_document w0 w1) by (unfold same_document, scheme_of; now rewrite Hv).
  assert (Hstart : selection_is w1 metadata off (fun _ => false) w1).
  { split; [apply same_document_refl|]. intros i k r Hl'. exists (Station.fields r).
    split; [|split; reflexivity]. unfold off.
    apply (built_station w0 w1 metadata i k r Ho Hl'). }
  destruct (batches_return c w1 metadata off Hnd Hin (layers_present_same w0 w1 Hd Hl) calls)
    with (sel := fun _ : Z => false) (w := w1) as ([] & w2 & Hcalls & Hinv).
  - eapply Forall_impl; [exact Hknown|]. intros call Hcall.
    eapply Forall_impl; [exact Hcall|]. intros code (r & Hr & Hg).
    exists r. split; [exact Hr|]. now apply (glyphs_present_same w0 w1).
  - exact Hstart.
  - exists w2. unfold mbind, M_bind. rewrite Hrun, Hcalls.
    exact (selection_listed c w1 metadata off Hin (fun k => last_listed false calls k) w2 Hi Hinv).
Qed.

Lemma last_batch_call_decides_witness :
  NoDup (fst <$> Scheme.getStations (scheme_of Examples.world)) /\
  layers_present Examples.world /\
  exists w',
    (c ← StationCollection.constructor;
     forEach [BatchSelect (CodeArray [7%Z; 2%Z; 7%Z]); BatchDeselect (Code 2%Z);
              BatchDeselect (Code 5%Z); BatchSelect (CodeArray [5%Z])] (batch c);;
     StationCollection.getSelection c) Examples.world
    = Ok [5%Z; 7%Z] w'.
Proof.
  split; [exact example_keys_NoDup|]. split; [exact example_layers_present|].
  refine (last_batch_call_decides Examples.world
            [BatchSelect (CodeArray [7%Z; 2%Z; 7%Z]); BatchDeselect (Code 2%Z);
             BatchDeselect (Code 5%Z); BatchSelect (CodeArray [5%Z])]
            example_keys_NoDup example_layers_present _).
  repeat constructor;
    (eexists; split; [cbn; eauto | apply example_glyphs_present; cbn; tauto]).
Defined.

(** *** The position of a station *)

Section Position.

Lemma getNode_reads (this : nat) (w : Station.World) (s : Station.t) :
  Station.objects w !! this = Some s ->
  Station.getNode this w
    = Ok (match document_of w !! ("station-" +:+ pretty (Station.code s)) with
          | Some _ => Some ("station-" +:+ pretty (Station.code s))
          | None => None
          end) w.
Proof.
  intros Hs. unfold Station.getNode, mbind, M_bind, Station.deref. rewrite Hs.
  unfold Station.onSchemeNode, SchemeView.onSchemeNode, within, Dom.getElementById, gets.
  now rewrite put_same.
Qed.



(** X19: [getPosition] throws a TypeError and changes nothing when the station
    is on no map, and also on a map when the image has no element
    [station-<code>], the code of a station being the id of its label. *)
Theorem getPosition_throws_without_map_or_glyph
    (map : option HostMap) (this : nat) (w : Station.World) (s : Station.t) :
  Station.objects w !! this = Some s ->
  map = None \/ document_of w !! ("station-" +:+ pretty (Station.code s)) = None ->
  Station.getPosition map this w
  = Throw (TypeError (match map with None => "options" | Some _ => "getBBox" end)) w.
Proof.
  intros Hs H.
  unfold Station.getPosition, mbind, M_bind. rewrite (getNode_reads this w s Hs).
  unfold Station._getGeoBBox, mbind, M_bind, gets.
  destruct map as [host|]; [|reflexivity].
  destruct H as [H|H]; [discriminate|]. now rewrite H.
Qed.

Lemma getPosition_throws_without_map_or_glyph_witness :
  Station.objects (state_of (StationCollection.constructor Examples.shared_world)) !! 0
    = Some (Station.fields {| labelId := 7; name := "Kievskaya" |}) /\
  (Some Examples.host = None \/
   document_of (state_of (StationCollection.constructor Examples.shared_world))
     !! ("station-" +:+ pretty 7%Z) = None) /\
  Station.getPosition (Some Examples.host) 0
    (state_of (StationCollection.constructor Examples.shared_world))
  = Throw (TypeError "getBBox") (state_of (StationCollection.constructor Examples.shared_world)).
Proof.
  assert (Hs : Station.objects (state_of (StationCollection.constructor Examples.shared_world)) !! 0
               = Some (Station.fields {| labelId := 7; name := "Kievskaya" |}))
    by reflexivity.
  assert (Hn : Some Examples.host = None \/
               document_of (state_of (StationCollection.constructor Examples.shared_world))
                 !! ("station-" +:+ pretty 7%Z) = None)
    by (right; vm_compute; reflexivity).
  split; [exact Hs|]. split; [exact Hn|].
  exact (getPosition_throws_without_map_or_glyph (Some Examples.host) 0 _ _ Hs Hn).
Defined.

End Position.

(** *** Clicks *)

Section Clicks.

Lemma with_selected_same (s : Station.t) :
  Station.with_selected (Station.selected s) s = s.
Proof. now destruct s. Qed.

Lemma alter_with_selected_same (objs : list Station.t) (this : nat) (s : Station.t) :
  objs !! this = Some s ->
  alter (Station.with_selected (Station.selected s)) this objs = objs.
Proof.
  intros Hs. apply list_eq. intros j. rewrite list_lookup_alter.
  destruct (decide (this = j)) as [<-|]; [|reflexivity].
  rewrite Hs. cbn. now rewrite with_selected_same.
Qed.

Lemma odd_flips (b : bool) (i : nat) :
  xorb b (Nat.odd (S i)) = xorb (negb b) (Nat.odd i).
Proof. rewrite Nat.odd_succ, <- Nat.negb_odd. now destruct b, (Nat.odd i). Qed.

(** X20: The click listener of a station toggles it: [n] clicks on a station
    whose glyphs and layers are in the image all return, leave the
    station selected when it was and [n] is even or it was not and [n] is
    odd, touch the flag of no other station, and fire [n] events, of type
    [select] and [deselect] in turn. *)
Theorem clicks_toggle (n : nat) (this : nat) (w : Station.World) (s : Station.t) :
  Station.objects w !! this = Some s ->
  glyphs_present w (Station.code s) ->
  layers_present w ->
  returns (forEach (replicate n this) Station.onClick) w
    (fun _ w' =>
       Station.objects w'
         = alter (Station.with_selected (xorb (Station.selected s) (Nat.odd n))) this
                 (Station.objects w) /\
       Station.events w'
         = Station.events w ++
             ((fun i => selection_event
                          (if xorb (Station.selected s) (Nat.odd i)
                           then "deselect" else "select") this) <$> seq 0 n) /\
       same_document w w').
Proof.
  revert w s. induction n as [|n IH]; intros w s Hs Hg Hl.
  - exists tt, w. split; [reflexivity|]. cbn [Nat.odd]. rewrite xorb_false_r.
    split; [now rewrite alter_with_selected_same|].
    split; [now rewrite app_nil_r | apply same_document_refl].
  - cbn [replicate forEach]. apply returns_bind.
    assert (Hclick : returns (Station.onClick this) w
              (fun _ w1 =>
                 Station.objects w1
                   = alter (Station.with_selected (negb (Station.selected s))) this
                           (Station.objects w) /\
                 Station.events w1
                   = Station.events w ++
                       [selection_event (if Station.selected s then "deselect" else "select")
                                        this] /\
                 same_document w w1)).
    { unfold Station.onClick. apply returns_bind. apply (returns_deref this w s _ Hs).
      destruct (Station.selected s) eqn:Hsel.
      - exact (deselect_returns this w s Hs Hsel Hg Hl).
      - exact (select_returns this w s Hs Hsel Hg Hl). }
    apply (returns_mono _ _ _ _ Hclick). intros [] w1 (Ho1 & He1 & Hd1).
    assert (Hs1 : Station.objects w1 !! this
                  = Some (Station.with_selected (negb (Station.selected s)) s)).
    { rewrite Ho1, list_lookup_alter_eq, Hs. reflexivity. }
    apply (returns_mono _ _ _ _
             (IH w1 _ Hs1 (glyphs_present_same w w1 _ Hd1 Hg) (layers_present_same w w1 Hd1 Hl))).
    intros [] w2 (Ho2 & He2 & Hd2). cbn [Station.selected Station.with_selected] in Ho2, He2.
    split; [|split; [|now apply (same_document_trans w w1 w2)]].
    + rewrite Ho2, Ho1, list_alter_alter_eq, odd_flips. apply list_alter_ext; [|reflexivity].
      intros x _. reflexivity.
    + rewrite He2, He1, <- app_assoc. f_equal.
      cbn [seq fmap list_fmap Nat.odd]. rewrite xorb_false_r. cbn [app]. f_equal.
      rewrite <- fmap_S_seq, <- list_fmap_compose. apply list_fmap_ext.
      intros i x _. cbn. now rewrite odd_flips.
Qed.

Lemma clicks_toggle_witness :
  Station.objects Examples.built_world !! 0
    = Some (Station.fields {| labelId := 2; name := "Central Park" |}) /\
  glyphs_present Examples.built_world 2 /\
  layers_present Examples.built_world /\
  exists w',
    forEach (replicate 3 0) Station.onClick Examples.built_world = Ok tt w' /\
    Station.objects w'
      = alter (Station.with_selected true) 0 (Station.objects Examples.built_world).
Proof.
  assert (Hs : Station.objects Examples.built_world !! 0
               = Some (Station.fields {| labelId := 2; name := "Central Park" |}))
    by reflexivity.
  split; [exact Hs|]. split; [exact built_glyphs_present|].
  split; [exact built_layers_present|].
  destruct (clicks_toggle 3 0 Examples.built_world _ Hs built_glyphs_present
              built_layers_present) as ([] & w' & Hrun & Ho & _).
  exists w'. split; [exact Hrun | exact Ho].
Defined.

End Clicks.

(** *** The initial zoom *)

Section InitialZoom.

Local Open Scope R_scope.

(** X21: [new TransportMap] throws exactly when the state carries no zoom and
    there is no container: none under the given id, or [null] itself. A
    state with a zoom hides a missing container from the constructor. *)
Theorem constructor_throws_iff (document : gmap string HtmlElement) (city : string)
    (container : Container) (state : State) (options : Options) :
  (exists e, TransportMap.constructor document city container state options
             = TransportMap.Thrown e)
  <-> zoom state = None /\
      match container with
      | ContainerId id => document !! id
      | ContainerNode node => node
      end = None.
Proof.
  unfold TransportMap.constructor.
  set (node := match container with
               | ContainerId id => document !! id
               | ContainerNode node => node
               end).
  destruct (zoom state) as [z|].
  - split; [intros [e He]; discriminate | intros [H _]; discriminate].
  - destruct node as [n|]; cbn.
    + split; [intros [e He]; discriminate | intros [_ H]; discriminate].
    + split; [intros _; split; reflexivity | intros _; eexists; reflexivity].
Qed.

(** X22 (numbers as reals): when the state carries no zoom, the map starts
    at the zoom at which the whole scheme is visible: once the layer has
    placed the scheme view at that zoom, the image is no wider and no
    higher than the smaller side of the container, and as wide or as
    high as it. In binary64 the base scale, [Math.log] and [Math.pow]
    round, and the bounds hold up to that. *)
Theorem initial_zoom_shows_whole_scheme
    (document : gmap string HtmlElement) (city : string) (container : Container)
    (state : State) (options : Options) (node : HtmlElement)
    (scheme : Scheme.t) (toClientPixels : R * R -> R * R) :
  let w := width (Scheme._metaData scheme) in
  let h := height (Scheme._metaData scheme) in
  let side := Math_min (clientWidth node) (clientHeight node) in
  zoom state = None ->
  match container with
  | ContainerId id => document !! id
  | ContainerNode node => node
  end = Some node ->
  0 < clientWidth node -> 0 < clientHeight node ->
  0 < w -> 0 < h ->
  exists this url,
    TransportMap.constructor document city container state options
      = TransportMap.Loading this url /\
    let pane := {| pane_toClientPixels := toClientPixels;
                   pane_getZoom := TransportMap._state_zoom this |} in
    let v := SchemeLayer._updateSchemePosition (SchemeView.constructor scheme) pane in
    exists W H,
      SchemeView._node v !! "width" = Some (CssPx W) /\
      SchemeView._node v !! "height" = Some (CssPx H) /\
      W <= side /\ H <= side /\ (W = side \/ H = side).
Proof.
  intros w h side Hz Hnode Hcw Hch Hw Hh.
  unfold TransportMap.constructor. rewrite Hz, Hnode. cbn [SchemeLayer.getFitZoom].
  eexists _, _. split; [reflexivity|]. cbn [TransportMap._state_zoom]. cbv zeta.
  set (scale := Math_min (clientWidth node / SchemeLayer.SQUARE_SIZE)
                         (clientHeight node / SchemeLayer.SQUARE_SIZE)) in *.
  assert (Hpos : 0 < scale).
  { subst scale. unfold Math_min, SchemeLayer.SQUARE_SIZE.
    apply Rmin_case; apply Rdiv_lt_0_compat; lra. }
  pose proof (getScaleFromZoom_Math_log scale Hpos) as Hm.
  unfold SchemeLayer.getScaleFromZoom in Hm.
  assert (Hside : 256 * scale = side).
  { subst scale side. unfold Math_min, SchemeLayer.SQUARE_SIZE, Rmin.
    destruct (Rle_dec (clientWidth node / 256) (clientHeight node / 256)) as [H|H];
      destruct (Rle_dec (clientWidth node) (clientHeight node)) as [G|G];
      lra. }
  destruct (scaled_image_fits scheme Hw Hh) as (Hfw & Hfh & Hone).
  fold w h in Hfw, Hfh, Hone.
  set (s := SchemeView._zeroZoomScale (SchemeView.constructor scheme)) in *.
  exists (w * (s * Math_pow 2 (SchemeLayer.getZoomFromScale scale))),
         (h * (s * Math_pow 2 (SchemeLayer.getZoomFromScale scale))).
  split; [reflexivity|]. split; [reflexivity|].
  rewrite Hm, <- Hside. split; [|split].
  - replace (w * (s * scale)) with (w * s * scale) by ring. apply Rmult_le_compat_r; lra.
  - replace (h * (s * scale)) with (h * s * scale) by ring. apply Rmult_le_compat_r; lra.
  - destruct Hone as [E|E]; [left|right]; rewrite <- E; ring.
Qed.

Lemma initial_zoom_shows_whole_scheme_witness :
  zoom Examples.no_state = None /\
  0 < clientWidth Examples.wide /\ 0 < clientHeight Examples.wide /\
  0 < width (Scheme._metaData Examples.scheme) /\
  0 < height (Scheme._metaData Examples.scheme) /\
  exists this url W H,
    TransportMap.constructor ∅ "moscow" (ContainerNode (Some Examples.wide))
      Examples.no_state Examples.no_options
      = TransportMap.Loading this url /\
    SchemeView._node
      (SchemeLayer._updateSchemePosition (SchemeView.constructor Examples.scheme)
         (Examples.pane_at (TransportMap._state_zoom this))) !! "width" = Some (CssPx W) /\
    SchemeView._node
      (SchemeLayer._updateSchemePosition (SchemeView.constructor Examples.scheme)
         (Examples.pane_at (TransportMap._state_zoom this))) !! "height" = Some (CssPx H) /\
    W <= Math_min 1024 512 /\ H <= Math_min 1024 512.
Proof.
  assert (Hcw : 0 < clientWidth Examples.wide) by (cbn; lra).
  assert (Hch : 0 < clientHeight Examples.wide) by (cbn; lra).
  assert (Hw : 0 < width (Scheme._metaData Examples.scheme)) by (cbn; lra).
  assert (Hh : 0 < height (Scheme._metaData Examples.scheme)) by (cbn; lra).
  split; [reflexivity|]. split; [exact Hcw|]. split; [exact Hch|].
  split; [exact Hw|]. split; [exact Hh|].
  destruct (initial_zoom_shows_whole_scheme ∅ "moscow" (ContainerNode (Some Examples.wide))
              Examples.no_state Examples.no_options Examples.wide Examples.scheme
              (fun p => (fst p - 10, snd p - 20)) eq_refl eq_refl Hcw Hch Hw Hh)
    as (this & url & Hrun & W & H & HW & HH & HWs & HHs & _).
  exists this, url, W, H.
  split; [exact Hrun|]. split; [exact HW|]. split; [exact HH|]. split; [exact HWs | exact HHs].
Defined.

End InitialZoom.
